(** * tugboat-logdb: the pebble log store ([db.go]) and its update protocol

    A shallow embedding of the [db] type of package [pebble]: the operations
    that persist Raft state, snapshots and entries through a write batch, and
    the reads that serve them back.  Go's [uint64] is [N]; the only constant
    of that type the code relies on is [math.MaxUint64].  Go's [error] results
    are [option error] ([None] is [nil]); a Go panic is the [Panicked] result
    of the state monad [M]. *)

From Stdlib Require Import NArith Lia.
From stdpp Require Import gmap list sorting strings.

Open Scope N_scope.

Definition MaxUint64 : N := 18446744073709551615.

(** ** raftpb: the records that travel through the store

    The messages of package [raftpb], with the fields the log store reads. *)

Module State.
Record t := mk { Term : N; Vote : N; Commit : N }.
Definition empty : t := mk 0 0 0.
End State.

Module Snapshot.
Record t := mk { Index : N; Term : N; ClusterId : N; Type_ : N }.
Definition empty : t := mk 0 0 0 0.
End Snapshot.

Module Entry.
Record t := mk { Term : N; Index : N; Cmd : list N }.
Definition size (e : t) : N := N.of_nat (length (Cmd e)).
End Entry.

Module Bootstrap.
Record t := mk { Join : bool; Type_ : N }.
End Bootstrap.

Module Update.
Record t := mk {
  ClusterID : N;
  NodeID : N;
  State : State.t;
  EntriesToSave : list Entry.t;
  Snapshot : Snapshot.t
}.
End Update.

#[global] Instance State_eq_dec : EqDecision State.t.
Proof. solve_decision. Defined.

(** [pb.IsEmptyState]: the state equals the zero state. *)
Definition IsEmptyState (st : State.t) : bool := bool_decide (st = State.empty).

(** [pb.IsEmptySnapshot]: a snapshot with index 0 is the empty snapshot. *)
Definition IsEmptySnapshot (s : Snapshot.t) : bool := Snapshot.Index s =? 0.

(** ** Errors and panics *)

(** [dn]: the display name of a replica in wrapped error messages. *)
Definition mod_ : N := 100000.
Definition dn (clusterID nodeID : N) : N * N := (clusterID mod mod_, nodeID mod mod_).

Inductive wrapMsg :=
| FailedToGetMaxIndex (name : N * N)
| FailedToIterateEntries (name : N * N) (low high maxSize maxIndex : N).

Inductive error :=
| ErrNoSavedLog
| ErrNoBootstrapInfo
| StorageIO (code : N)
| Wrapped (cause : error) (msg : wrapMsg).

#[global] Instance wrapMsg_eq_dec : EqDecision wrapMsg.
Proof. solve_decision. Defined.
#[global] Instance error_eq_dec : EqDecision error.
Proof. solve_decision. Defined.

(** [errors.Wrapf] of github.com/pkg/errors: a nil error stays nil. *)
Definition Wrapf (err : option error) (msg : wrapMsg) : option error :=
  match err with
  | None => None
  | Some e => Some (Wrapped e msg)
  end.

(** The [NotFound] kind of the error taxonomy: the two sentinel errors of
    [raftio] that report an absent record. *)
Definition is_NotFound (e : error) : bool :=
  match e with
  | ErrNoSavedLog | ErrNoBootstrapInfo => true
  | _ => false
  end.

Inductive panic :=
| MaxIndexNotHandled (snapshotIndex lastIndex : N)
| NilContext
| UnmarshalFailed
| UnknownStateMachineType.

(** ** The state monad with panics *)

Inductive Res (S A : Type) :=
| Done (a : A) (s : S)
| Panicked (p : panic) (s : S).
Arguments Done {S A} a s.
Arguments Panicked {S A} p s.

Definition M (S A : Type) : Type := S → Res S A.

#[global] Instance M_ret {S} : MRet (M S) := fun A a s => Done a s.

#[global] Instance M_bind {S} : MBind (M S) := fun A B f m s =>
  match m s with
  | Done a s' => f a s'
  | Panicked p s' => Panicked p s'
  end.

Definition raise {S A} (p : panic) : M S A := fun s => Panicked p s.

(** A step that reads and updates the state: for a callback, the state is
    the local variable it captures. *)
Definition state {S A} (f : S → A * S) : M S A :=
  fun s => let '(a, s') := f s in Done a s'.

(** The state a result ends in, whether it returned or panicked. *)
Definition final {S A} (r : Res S A) : S :=
  match r with
  | Done _ s => s
  | Panicked _ s => s
  end.

(** ** Key codec *)

(** Modelled from the spec: the key codec, whose source [key.go] is missing.
    One key-space partition per record kind, told apart by a leading type
    tag; the replica identity follows and, for entry and snapshot keys, an
    index.  All components are fixed-width big-endian, so the byte order of
    keys is the lexicographic order of (tag, cluster, node, index). *)
Inductive Key :=
| EntryKey (clusterID nodeID index : N)
| StateKey (clusterID nodeID : N)
| MaxIndexKey (clusterID nodeID : N)
| SnapshotKey (clusterID nodeID index : N)
| BootstrapKey (clusterID nodeID : N).

#[global] Instance Key_eq_dec : EqDecision Key.
Proof. solve_decision. Defined.

(** Modelled from the spec: the components of a key, in the order of their
    bytes ([key.go] is missing). *)
Definition key_fields (k : Key) : N * N * N * N :=
  match k with
  | EntryKey c n i => (1, c, n, i)
  | StateKey c n => (2, c, n, 0)
  | MaxIndexKey c n => (3, c, n, 0)
  | SnapshotKey c n i => (4, c, n, i)
  | BootstrapKey c n => (5, c, n, 0)
  end.

Definition key_of_fields (f : N * N * N * N) : Key :=
  let '(t, c, n, i) := f in
  if t =? 1 then EntryKey c n i
  else if t =? 2 then StateKey c n
  else if t =? 3 then MaxIndexKey c n
  else if t =? 4 then SnapshotKey c n i
  else BootstrapKey c n.

#[global] Instance Key_countable : Countable Key :=
  inj_countable' key_fields key_of_fields
    (fun k => match k with
              | EntryKey _ _ _ | StateKey _ _ | MaxIndexKey _ _
              | SnapshotKey _ _ _ | BootstrapKey _ _ => eq_refl
              end).

Definition lex (a b : comparison) : comparison :=
  match a with
  | Eq => b
  | _ => a
  end.

(** Modelled from the spec: the byte order of two keys ([key.go] is
    missing). *)
Definition key_compare (k1 k2 : Key) : comparison :=
  let '(t1, c1, n1, i1) := key_fields k1 in
  let '(t2, c2, n2, i2) := key_fields k2 in
  lex (t1 ?= t2) (lex (c1 ?= c2) (lex (n1 ?= n2) (i1 ?= i2))).

Definition key_leb (k1 k2 : Key) : bool :=
  match key_compare k1 k2 with
  | Gt => false
  | _ => true
  end.

Definition key_ltb (k1 k2 : Key) : bool :=
  match key_compare k1 k2 with
  | Lt => true
  | _ => false
  end.

Definition key_le (k1 k2 : Key) : Prop := key_leb k1 k2 = true.

#[global] Instance key_le_dec : RelDecision key_le.
Proof. intros k1 k2. unfold key_le. apply _. Defined.

(** ** Stored values *)

(** Values are kept decoded.  [pb.MustMarshal] and [pb.MustUnmarshal] are the
    codec of [raftpb]: every record encodes to a non-empty byte string and
    decodes back to itself, and decoding the bytes of another kind of record
    panics.  The empty byte string a callback receives for an absent key is
    [None]. *)
Inductive Value :=
| VEntry (e : Entry.t)
| VEntryBatch (es : list Entry.t)
| VState (st : State.t)
| VMaxIndex (index : N)
| VSnapshot (ss : Snapshot.t)
| VBootstrap (bs : Bootstrap.t).

Definition MustUnmarshalState {S} (v : Value) : M S State.t :=
  match v with
  | VState st => mret st
  | _ => raise UnmarshalFailed
  end.

Definition MustUnmarshalSnapshot {S} (v : Value) : M S Snapshot.t :=
  match v with
  | VSnapshot ss => mret ss
  | _ => raise UnmarshalFailed
  end.

Definition MustUnmarshalBootstrap {S} (v : Value) : M S Bootstrap.t :=
  match v with
  | VBootstrap bs => mret bs
  | _ => raise UnmarshalFailed
  end.

Definition MustUnmarshalEntry {S} (v : Value) : M S Entry.t :=
  match v with
  | VEntry e => mret e
  | _ => raise UnmarshalFailed
  end.

(** [binary.BigEndian.Uint64] on the eight bytes of a max-index record. *)
Definition BigEndianUint64 {S} (v : Value) : M S N :=
  match v with
  | VMaxIndex i => mret i
  | _ => raise UnmarshalFailed
  end.

(** ** Write batch *)

(** Modelled from the spec: the write batch of the storage engine, whose
    source [kv_pebble.go] is missing: the mutations staged so far, in staging
    order, applied together by a commit. *)
Inductive wbOp :=
| WbPut (k : Key) (v : Value)
| WbDelete (k : Key).

Abbreviation pebbleWriteBatch := (list wbOp).

(** Modelled from the spec: [Put], [Delete] and [Count] of the write batch
    ([kv_pebble.go] is missing). *)
Definition Put (wb : pebbleWriteBatch) (k : Key) (v : Value) : pebbleWriteBatch :=
  wb ++ [WbPut k v].

Definition Delete (wb : pebbleWriteBatch) (k : Key) : pebbleWriteBatch :=
  wb ++ [WbDelete k].

Definition Count (wb : pebbleWriteBatch) : nat := length wb.

(** Modelled from the spec: what a committed batch does to the store, one
    staged mutation after the other ([kv_pebble.go] is missing). *)
Definition apply_op (m : gmap Key Value) (op : wbOp) : gmap Key Value :=
  match op with
  | WbPut k v => <[k := v]> m
  | WbDelete k => delete k m
  end.

Definition apply_batch (wb : pebbleWriteBatch) (m : gmap Key Value) : gmap Key Value :=
  foldl apply_op m wb.

(** ** The embedded key-value engine *)

(** Modelled from the spec: the storage engine, whose source [kv_pebble.go]
    is missing.  It offers a point get, an atomic commit of a write
    batch, forward-ordered range iteration and a bulk range delete, and any of
    its calls may fail with an I/O error.  [faults] is the plan of those
    failures: the outcome of each call still to come, oldest first ([None], or
    no entry left, is a call that is served).  [reads] counts the get and
    iterate calls made so far and [commits] lists the batches handed to
    commit, newest first. *)
Record KV := mkKV {
  data : gmap Key Value;
  faults : list (option N);
  reads : nat;
  commits : list pebbleWriteBatch
}.

(** Modelled from the spec: the outcome the engine gives to its next call
    ([kv_pebble.go] is missing). *)
Definition next_fault (kv : KV) : option N :=
  match faults kv with
  | f :: _ => f
  | [] => None
  end.

Definition served (kv : KV) : KV :=
  mkKV (data kv) (tail (faults kv)) (reads kv) (commits kv).

Definition in_range (fk lk : Key) (inc : bool) (k : Key) : bool :=
  key_leb fk k && (if inc then key_leb k lk else key_ltb k lk).

Definition item_le (x y : Key * Value) : Prop := key_le x.1 y.1.

#[global] Instance item_le_dec : RelDecision item_le.
Proof. intros x y. unfold item_le. apply _. Defined.

(** Modelled from the spec: the records of a key range, in ascending key
    order ([kv_pebble.go] is missing). *)
Definition range_items (m : gmap Key Value) (fk lk : Key) (inc : bool)
  : list (Key * Value) :=
  merge_sort item_le
    (map_to_list (filter (fun kv => in_range fk lk inc kv.1 = true) m)).

(** Modelled from the spec: [GetValue] of the engine ([kv_pebble.go] is
    missing).  [op] receives the stored value, or the empty data when the
    key is absent, and its error is the result; [l] is the local variable
    the callback captures. *)
Definition GetValue {L} (key : Key) (op : option Value → M L (option error)) (l : L)
  : M KV (L * option error) :=
  fun kv =>
    let kv' := mkKV (data kv) (tail (faults kv)) (S (reads kv)) (commits kv) in
    match next_fault kv with
    | Some code => Done (l, Some (StorageIO code)) kv'
    | None =>
        match op (data kv !! key) l with
        | Done err l' => Done (l', err) kv'
        | Panicked p _ => Panicked p kv'
        end
    end.

Fixpoint visit {L} (op : Key → Value → M L (bool * option error))
    (items : list (Key * Value)) : M L (option error) :=
  match items with
  | [] => mret None
  | (k, v) :: rest =>
      '(cont, err) ← op k v;
      match err with
      | Some e => mret (Some e)
      | None => if cont : bool then visit op rest else mret None
      end
  end.

(** Modelled from the spec: [IterateValue] of the engine ([kv_pebble.go] is
    missing).  [op] visits the records of the range from [fk] to [lk]
    ([lk] included when [inc]) in key order until it asks to stop or
    fails. *)
Definition IterateValue {L} (fk lk : Key) (inc : bool)
    (op : Key → Value → M L (bool * option error)) (l : L)
  : M KV (L * option error) :=
  fun kv =>
    let kv' := mkKV (data kv) (tail (faults kv)) (S (reads kv)) (commits kv) in
    match next_fault kv with
    | Some code => Done (l, Some (StorageIO code)) kv'
    | None =>
        match visit op (range_items (data kv) fk lk inc) l with
        | Done err l' => Done (l', err) kv'
        | Panicked p _ => Panicked p kv'
        end
    end.

(** Modelled from the spec: [CommitWriteBatch] of the engine ([kv_pebble.go]
    is missing): all the mutations of the batch, or none of them. *)
Definition CommitWriteBatch (wb : pebbleWriteBatch) : M KV (option error) :=
  fun kv =>
    match next_fault kv with
    | Some code =>
        Done (Some (StorageIO code))
          (mkKV (data kv) (tail (faults kv)) (reads kv) (wb :: commits kv))
    | None =>
        Done None
          (mkKV (apply_batch wb (data kv)) (tail (faults kv)) (reads kv)
             (wb :: commits kv))
    end.

(** Modelled from the spec: [BulkRemoveEntries] of the engine
    ([kv_pebble.go] is missing): drops every record from [fk] to [lk]. *)
Definition BulkRemoveEntries (fk lk : Key) : M KV (option error) :=
  fun kv =>
    match next_fault kv with
    | Some code => Done (Some (StorageIO code)) (served kv)
    | None =>
        Done None
          (mkKV (filter (fun kv => in_range fk lk true kv.1 = false) (data kv))
             (tail (faults kv)) (reads kv) (commits kv))
    end.

(** Modelled from the spec: [openPebbleDB] ([kv_pebble.go] is missing):
    opening the store of a directory can fail as well. *)
Definition openPebbleDB (disk : KV) : option KV * option error :=
  match next_fault disk with
  | Some code => (None, Some (StorageIO code))
  | None => (Some (served disk), None)
  end.

(** ** Replica cache *)

(** Modelled from the spec: the replica cache, whose source [cache.go] is
    missing.  Per replica identity it holds the last max index, the
    last persisted state and the last snapshot index, each of them absent
    until first set. *)
Module Cache.
Record t := mk {
  lastMaxIndex : gmap (N * N) N;
  lastState : gmap (N * N) State.t;
  lastSnapshotIndex : gmap (N * N) N
}.

Definition empty : t := mk ∅ ∅ ∅.

(** Modelled from the spec: [cache.getMaxIndex] ([cache.go] is missing): the
    index and whether it was found. *)
Definition getMaxIndex (c : t) (clusterID nodeID : N) : option N :=
  lastMaxIndex c !! (clusterID, nodeID).

(** Modelled from the spec: [cache.setMaxIndex] ([cache.go] is missing):
    unconditional overwrite. *)
Definition setMaxIndex (c : t) (clusterID nodeID maxIndex : N) : t :=
  mk (<[(clusterID, nodeID) := maxIndex]> (lastMaxIndex c)) (lastState c)
     (lastSnapshotIndex c).

(** Modelled from the spec: [cache.setState] ([cache.go] is missing): true,
    and the cache updated, only if the state differs from the cached one or
    none is cached. *)
Definition setState (c : t) (clusterID nodeID : N) (st : State.t) : bool * t :=
  if decide (lastState c !! (clusterID, nodeID) = Some st) then (false, c)
  else (true, mk (lastMaxIndex c) (<[(clusterID, nodeID) := st]> (lastState c))
                 (lastSnapshotIndex c)).

(** Modelled from the spec: [cache.trySaveSnapshot] ([cache.go] is missing):
    true, and [index] recorded, only if [index] is strictly greater than the
    recorded value (0 if absent); otherwise false without mutation. *)
Definition trySaveSnapshot (c : t) (clusterID nodeID index : N) : bool * t :=
  if default 0 (lastSnapshotIndex c !! (clusterID, nodeID)) <? index
  then (true, mk (lastMaxIndex c) (lastState c)
                 (<[(clusterID, nodeID) := index]> (lastSnapshotIndex c)))
  else (false, c).

(** Modelled from the spec: [cache.setSnapshotIndex] ([cache.go] is
    missing): overwrites the last snapshot index. *)
Definition setSnapshotIndex (c : t) (clusterID nodeID index : N) : t :=
  mk (lastMaxIndex c) (lastState c)
     (<[(clusterID, nodeID) := index]> (lastSnapshotIndex c)).
End Cache.

(** ** Operation context *)

(** [IContext] as far as [db] uses it: the slot of the write batch, and the
    reusable key and value buffer (which carry no state of their own here).
    A nil context is [None]. *)
Record Context := mkContext { ctxWriteBatch : option pebbleWriteBatch }.

Abbreviation IContext := (option Context).

(** ** Entry manager *)

(** The [entryManager] interface, with the methods the operations below
    call.  [record] stages into the write batch it is given and may consult
    the cache; [iterate] and [rangedOp] work on the store. *)
Record entryManager := mkEntryManager {
  record : Cache.t → pebbleWriteBatch → N → N → IContext → list Entry.t
           → pebbleWriteBatch * N;
  iterate : list Entry.t → N → N → N → N → N → N → N
            → M KV (list Entry.t * N * option error);
  rangedOp : N → N → N → (Key → Key → M KV (option error)) → M KV (option error)
}.

(** Modelled from the spec: the plain entry manager, whose source [plain.go]
    is missing: one record per entry, keyed by its own index. *)
Module Plain.
(** Modelled from the spec: [plainEntries.record] ([plain.go] is missing).
    Stages the entries in order; the result is the highest staged index,
    0 when nothing was staged. *)
Definition record (cs : Cache.t) (wb : pebbleWriteBatch) (clusterID nodeID : N)
    (ctx : IContext) (entries : list Entry.t) : pebbleWriteBatch * N :=
  foldl (fun '(wb, mi) e =>
           (Put wb (EntryKey clusterID nodeID (Entry.Index e)) (VEntry e),
            N.max mi (Entry.Index e)))
        (wb, 0) entries.

(** Modelled from the spec: [plainEntries.iterate] ([plain.go] is missing).
    The entries of [low, min(high, maxIndex+1)) in ascending index order;
    an entry that would take the size over [maxSize] stops the scan unless
    it is the first one. *)
Definition iterate (ents : list Entry.t) (maxIndex size clusterID nodeID
    low high maxSize : N) : M KV (list Entry.t * N * option error) :=
  let fk := EntryKey clusterID nodeID low in
  let lk := EntryKey clusterID nodeID (N.min high (maxIndex + 1)) in
  let op (key : Key) (v : Value) : M (list Entry.t * N * bool) (bool * option error) :=
  e ← MustUnmarshalEntry v;
  state (fun '(ents, size, first) =>
           if negb first && (maxSize <? size + Entry.size e)
           then ((false, None), (ents, size, first))
           else ((true, None), (ents ++ [e], size + Entry.size e, false))) in
'((ents', size', _), err) ← IterateValue fk lk false op (ents, size, true);
  match err with
  | Some e => mret ([], 0, Some e)
  | None => mret (ents', size', None)
  end.

(** Modelled from the spec: [plainEntries.rangedOp] ([plain.go] is missing):
    the boundaries of the key range that holds every entry at or below
    [index], handed to the deletion primitive. *)
Definition rangedOp (clusterID nodeID index : N)
    (op : Key → Key → M KV (option error)) : M KV (option error) :=
  let fk := EntryKey clusterID nodeID 0 in
  let lk := EntryKey clusterID nodeID index in
  op fk lk.
End Plain.

(** Modelled from the spec: [newPlainEntries] ([plain.go] is missing). *)
Definition newPlainEntries : entryManager :=
  mkEntryManager Plain.record Plain.iterate Plain.rangedOp.

(** ** The log store *)

(** [db]: the cache, the store and the entry manager of one shard (the key
    pool only recycles key buffers and holds no state of its own). *)
Record db := mkDb {
  cs : Cache.t;
  kvs : KV;
  entries : entryManager
}.

(** Runs an engine call on [r.kvs]. *)
Definition onKV {A} (m : M KV A) : M db A :=
  fun r =>
    match m (kvs r) with
    | Done a kv => Done a (mkDb (cs r) kv (entries r))
    | Panicked p kv => Panicked p (mkDb (cs r) kv (entries r))
    end.

(** Runs a cache operation on [r.cs]. *)
Definition onCache {A} (f : Cache.t → A * Cache.t) : M db A :=
  state (fun r => let '(a, c) := f (cs r) in (a, mkDb c (kvs r) (entries r))).

(** The receiver [r] of a method. *)
Definition receiver : M db db := state (fun r => (r, r)).

(** [hasEntryRecord]: whether the store holds any entry record at all. *)
Definition hasEntryRecord : M KV (bool * option error) :=
  let fk := EntryKey 0 0 0 in
  let lk := EntryKey MaxUint64 MaxUint64 MaxUint64 in
  let op (key : Key) (data : Value) : M bool (bool * option error) :=
    state (fun _ => ((false, None), true)) in
  '(located, err) ← IterateValue fk lk true op false;
  match err with
  | Some e => mret (false, Some e)
  | None => mret (located, None)
  end.

(** [openRDB]: [disk] is the store found in the directory that is opened. *)
Definition openRDB (disk : KV) : option db * option error :=
  match openPebbleDB disk with
  | (Some kvs, None) =>
      let cs := Cache.empty in
      let em := newPlainEntries in
      (Some (mkDb cs kvs em), None)
  | (_, err) => (None, err)
  end.

(** [getWriteBatch]: the batch of the context when it has one, a fresh empty
    batch of the store otherwise (which a non-nil context then keeps: the
    batch returned and the slot of the context are the same object). *)
Definition getWriteBatch (ctx : IContext) : pebbleWriteBatch :=
  match ctx with
  | Some c =>
      match ctxWriteBatch c with
      | Some wb => wb
      | None => []
      end
  | None => []
  end.

(** [listSnapshots]: the snapshot records of the replica up to [index], in
    key order. *)
Definition listSnapshots (clusterID nodeID index : N)
  : M db (list Snapshot.t * option error) :=
  let fk := SnapshotKey clusterID nodeID 0 in
  let lk := SnapshotKey clusterID nodeID index in
  let op (key : Key) (data : Value) : M (list Snapshot.t) (bool * option error) :=
    ss ← MustUnmarshalSnapshot data;
    state (fun snapshots => ((true, None), snapshots ++ [ss])) in
  '(snapshots, err) ← onKV (IterateValue fk lk true op []);
  match err with
  | Some e => mret ([], Some e)
  | None => mret (snapshots, None)
  end.

(** [saveMaxIndex]: stages the max-index record; the context only lends
    buffers. *)
Definition saveMaxIndex (wb : pebbleWriteBatch) (clusterID nodeID index : N)
    (ctx : IContext) : pebbleWriteBatch :=
  Put wb (MaxIndexKey clusterID nodeID) (VMaxIndex index).

(** [setMaxIndex]: the cache first, then the staged record. *)
Definition setMaxIndex (wb : pebbleWriteBatch) (ud : Update.t) (maxIndex : N)
    (ctx : IContext) : M db pebbleWriteBatch :=
  _ ← onCache (fun c =>
        (tt, Cache.setMaxIndex c (Update.ClusterID ud) (Update.NodeID ud) maxIndex));
  mret (saveMaxIndex wb (Update.ClusterID ud) (Update.NodeID ud) maxIndex ctx).

Definition saveBootstrap (wb : pebbleWriteBatch) (clusterID nodeID : N)
    (bs : Bootstrap.t) : pebbleWriteBatch :=
  Put wb (BootstrapKey clusterID nodeID) (VBootstrap bs).

(** [saveSnapshot]: stages the delete of every stored snapshot record below
    the new one, then the new record. *)
Definition saveSnapshot (wb : pebbleWriteBatch) (ud : Update.t)
  : M db (pebbleWriteBatch * option error) :=
  if IsEmptySnapshot (Update.Snapshot ud) then mret (wb, None)
  else
    '(snapshots, err) ← listSnapshots (Update.ClusterID ud) (Update.NodeID ud) MaxUint64;
    match err with
    | Some e => mret (wb, Some e)
    | None =>
        let wb := foldl (fun wb ss =>
                    if Snapshot.Index ss <? Snapshot.Index (Update.Snapshot ud)
                    then Delete wb (SnapshotKey (Update.ClusterID ud) (Update.NodeID ud)
                                      (Snapshot.Index ss))
                    else wb) wb snapshots in
        mret (Put wb (SnapshotKey (Update.ClusterID ud) (Update.NodeID ud)
                        (Snapshot.Index (Update.Snapshot ud)))
                (VSnapshot (Update.Snapshot ud)), None)
    end.

Definition saveStateAllocs (wb : pebbleWriteBatch) (clusterID nodeID : N)
    (st : State.t) : pebbleWriteBatch :=
  Put wb (StateKey clusterID nodeID) (VState st).

(** [saveState]: [ctx.GetValueBuffer] on a nil context is a nil dereference. *)
Definition saveState (clusterID nodeID : N) (st : State.t) (wb : pebbleWriteBatch)
    (ctx : IContext) : M db pebbleWriteBatch :=
  if IsEmptyState st then mret wb
  else
    changed ← onCache (fun c => Cache.setState c clusterID nodeID st);
    if negb changed then mret wb
    else
      match ctx with
      | None => raise NilContext
      | Some _ => mret (Put wb (StateKey clusterID nodeID) (VState st))
      end.

(** [saveEntries]: the entry manager stages the entries of each update. *)
Fixpoint saveEntries (updates : list Update.t) (wb : pebbleWriteBatch)
    (ctx : IContext) : M db pebbleWriteBatch :=
  match updates with
  | [] => mret wb
  | ud :: updates =>
      if (0 <? length (Update.EntriesToSave ud))%nat
      then
        r ← receiver;
        let '(wb, mi) := record (entries r) (cs r) wb (Update.ClusterID ud)
                           (Update.NodeID ud) ctx (Update.EntriesToSave ud) in
        wb ← (if 0 <? mi then setMaxIndex wb ud mi ctx else mret wb);
        saveEntries updates wb ctx
      else saveEntries updates wb ctx
  end.

(** One turn of the loop of [saveRaftState]; the boolean tells that the
    function returned nil from inside the loop. *)
Definition saveRaftState_body (ud : Update.t) (wb : pebbleWriteBatch)
    (ctx : IContext) : M db (pebbleWriteBatch * bool) :=
  wb ← saveState (Update.ClusterID ud) (Update.NodeID ud) (Update.State ud) wb ctx;
  if IsEmptySnapshot (Update.Snapshot ud) then mret (wb, false)
  else
    accepted ← onCache (fun c =>
                 Cache.trySaveSnapshot c (Update.ClusterID ud) (Update.NodeID ud)
                   (Snapshot.Index (Update.Snapshot ud)));
    if negb accepted then mret (wb, false)
    else
      _ ← match last (Update.EntriesToSave ud) with
          | Some e =>
              let lastIndex := Entry.Index e in
              if lastIndex <? Snapshot.Index (Update.Snapshot ud)
              then raise (MaxIndexNotHandled (Snapshot.Index (Update.Snapshot ud)) lastIndex)
              else mret tt
          | None => mret tt
          end;
      '(wb, err) ← saveSnapshot wb ud;
      match err with
      | Some _ => mret (wb, true)
      | None =>
          wb ← setMaxIndex wb ud (Snapshot.Index (Update.Snapshot ud)) ctx;
          mret (wb, false)
      end.

Fixpoint saveRaftState_loop (updates : list Update.t) (wb : pebbleWriteBatch)
    (ctx : IContext) : M db (pebbleWriteBatch * bool) :=
  match updates with
  | [] => mret (wb, false)
  | ud :: updates =>
      '(wb, returned) ← saveRaftState_body ud wb ctx;
      if returned : bool then mret (wb, true)
      else saveRaftState_loop updates wb ctx
  end.

(** [saveRaftState]: the error it returns and the write batch as the call
    leaves it. *)
Definition saveRaftState (updates : list Update.t) (ctx : IContext)
  : M db (option error * pebbleWriteBatch) :=
  let wb := getWriteBatch ctx in
  '(wb, returned) ← saveRaftState_loop updates wb ctx;
  if returned : bool then mret (None, wb)
  else
    wb ← saveEntries updates wb ctx;
    if (0 <? Count wb)%nat
    then err ← onKV (CommitWriteBatch wb); mret (err, wb)
    else mret (None, wb).

Definition saveBootstrapInfo (clusterID nodeID : N) (bs : Bootstrap.t)
  : M db (option error) :=
  let wb := getWriteBatch None in
  let wb := saveBootstrap wb clusterID nodeID bs in
  onKV (CommitWriteBatch wb).

Definition getBootstrapInfo (clusterID nodeID : N)
  : M db (Bootstrap.t * option error) :=
  let k := BootstrapKey clusterID nodeID in
  let bootstrap := Bootstrap.mk false 0 in
  '(bootstrap, err) ← onKV (GetValue k (fun data =>
      match data with
      | None => mret (Some ErrNoBootstrapInfo)
      | Some v => bs ← MustUnmarshalBootstrap v; state (fun _ => (None, bs))
      end) bootstrap);
  match err with
  | Some e => mret (Bootstrap.mk false 0, Some e)
  | None => mret (bootstrap, None)
  end.

(** The loop of [saveSnapshots]: the batch, [toSave] and whether the function
    returned nil from inside the loop. *)
Fixpoint saveSnapshots_loop (updates : list Update.t) (wb : pebbleWriteBatch)
    (toSave : bool) : M db (pebbleWriteBatch * bool * bool) :=
  match updates with
  | [] => mret (wb, toSave, false)
  | ud :: updates =>
      if IsEmptySnapshot (Update.Snapshot ud) then saveSnapshots_loop updates wb toSave
      else
        accepted ← onCache (fun c =>
                     Cache.trySaveSnapshot c (Update.ClusterID ud) (Update.NodeID ud)
                       (Snapshot.Index (Update.Snapshot ud)));
        if negb accepted then saveSnapshots_loop updates wb toSave
        else
          '(wb, err) ← saveSnapshot wb ud;
          match err with
          | Some _ => mret (wb, toSave, true)
          | None => saveSnapshots_loop updates wb true
          end
  end.

Definition saveSnapshots (updates : list Update.t) : M db (option error) :=
  let wb := getWriteBatch None in
  let toSave := false in
  '(wb, toSave, returned) ← saveSnapshots_loop updates wb toSave;
  if returned : bool then mret None
  else if toSave : bool then onKV (CommitWriteBatch wb)
  else mret None.

(** [getSnapshot]: the last snapshot listed, the empty snapshot when none
    is. *)
Definition getSnapshot (clusterID nodeID : N) : M db (Snapshot.t * option error) :=
  '(snapshots, err) ← listSnapshots clusterID nodeID MaxUint64;
  match err with
  | Some e => mret (Snapshot.empty, Some e)
  | None =>
      match last snapshots with
      | Some ss =>
          _ ← onCache (fun c =>
                (tt, Cache.setSnapshotIndex c clusterID nodeID (Snapshot.Index ss)));
          mret (ss, None)
      | None => mret (Snapshot.empty, None)
      end
  end.

(** [getMaxIndex]: from the cache, else from the store. *)
Definition getMaxIndex (clusterID nodeID : N) : M db (N * option error) :=
  r ← receiver;
  match Cache.getMaxIndex (cs r) clusterID nodeID with
  | Some v => mret (v, None)
  | None =>
      let k := MaxIndexKey clusterID nodeID in
      let maxIndex := 0 in
      '(maxIndex, err) ← onKV (GetValue k (fun data =>
          match data with
          | None => mret (Some ErrNoSavedLog)
          | Some v => i ← BigEndianUint64 v; state (fun _ => (None, i))
          end) maxIndex);
      match err with
      | Some e => mret (0, Some e)
      | None => mret (maxIndex, None)
      end
  end.

Definition getState (clusterID nodeID : N) : M db (State.t * option error) :=
  let k := StateKey clusterID nodeID in
  let hs := State.empty in
  '(hs, err) ← onKV (GetValue k (fun data =>
      match data with
      | None => mret (Some ErrNoSavedLog)
      | Some v => st ← MustUnmarshalState v; state (fun _ => (None, st))
      end) hs);
  match err with
  | Some e => mret (State.empty, Some e)
  | None => mret (hs, None)
  end.

(** [removeEntriesTo]: a bulk delete over the range the entry manager
    computes. *)
Definition removeEntriesTo (clusterID nodeID index : N) : M db (option error) :=
  let op (fk lk : Key) : M KV (option error) := BulkRemoveEntries fk lk in
  r ← receiver;
  onKV (rangedOp (entries r) clusterID nodeID index op).

Definition saveRemoveNodeData (wb : pebbleWriteBatch) (snapshots : list Snapshot.t)
    (clusterID nodeID : N) : pebbleWriteBatch :=
  let wb := Delete wb (StateKey clusterID nodeID) in
  let wb := Delete wb (BootstrapKey clusterID nodeID) in
  let wb := Delete wb (MaxIndexKey clusterID nodeID) in
  foldl (fun wb ss => Delete wb (SnapshotKey clusterID nodeID (Snapshot.Index ss)))
    wb snapshots.

(** [removeNodeData]: one committed batch of deletes, the cached max index
    reset, then the ranged delete of the entries. *)
Definition removeNodeData (clusterID nodeID : N) : M db (option error) :=
  let wb := getWriteBatch None in
  '(snapshots, err) ← listSnapshots clusterID nodeID MaxUint64;
  match err with
  | Some e => mret (Some e)
  | None =>
      let wb := saveRemoveNodeData wb snapshots clusterID nodeID in
      err ← onKV (CommitWriteBatch wb);
      match err with
      | Some e => mret (Some e)
      | None =>
          _ ← onCache (fun c => (tt, Cache.setMaxIndex c clusterID nodeID 0));
          removeEntriesTo clusterID nodeID MaxUint64
      end
  end.

(** [pb.UnknownStateMachine], the zero value of the state machine type. *)
Definition UnknownStateMachine : N := 0.

(** [importSnapshot]: the records of an imported snapshot, in one batch. *)
Definition importSnapshot (ss : Snapshot.t) (nodeID : N) : M db (option error) :=
  if Snapshot.Type_ ss =? UnknownStateMachine then raise UnknownStateMachineType
  else
    '(snapshots, err) ← listSnapshots (Snapshot.ClusterId ss) nodeID MaxUint64;
    match err with
    | Some e => mret (Some e)
    | None =>
        let selectedss := filter (fun curss => Snapshot.Index ss ≤ Snapshot.Index curss)
                            snapshots in
        let wb := getWriteBatch None in
        let bsrec := Bootstrap.mk true (Snapshot.Type_ ss) in
        let st := State.mk (Snapshot.Term ss) 0 (Snapshot.Index ss) in
        let wb := saveRemoveNodeData wb selectedss (Snapshot.ClusterId ss) nodeID in
        let wb := saveBootstrap wb (Snapshot.ClusterId ss) nodeID bsrec in
        let wb := saveStateAllocs wb (Snapshot.ClusterId ss) nodeID st in
        '(wb, err) ← saveSnapshot wb
                       (Update.mk (Snapshot.ClusterId ss) nodeID State.empty [] ss);
        match err with
        | Some e => mret (Some e)
        | None =>
            let wb := saveMaxIndex wb (Snapshot.ClusterId ss) nodeID (Snapshot.Index ss)
                        None in
            onKV (CommitWriteBatch wb)
        end
    end.

(** [iterateEntries]: nothing to add when no log was saved, else what the
    entry manager iterates up to the max index. *)
Definition iterateEntries (ents : list Entry.t) (size clusterID nodeID low high
    maxSize : N) : M db (list Entry.t * N * option error) :=
  '(maxIndex, err) ← getMaxIndex clusterID nodeID;
  if decide (err = Some ErrNoSavedLog) then mret (ents, size, None)
  else
    match err with
    | Some e =>
        mret ([], 0, Wrapf (Some e) (FailedToGetMaxIndex (dn clusterID nodeID)))
    | None =>
        r ← receiver;
        '(entries, sz, err) ← onKV (iterate (entries r) ents maxIndex size clusterID
                                      nodeID low high maxSize);
        mret (entries, sz,
              Wrapf err (FailedToIterateEntries (dn clusterID nodeID) low high
                           maxSize maxIndex))
    end.

(** ** More of the log store *)

(** [raftio.NodeInfo]: the identity of a replica. *)
Module NodeInfo.
Record t := mk { ClusterID : N; NodeID : N }.
End NodeInfo.

(** Modelled from the spec: [parseNodeInfoKey] of the key codec ([key.go] is
    missing): the replica identity a key carries. *)
Definition parseNodeInfoKey (k : Key) : N * N :=
  match k with
  | EntryKey c n _ | StateKey c n | MaxIndexKey c n | SnapshotKey c n _
  | BootstrapKey c n => (c, n)
  end.

(** [listNodeInfo]: the replicas that have a bootstrap record, in key
    order. *)
Definition listNodeInfo : M db (list NodeInfo.t * option error) :=
  let fk := BootstrapKey 0 0 in
  let lk := BootstrapKey MaxUint64 MaxUint64 in
  let op (key : Key) (data : Value) : M (list NodeInfo.t) (bool * option error) :=
    let '(cid, nid) := parseNodeInfoKey key in
    state (fun ni => ((true, None), ni ++ [NodeInfo.mk cid nid])) in
  '(ni, err) ← onKV (IterateValue fk lk true op []);
  match err with
  | Some e => mret ([], Some e)
  | None => mret (ni, None)
  end.

(** [raftio.RaftState]. *)
Module RaftState.
Record t := mk { State : State.t; FirstIndex : N; EntryCount : N }.
Definition empty : t := mk State.empty 0 0.
End RaftState.

(** [db.getRange].  The [getRange] method of the entry manager, which the
    record [entryManager] above leaves out, is the parameter
    [entriesGetRange]. *)
Definition getRange (entriesGetRange : N → N → N → N → M KV (N * N * option error))
    (clusterID nodeID snapshotIndex : N) : M db (N * N * option error) :=
  '(maxIndex, err) ← getMaxIndex clusterID nodeID;
  if decide (err = Some ErrNoSavedLog) then mret (snapshotIndex, 0, None)
  else
    match err with
    | Some e => mret (0, 0, Some e)
    | None =>
        if snapshotIndex =? maxIndex then mret (snapshotIndex, 0, None)
        else onKV (entriesGetRange clusterID nodeID snapshotIndex maxIndex)
    end.

(** [readRaftState]: the range first, then the state. *)
Definition readRaftState (entriesGetRange : N → N → N → N → M KV (N * N * option error))
    (clusterID nodeID snapshotIndex : N) : M db (RaftState.t * option error) :=
  '(firstIndex, length, err) ← getRange entriesGetRange clusterID nodeID snapshotIndex;
  match err with
  | Some e => mret (RaftState.empty, Some e)
  | None =>
      '(st, err) ← getState clusterID nodeID;
      match err with
      | Some e => mret (RaftState.empty, Some e)
      | None => mret (RaftState.mk st firstIndex length, None)
      end
  end.

(** Modelled from the spec: [CompactEntries] of the engine ([kv_pebble.go]
    is missing): the hint to reclaim the space of a key range.  It can fail
    as any engine call can, and the records stored are the same after it. *)
Definition CompactEntries (fk lk : Key) : M KV (option error) :=
  fun kv =>
    match next_fault kv with
    | Some code => Done (Some (StorageIO code)) (served kv)
    | None => Done None (served kv)
    end.

(** [compact]: the compaction hint over the range the entry manager
    computes. *)
Definition compact (clusterID nodeID index : N) : M db (option error) :=
  let op (fk lk : Key) : M KV (option error) := CompactEntries fk lk in
  r ← receiver;
  onKV (rangedOp (entries r) clusterID nodeID index op).

(** [name], [binaryFormat] and [close] hand over to the engine and to the
    entry manager.  The methods they call there ([Name] and [Close] of the
    engine, [binaryFormat] of the entry manager) are parameters, as
    [entriesGetRange] is above. *)
Definition name (kvsName : KV → string) : M db string :=
  r ← receiver;
  mret (kvsName (kvs r)).

Definition binaryFormat (entriesBinaryFormat : entryManager → N) : M db N :=
  r ← receiver;
  mret (entriesBinaryFormat (entries r)).

Definition close (kvsClose : M KV (option error)) : M db (option error) :=
  onKV kvsClose.

(** ** Configuration ([config.go]) *)

(** The product of two [uint64] wraps around. *)
Definition mul64 (a b : N) : N := (a * b) mod 2 ^ 64.

(** [vfs.FS]: the default file system or another one. *)
Inductive vfsFS :=
| DefaultFS
| OtherFS (id : N).

Module LogDBConfig.
Record t := mk {
  FS : option vfsFS;
  Shards : N;
  KVKeepLogFileNum : N;
  KVMaxBackgroundCompactions : N;
  KVMaxBackgroundFlushes : N;
  KVLRUCacheSize : N;
  KVWriteBufferSize : N;
  KVMaxWriteBufferNumber : N;
  KVLevel0FileNumCompactionTrigger : N;
  KVLevel0SlowdownWritesTrigger : N;
  KVLevel0StopWritesTrigger : N;
  KVMaxBytesForLevelBase : N;
  KVMaxBytesForLevelMultiplier : N;
  KVTargetFileSizeBase : N;
  KVTargetFileSizeMultiplier : N;
  KVLevelCompactionDynamicLevelBytes : N;
  KVRecycleLogFileNum : N;
  KVNumOfLevels : N;
  KVBlockSize : N;
  SaveBufferSize : N;
  MaxSaveBufferSize : N
}.

(** [cfg.KVWriteBufferSize = v]. *)
Definition withKVWriteBufferSize (cfg : t) (v : N) : t :=
  mk (FS cfg) (Shards cfg) (KVKeepLogFileNum cfg) (KVMaxBackgroundCompactions cfg)
     (KVMaxBackgroundFlushes cfg) (KVLRUCacheSize cfg) v (KVMaxWriteBufferNumber cfg)
     (KVLevel0FileNumCompactionTrigger cfg) (KVLevel0SlowdownWritesTrigger cfg)
     (KVLevel0StopWritesTrigger cfg) (KVMaxBytesForLevelBase cfg)
     (KVMaxBytesForLevelMultiplier cfg) (KVTargetFileSizeBase cfg)
     (KVTargetFileSizeMultiplier cfg) (KVLevelCompactionDynamicLevelBytes cfg)
     (KVRecycleLogFileNum cfg) (KVNumOfLevels cfg) (KVBlockSize cfg)
     (SaveBufferSize cfg) (MaxSaveBufferSize cfg).

(** [cfg.KVMaxWriteBufferNumber = v]. *)
Definition withKVMaxWriteBufferNumber (cfg : t) (v : N) : t :=
  mk (FS cfg) (Shards cfg) (KVKeepLogFileNum cfg) (KVMaxBackgroundCompactions cfg)
     (KVMaxBackgroundFlushes cfg) (KVLRUCacheSize cfg) (KVWriteBufferSize cfg) v
     (KVLevel0FileNumCompactionTrigger cfg) (KVLevel0SlowdownWritesTrigger cfg)
     (KVLevel0StopWritesTrigger cfg) (KVMaxBytesForLevelBase cfg)
     (KVMaxBytesForLevelMultiplier cfg) (KVTargetFileSizeBase cfg)
     (KVTargetFileSizeMultiplier cfg) (KVLevelCompactionDynamicLevelBytes cfg)
     (KVRecycleLogFileNum cfg) (KVNumOfLevels cfg) (KVBlockSize cfg)
     (SaveBufferSize cfg) (MaxSaveBufferSize cfg).
End LogDBConfig.

Definition defaultLogDBShards : N := 16.

Definition getDefaultLogDBConfig : LogDBConfig.t :=
  LogDBConfig.mk
    (Some DefaultFS)
    defaultLogDBShards
    16
    2
    2
    0
    (128 * 1024 * 1024)
    4
    8
    17
    24
    (4 * 1024 * 1024 * 1024)
    2
    (16 * 1024 * 1024)
    2
    0
    0
    7
    (32 * 1024)
    (32 * 1024)
    (64 * 1024 * 1024).

Definition GetLargeMemLogDBConfig : LogDBConfig.t := getDefaultLogDBConfig.

Definition GetDefaultLogDBConfig : LogDBConfig.t := GetLargeMemLogDBConfig.

Definition GetTinyMemLogDBConfig : LogDBConfig.t :=
  let cfg := getDefaultLogDBConfig in
  let cfg := LogDBConfig.withKVWriteBufferSize cfg (4 * 1024 * 1024) in
  let cfg := LogDBConfig.withKVMaxWriteBufferNumber cfg 4 in
  cfg.

Definition GetSmallMemLogDBConfig : LogDBConfig.t :=
  let cfg := getDefaultLogDBConfig in
  let cfg := LogDBConfig.withKVWriteBufferSize cfg (16 * 1024 * 1024) in
  let cfg := LogDBConfig.withKVMaxWriteBufferNumber cfg 4 in
  cfg.

Definition GetMediumMemLogDBConfig : LogDBConfig.t :=
  let cfg := getDefaultLogDBConfig in
  let cfg := LogDBConfig.withKVWriteBufferSize cfg (64 * 1024 * 1024) in
  let cfg := LogDBConfig.withKVMaxWriteBufferNumber cfg 4 in
  cfg.

(** [MemorySizeMB]: the two products are [uint64] products. *)
Definition MemorySizeMB (cfg : LogDBConfig.t) : N :=
  let ss := mul64 (LogDBConfig.KVWriteBufferSize cfg)
              (LogDBConfig.KVMaxWriteBufferNumber cfg) in
  let bs := mul64 ss (LogDBConfig.Shards cfg) in
  bs / (1024 * 1024).

(** ** Directories of the shards ([logdb.go]) *)

(** The panics of [checkDirs], each with the values its message prints. *)
Inductive dirsPanic :=
| OnlyOneRegularDir (lldirs : nat)
| RegularDirsMismatch (dirs : nat) (shards : N)
| LowLatencyDirsMismatch (dirs lldirs : list string)
| NoRegularDir.

Definition checkDirs (numOfShards : N) (dirs lldirs : list string) : option dirsPanic :=
  if (length dirs =? 1)%nat then
    if negb (length lldirs =? 0)%nat && negb (length lldirs =? 1)%nat
    then Some (OnlyOneRegularDir (length lldirs))
    else None
  else if (1 <? length dirs)%nat then
    if negb (N.of_nat (length dirs) =? numOfShards)
    then Some (RegularDirsMismatch (length dirs) numOfShards)
    else if (0 <? length lldirs)%nat then
      if negb (length dirs =? length lldirs)%nat
      then Some (LowLatencyDirsMismatch dirs lldirs)
      else None
    else None
  else Some NoRegularDir.

(** [NewLogDB] up to its call of [OpenShardedDB]: the panic of [checkDirs],
    or the directories handed on.  The loop runs for [i] from 1 while
    [i < Shards]. *)
Definition NewLogDB (shards : N) (dirs lldirs : list string)
  : dirsPanic + list string * list string :=
  match checkDirs shards dirs lldirs with
  | Some p => inl p
  | None =>
      let llDirRequired := (length lldirs =? 1)%nat in
      if (length dirs =? 1)%nat then
        inr (N.iter (shards - 1)
               (fun '(dirs, lldirs) =>
                  (dirs ++ option_list (head dirs),
                   if llDirRequired then lldirs ++ option_list (head lldirs)
                   else lldirs))
               (dirs, lldirs))
      else inr (dirs, lldirs)
  end.

(** ** Vocabulary of the statements *)

Definition returned {S A} (r : Res S A) : option A :=
  match r with
  | Done a _ => Some a
  | Panicked _ _ => None
  end.

(** [preserves f m]: whatever [m] does, returning or panicking, it leaves the
    view [f] of the state as it found it. *)
Definition preserves {S A X} (f : S → X) (m : M S A) : Prop :=
  ∀ s, f (final (m s)) = f s.

(** The outcome planned for the [i]-th engine call from now. *)
Definition fault_at (kv : KV) (i : nat) : option N :=
  match faults kv !! i with
  | Some f => f
  | None => None
  end.


(** Every method of [db], as a call on an instance, and the state the call
    leaves.  The methods of the engine and of the entry manager that are
    parameters of the definitions above come with the call, whatever they
    do; the methods that only stage into the write batch they are given
    leave the instance as it is. *)
Inductive call :=
| CallName (kvsName : KV → string)
| CallBinaryFormat (entriesBinaryFormat : entryManager → N)
| CallClose (kvsClose : M KV (option error))
| CallGetWriteBatch (ctx : IContext)
| CallListNodeInfo
| CallReadRaftState (entriesGetRange : N → N → N → N → M KV (N * N * option error))
    (clusterID nodeID snapshotIndex : N)
| CallGetRange (entriesGetRange : N → N → N → N → M KV (N * N * option error))
    (clusterID nodeID snapshotIndex : N)
| CallSaveRaftState (updates : list Update.t) (ctx : IContext)
| CallImportSnapshot (ss : Snapshot.t) (nodeID : N)
| CallSetMaxIndex (wb : pebbleWriteBatch) (ud : Update.t) (maxIndex : N) (ctx : IContext)
| CallSaveBootstrap (wb : pebbleWriteBatch) (clusterID nodeID : N) (bs : Bootstrap.t)
| CallSaveSnapshot (wb : pebbleWriteBatch) (ud : Update.t)
| CallSaveMaxIndex (wb : pebbleWriteBatch) (clusterID nodeID index : N) (ctx : IContext)
| CallSaveStateAllocs (wb : pebbleWriteBatch) (clusterID nodeID : N) (st : State.t)
| CallSaveState (clusterID nodeID : N) (st : State.t) (wb : pebbleWriteBatch)
    (ctx : IContext)
| CallSaveBootstrapInfo (clusterID nodeID : N) (bs : Bootstrap.t)
| CallGetBootstrapInfo (clusterID nodeID : N)
| CallSaveSnapshots (updates : list Update.t)
| CallGetSnapshot (clusterID nodeID : N)
| CallListSnapshots (clusterID nodeID index : N)
| CallGetMaxIndex (clusterID nodeID : N)
| CallGetState (clusterID nodeID : N)
| CallRemoveEntriesTo (clusterID nodeID index : N)
| CallRemoveNodeData (clusterID nodeID : N)
| CallSaveRemoveNodeData (wb : pebbleWriteBatch) (snapshots : list Snapshot.t)
    (clusterID nodeID : N)
| CallCompact (clusterID nodeID index : N)
| CallSaveEntries (updates : list Update.t) (wb : pebbleWriteBatch) (ctx : IContext)
| CallIterateEntries (ents : list Entry.t) (size clusterID nodeID low high maxSize : N).

(** A method that computes its result from its arguments alone. *)
Definition of_arguments {A} (a : A) : M db A := mret a.

Definition exec (c : call) (r : db) : db :=
  match c with
  | CallName kvsName => final (name kvsName r)
  | CallBinaryFormat entriesBinaryFormat => final (binaryFormat entriesBinaryFormat r)
  | CallClose kvsClose => final (close kvsClose r)
  | CallGetWriteBatch ctx => final (of_arguments (getWriteBatch ctx) r)
  | CallListNodeInfo => final (listNodeInfo r)
  | CallReadRaftState G c n si => final (readRaftState G c n si r)
  | CallGetRange G c n si => final (getRange G c n si r)
  | CallSaveRaftState updates ctx => final (saveRaftState updates ctx r)
  | CallImportSnapshot ss n => final (importSnapshot ss n r)
  | CallSetMaxIndex wb ud mi ctx => final (setMaxIndex wb ud mi ctx r)
  | CallSaveBootstrap wb c n bs => final (of_arguments (saveBootstrap wb c n bs) r)
  | CallSaveSnapshot wb ud => final (saveSnapshot wb ud r)
  | CallSaveMaxIndex wb c n i ctx => final (of_arguments (saveMaxIndex wb c n i ctx) r)
  | CallSaveStateAllocs wb c n st => final (of_arguments (saveStateAllocs wb c n st) r)
  | CallSaveState c n st wb ctx => final (saveState c n st wb ctx r)
  | CallSaveBootstrapInfo c n bs => final (saveBootstrapInfo c n bs r)
  | CallGetBootstrapInfo c n => final (getBootstrapInfo c n r)
  | CallSaveSnapshots updates => final (saveSnapshots updates r)
  | CallGetSnapshot c n => final (getSnapshot c n r)
  | CallListSnapshots c n i => final (listSnapshots c n i r)
  | CallGetMaxIndex c n => final (getMaxIndex c n r)
  | CallGetState c n => final (getState c n r)
  | CallRemoveEntriesTo c n i => final (removeEntriesTo c n i r)
  | CallRemoveNodeData c n => final (removeNodeData c n r)
  | CallSaveRemoveNodeData wb snapshots c n =>
      final (of_arguments (saveRemoveNodeData wb snapshots c n) r)
  | CallCompact c n i => final (compact c n i r)
  | CallSaveEntries updates wb ctx => final (saveEntries updates wb ctx r)
  | CallIterateEntries ents size c n low high maxSize =>
      final (iterateEntries ents size c n low high maxSize r)
  end.

(** The store holds content in the batched entry format. *)
Definition holds_batched_content (kv : KV) : Prop :=
  ∃ c n i es, data kv !! EntryKey c n i = Some (VEntryBatch es).

(** What the store holds and what it was asked to commit. *)
Definition persisted (r : db) : gmap Key Value * list pebbleWriteBatch :=
  (data (kvs r), commits (kvs r)).

(** [avoids P m]: no run of [m] ends in a panic of the kind [P]. *)
Definition avoids {S A} (P : panic → Prop) (m : M S A) : Prop :=
  ∀ s p s', m s = Panicked p s' → ¬ P p.

Definition is_MaxIndexNotHandled (p : panic) : Prop :=
  ∃ a b, p = MaxIndexNotHandled a b.

(** The last entry of the update, when it has entries, is not below its
    snapshot. *)
Definition entries_reach_snapshot (ud : Update.t) : Prop :=
  ∀ e, last (Update.EntriesToSave ud) = Some e →
       Snapshot.Index (Update.Snapshot ud) ≤ Entry.Index e.

(** The update carries a non-empty snapshot of index [a] and entries the
    last of which, of index [b], lies below it. *)
Definition entries_below_snapshot (ud : Update.t) (a b : N) : Prop :=
  IsEmptySnapshot (Update.Snapshot ud) = false
  ∧ Snapshot.Index (Update.Snapshot ud) = a
  ∧ (∃ e, last (Update.EntriesToSave ud) = Some e ∧ Entry.Index e = b)
  ∧ b < a.

(** The store after one more read was made of it. *)
Definition after_read (kv : KV) : KV :=
  mkKV (data kv) (tail (faults kv)) (S (reads kv)) (commits kv).

(** Every snapshot record of the replica sits under the key of its own index,
    a [uint64]. *)
Definition snapshot_records_wf (m : gmap Key Value) (c n : N) : Prop :=
  ∀ i v, m !! SnapshotKey c n i = Some v →
         i ≤ MaxUint64 ∧ ∃ ss, v = VSnapshot ss ∧ Snapshot.Index ss = i.

Definition as_snapshot (kv : Key * Value) : option Snapshot.t :=
  match kv.2 with
  | VSnapshot ss => Some ss
  | _ => None
  end.

(** The key a staged mutation writes or deletes. *)
Definition op_key (op : wbOp) : Key :=
  match op with
  | WbPut k _ => k
  | WbDelete k => k
  end.

Definition is_snapshot_key_of (c n : N) (k : Key) : Prop :=
  ∃ i, k = SnapshotKey c n i.

(** The keys [saveRemoveNodeData] stages a delete for. *)
Definition removed_keys (snapshots : list Snapshot.t) (c n : N) : list Key :=
  StateKey c n :: BootstrapKey c n :: MaxIndexKey c n
  :: ((fun ss => SnapshotKey c n (Snapshot.Index ss)) <$> snapshots).

(** The components of the key are [uint64] values. *)
Definition key_in_uint64 (k : Key) : Prop :=
  let '(_, c, n, i) := key_fields k in
  c ≤ MaxUint64 ∧ n ≤ MaxUint64 ∧ i ≤ MaxUint64.

(** Every key of the store is made of [uint64] values. *)
Definition store_keys_wf (m : gmap Key Value) : Prop :=
  ∀ k v, m !! k = Some v → key_in_uint64 k.

Definition is_entry_key (k : Key) : Prop := ∃ c n i, k = EntryKey c n i.

Definition is_bootstrap_key (k : Key) : Prop := ∃ c n, k = BootstrapKey c n.

(** The replica a listed key stands for. *)
Definition node_of_key (k : Key) : NodeInfo.t :=
  let '(cid, nid) := parseNodeInfoKey k in NodeInfo.mk cid nid.

(** The update carries no snapshot the cache would accept: its snapshot is
    empty, or not above the last snapshot index of the replica. *)
Definition nothing_to_snapshot (c : Cache.t) (ud : Update.t) : Prop :=
  IsEmptySnapshot (Update.Snapshot ud) = true
  ∨ (Cache.trySaveSnapshot c (Update.ClusterID ud) (Update.NodeID ud)
       (Snapshot.Index (Update.Snapshot ud))).1 = false.

(** The update carries a state only: no entry and no snapshot. *)
Definition state_only (ud : Update.t) : Prop :=
  Update.EntriesToSave ud = [] ∧ IsEmptySnapshot (Update.Snapshot ud) = true.

(** ** Running the monad *)

Lemma run_bind {S A B} (m : M S A) (k : A → M S B) (s : S) :
  (m ≫= k) s = match m s with
               | Done a s' => k a s'
               | Panicked p s' => Panicked p s'
               end.
Proof. reflexivity. Qed.

Lemma run_ret {S A} (a : A) (s : S) : (mret a : M S A) s = Done a s.
Proof. reflexivity. Qed.

Section Preserves.
Context {S X : Type} (f : S → X).

Lemma preserves_ret {A} (a : A) : preserves f (mret a : M S A).
Proof. intros s. reflexivity. Qed.

Lemma preserves_raise {A} (p : panic) : preserves f (raise p : M S A).
Proof. intros s. reflexivity. Qed.

Lemma preserves_bind {A B} (m : M S A) (k : A → M S B) :
  preserves f m → (∀ a, preserves f (k a)) → preserves f (m ≫= k).
Proof.
  intros Hm Hk s. rewrite run_bind. specialize (Hm s).
  destruct (m s) as [a s'|p s']; simpl in *.
  - rewrite Hk. exact Hm.
  - exact Hm.
Qed.

Lemma preserves_state {A} (g : S → A * S) :
  (∀ s, f (g s).2 = f s) → preserves f (state g).
Proof.
  intros Hg s. unfold state. specialize (Hg s).
  destruct (g s) as [a s']. exact Hg.
Qed.
End Preserves.

Lemma preserves_onKV {A X} (f : db → X) (m : M KV A) :
  (∀ r, f (mkDb (cs r) (final (m (kvs r))) (entries r)) = f r) →
  preserves f (onKV m).
Proof.
  intros H r. specialize (H r). unfold onKV.
  destruct (m (kvs r)); exact H.
Qed.

Lemma preserves_onCache {A X} (f : db → X) (g : Cache.t → A * Cache.t) :
  (∀ r c, f (mkDb c (kvs r) (entries r)) = f r) → preserves f (onCache g).
Proof.
  intros H. apply preserves_state. intros r. simpl.
  destruct (g (cs r)) as [a c]. apply H.
Qed.

Lemma preserves_receiver {X} (f : db → X) : preserves f receiver.
Proof. apply preserves_state. reflexivity. Qed.

(** Splits a goal [preserves f m] along the shape of [m]. *)
Ltac preserves_step :=
  match goal with
  | |- preserves _ (mbind _ _) => apply preserves_bind; [|intros]
  | |- preserves _ (mret _) => apply preserves_ret
  | |- preserves _ (raise _) => apply preserves_raise
  | |- preserves _ receiver => apply preserves_receiver
  | |- preserves _ (onCache _) => apply preserves_onCache; intros; reflexivity
  | |- preserves _ (match ?x with _ => _ end) => destruct x
  | |- preserves _ (let '(_, _) := ?x in _) => destruct x
  end.

(** ** The engine calls, one by one *)

Lemma next_fault_at (kv : KV) : next_fault kv = fault_at kv 0.
Proof. unfold next_fault, fault_at. destruct (faults kv); reflexivity. Qed.

Lemma fault_at_tail (d : gmap Key Value) (kv : KV) (n : nat)
    (c : list pebbleWriteBatch) (i : nat) :
  fault_at (mkKV d (tail (faults kv)) n c) i = fault_at kv (S i).
Proof. unfold fault_at. simpl. destruct (faults kv); reflexivity. Qed.

Lemma GetValue_served {L} (key : Key) (op : option Value → M L (option error))
    (l : L) (kv : KV) :
  next_fault kv = None →
  GetValue key op l kv =
    let kv' := mkKV (data kv) (tail (faults kv)) (S (reads kv)) (commits kv) in
    match op (data kv !! key) l with
    | Done err l' => Done (l', err) kv'
    | Panicked p _ => Panicked p kv'
    end.
Proof. intros H. unfold GetValue. rewrite H. reflexivity. Qed.

Lemma GetValue_final {L} (key : Key) (op : option Value → M L (option error))
    (l : L) (kv : KV) :
  final (GetValue key op l kv) =
    mkKV (data kv) (tail (faults kv)) (S (reads kv)) (commits kv).
Proof.
  unfold GetValue. destruct (next_fault kv); [reflexivity|].
  destruct (op _ l); reflexivity.
Qed.

Lemma IterateValue_final {L} (fk lk : Key) (inc : bool)
    (op : Key → Value → M L (bool * option error)) (l : L) (kv : KV) :
  final (IterateValue fk lk inc op l kv) =
    mkKV (data kv) (tail (faults kv)) (S (reads kv)) (commits kv).
Proof.
  unfold IterateValue. destruct (next_fault kv); [reflexivity|].
  destruct (visit _ _ l); reflexivity.
Qed.

Lemma IterateValue_failed {L} (fk lk : Key) (inc : bool)
    (op : Key → Value → M L (bool * option error)) (l : L) (kv : KV) (code : N) :
  next_fault kv = Some code →
  IterateValue fk lk inc op l kv =
    Done (l, Some (StorageIO code))
      (mkKV (data kv) (tail (faults kv)) (S (reads kv)) (commits kv)).
Proof. intros H. unfold IterateValue. rewrite H. reflexivity. Qed.

(** ** State persistence *)

Lemma setState_again (c : Cache.t) (clusterID nodeID : N) (st : State.t) :
  Cache.setState (Cache.setState c clusterID nodeID st).2 clusterID nodeID st
  = (false, (Cache.setState c clusterID nodeID st).2).
Proof.
  unfold Cache.setState at 2 3.
  destruct (decide (Cache.lastState c !! (clusterID, nodeID) = Some st)) as [Heq|Hne];
    simpl; unfold Cache.setState.
  - rewrite decide_True by exact Heq. reflexivity.
  - simpl. rewrite decide_True by apply lookup_insert_eq. reflexivity.
Qed.

(** C5: for a non-empty state, [saveState] stages the state record exactly
    when the state differs from the one cached for the replica (or none is
    cached), it never touches the store, and a second call with the same
    state stages nothing, whatever batch and context it is given. *)
Theorem saveState_persists_once (r : db) (clusterID nodeID : N) (st : State.t)
    (wb : pebbleWriteBatch) (ctx : Context) :
  IsEmptyState st = false →
  ∃ r',
    saveState clusterID nodeID st wb (Some ctx) r
    = Done (if decide (Cache.lastState (cs r) !! (clusterID, nodeID) = Some st)
            then wb
            else Put wb (StateKey clusterID nodeID) (VState st)) r'
    ∧ kvs r' = kvs r
    ∧ Cache.lastState (cs r') !! (clusterID, nodeID) = Some st
    ∧ ∀ wb' ctx', saveState clusterID nodeID st wb' ctx' r' = Done wb' r'.
Proof.
  intros Hne. unfold saveState. rewrite Hne.
  exists (mkDb (Cache.setState (cs r) clusterID nodeID st).2 (kvs r) (entries r)).
  split; [|split; [reflexivity|split]].
  - rewrite run_bind. unfold onCache, state. simpl.
    unfold Cache.setState.
    destruct (decide (Cache.lastState (cs r) !! (clusterID, nodeID) = Some st));
      simpl; [|reflexivity].
    destruct r; reflexivity.
  - simpl. unfold Cache.setState.
    destruct (decide (Cache.lastState (cs r) !! (clusterID, nodeID) = Some st));
      simpl; [assumption|apply lookup_insert_eq].
  - intros wb' ctx'. rewrite run_bind. unfold onCache, state. simpl.
    rewrite setState_again. simpl. reflexivity.
Qed.

Lemma saveState_persists_once_witness :
  ∃ r',
    saveState 1 2 (State.mk 3 1 7) [] (Some (mkContext None))
      (mkDb Cache.empty (mkKV ∅ [] 0 []) newPlainEntries)
    = Done (if decide (Cache.lastState Cache.empty !! (1, 2) = Some (State.mk 3 1 7))
            then []
            else Put [] (StateKey 1 2) (VState (State.mk 3 1 7))) r'
    ∧ kvs r' = mkKV ∅ [] 0 []
    ∧ Cache.lastState (cs r') !! (1, 2) = Some (State.mk 3 1 7)
    ∧ ∀ wb' ctx', saveState 1 2 (State.mk 3 1 7) wb' ctx' r' = Done wb' r'.
Proof.
  apply (saveState_persists_once
           (mkDb Cache.empty (mkKV ∅ [] 0 []) newPlainEntries) 1 2 (State.mk 3 1 7)
           [] (mkContext None)).
  reflexivity.
Defined.

(** ** Max index lookup *)

(** C6 (as amended): on a cache miss with the max index present in the store,
    [getMaxIndex] reads the store once and returns the stored value, but it
    leaves the cache as it was; a following lookup for the same replica is
    therefore served by one more read of the store. *)
Theorem getMaxIndex_reads_store_each_time (r : db) (clusterID nodeID v : N) :
  Cache.getMaxIndex (cs r) clusterID nodeID = None →
  data (kvs r) !! MaxIndexKey clusterID nodeID = Some (VMaxIndex v) →
  fault_at (kvs r) 0 = None →
  ∃ r',
    getMaxIndex clusterID nodeID r = Done (v, None) r'
    ∧ cs r' = cs r
    ∧ data (kvs r') = data (kvs r)
    ∧ reads (kvs r') = S (reads (kvs r))
    ∧ (fault_at (kvs r) 1 = None →
       ∃ r'', getMaxIndex clusterID nodeID r' = Done (v, None) r''
              ∧ reads (kvs r'') = S (S (reads (kvs r)))).
Proof.
  intros Hmiss Hstored Hok.
  assert (Hstep : ∀ r0 : db,
             Cache.getMaxIndex (cs r0) clusterID nodeID = None →
             data (kvs r0) !! MaxIndexKey clusterID nodeID = Some (VMaxIndex v) →
             fault_at (kvs r0) 0 = None →
             getMaxIndex clusterID nodeID r0
             = Done (v, None)
                 (mkDb (cs r0)
                    (mkKV (data (kvs r0)) (tail (faults (kvs r0)))
                       (S (reads (kvs r0))) (commits (kvs r0)))
                    (entries r0))).
  { intros r0 H1 H2 H3. unfold getMaxIndex. rewrite run_bind.
    unfold receiver, state. simpl. rewrite H1. rewrite run_bind. unfold onKV.
    rewrite GetValue_served by (rewrite next_fault_at; exact H3).
    rewrite H2. reflexivity. }
  eexists. split; [apply Hstep; assumption|].
  simpl. repeat split.
  intros Hok'. eexists. split.
  - apply Hstep; simpl; [assumption|assumption|].
    rewrite fault_at_tail. exact Hok'.
  - reflexivity.
Qed.

Lemma getMaxIndex_reads_store_each_time_witness :
  ∃ r',
    getMaxIndex 1 1
      (mkDb Cache.empty (mkKV {[MaxIndexKey 1 1 := VMaxIndex 42]} [] 0 [])
         newPlainEntries) = Done (42, None) r'
    ∧ cs r' = Cache.empty
    ∧ data (kvs r') = {[MaxIndexKey 1 1 := VMaxIndex 42]}
    ∧ reads (kvs r') = 1%nat
    ∧ (fault_at (mkKV {[MaxIndexKey 1 1 := VMaxIndex 42]} [] 0 []) 1 = None →
       ∃ r'', getMaxIndex 1 1 r' = Done (42, None) r''
              ∧ reads (kvs r'') = 2%nat).
Proof.
  exact (getMaxIndex_reads_store_each_time
           (mkDb Cache.empty (mkKV {[MaxIndexKey 1 1 := VMaxIndex 42]} [] 0 [])
              newPlainEntries) 1 1 42 eq_refl eq_refl eq_refl).
Defined.

(** C6 (counterexample): with max index 42 stored for replica (1, 1) and an
    empty cache, [getMaxIndex] returns 42 and the cache still has no max index
    for the replica; the next lookup reads the store again. *)
Lemma getMaxIndex_no_write_back :
  let r := mkDb Cache.empty (mkKV {[MaxIndexKey 1 1 := VMaxIndex 42]} [] 0 [])
             newPlainEntries in
  let r1 := final (getMaxIndex 1 1 r) in
  returned (getMaxIndex 1 1 r) = Some (42, None)
  ∧ Cache.getMaxIndex (cs r1) 1 1 = None
  ∧ reads (kvs r1) = 1%nat
  ∧ returned (getMaxIndex 1 1 r1) = Some (42, None)
  ∧ reads (kvs (final (getMaxIndex 1 1 r1))) = 2%nat.
Proof. vm_compute. repeat split. Qed.

(** ** The entry manager of an open store *)

Ltac keeps_entries :=
  repeat first
    [ preserves_step
    | apply preserves_onKV; intros; reflexivity ].

Lemma listSnapshots_entries (c n i : N) : preserves entries (listSnapshots c n i).
Proof. unfold listSnapshots. keeps_entries. Qed.

Lemma saveSnapshot_entries (wb : pebbleWriteBatch) (ud : Update.t) :
  preserves entries (saveSnapshot wb ud).
Proof.
  unfold saveSnapshot. destruct (IsEmptySnapshot _); [apply preserves_ret|].
  apply preserves_bind; [apply listSnapshots_entries|]. intros. keeps_entries.
Qed.

Lemma setMaxIndex_entries (wb : pebbleWriteBatch) (ud : Update.t) (mi : N)
    (ctx : IContext) : preserves entries (setMaxIndex wb ud mi ctx).
Proof. unfold setMaxIndex. keeps_entries. Qed.

Lemma saveState_entries (c n : N) (st : State.t) (wb : pebbleWriteBatch)
    (ctx : IContext) : preserves entries (saveState c n st wb ctx).
Proof. unfold saveState. keeps_entries. Qed.

Lemma saveEntries_entries (updates : list Update.t) (wb : pebbleWriteBatch)
    (ctx : IContext) : preserves entries (saveEntries updates wb ctx).
Proof.
  revert wb. induction updates as [|ud updates IH]; intros wb; simpl.
  - apply preserves_ret.
  - destruct (0 <? length _)%nat; [|apply IH].
    apply preserves_bind; [apply preserves_receiver|]. intros r.
    destruct (record _ _ _ _ _ _ _) as [wb' mi].
    apply preserves_bind; [|intros; apply IH].
    destruct (0 <? mi); [apply setMaxIndex_entries|apply preserves_ret].
Qed.

Lemma saveRaftState_body_entries (ud : Update.t) (wb : pebbleWriteBatch)
    (ctx : IContext) : preserves entries (saveRaftState_body ud wb ctx).
Proof.
  unfold saveRaftState_body.
  apply preserves_bind; [apply saveState_entries|]. intros wb'.
  destruct (IsEmptySnapshot _); [apply preserves_ret|].
  apply preserves_bind; [keeps_entries|]. intros acc.
  destruct (negb acc); [apply preserves_ret|].
  apply preserves_bind; [keeps_entries|]. intros _.
  apply preserves_bind; [apply saveSnapshot_entries|]. intros [wb'' err].
  destruct err; [apply preserves_ret|].
  apply preserves_bind; [apply setMaxIndex_entries|]. intros. apply preserves_ret.
Qed.

Lemma saveRaftState_loop_entries (updates : list Update.t) (wb : pebbleWriteBatch)
    (ctx : IContext) : preserves entries (saveRaftState_loop updates wb ctx).
Proof.
  revert wb. induction updates as [|ud updates IH]; intros wb; simpl.
  - apply preserves_ret.
  - apply preserves_bind; [apply saveRaftState_body_entries|].
    intros [wb' [|]]; [apply preserves_ret|apply IH].
Qed.

Lemma saveRaftState_entries (updates : list Update.t) (ctx : IContext) :
  preserves entries (saveRaftState updates ctx).
Proof.
  unfold saveRaftState.
  apply preserves_bind; [apply saveRaftState_loop_entries|].
  intros [wb [|]]; [apply preserves_ret|].
  apply preserves_bind; [apply saveEntries_entries|]. intros. keeps_entries.
Qed.

Lemma saveSnapshots_loop_entries (updates : list Update.t) (wb : pebbleWriteBatch)
    (toSave : bool) : preserves entries (saveSnapshots_loop updates wb toSave).
Proof.
  revert wb toSave. induction updates as [|ud updates IH]; intros wb toSave; simpl.
  - apply preserves_ret.
  - destruct (IsEmptySnapshot _); [apply IH|].
    apply preserves_bind; [keeps_entries|]. intros acc.
    destruct (negb acc); [apply IH|].
    apply preserves_bind; [apply saveSnapshot_entries|]. intros [wb' err].
    destruct err; [apply preserves_ret|apply IH].
Qed.

Lemma saveSnapshots_entries (updates : list Update.t) :
  preserves entries (saveSnapshots updates).
Proof.
  unfold saveSnapshots.
  apply preserves_bind; [apply saveSnapshots_loop_entries|].
  intros [[wb toSave] [|]]; [apply preserves_ret|].
  destruct toSave; keeps_entries.
Qed.

Lemma getMaxIndex_entries (c n : N) : preserves entries (getMaxIndex c n).
Proof. unfold getMaxIndex. keeps_entries. Qed.

Lemma removeNodeData_entries (c n : N) : preserves entries (removeNodeData c n).
Proof.
  unfold removeNodeData.
  apply preserves_bind; [apply listSnapshots_entries|]. intros [ss err].
  destruct err; [apply preserves_ret|].
  unfold removeEntriesTo. keeps_entries.
Qed.

Lemma iterateEntries_entries (ents : list Entry.t) (size c n low high maxSize : N) :
  preserves entries (iterateEntries ents size c n low high maxSize).
Proof.
  unfold iterateEntries.
  apply preserves_bind; [apply getMaxIndex_entries|]. intros [mi err].
  destruct (decide _); [apply preserves_ret|]. keeps_entries.
Qed.

Lemma importSnapshot_entries (ss : Snapshot.t) (n : N) :
  preserves entries (importSnapshot ss n).
Proof.
  unfold importSnapshot. destruct (_ =? _); [apply preserves_raise|].
  apply preserves_bind; [apply listSnapshots_entries|]. intros [snaps err].
  destruct err; [apply preserves_ret|].
  apply preserves_bind; [apply saveSnapshot_entries|]. intros [wb err].
  destruct err; [apply preserves_ret|]. keeps_entries.
Qed.

Lemma getState_entries (c n : N) : preserves entries (getState c n).
Proof. unfold getState. keeps_entries. Qed.

Lemma getRange_entries (G : N → N → N → N → M KV (N * N * option error))
    (c n si : N) : preserves entries (getRange G c n si).
Proof.
  unfold getRange.
  apply preserves_bind; [apply getMaxIndex_entries|]. intros [mi err].
  destruct (decide _); [apply preserves_ret|]. keeps_entries.
Qed.

Lemma readRaftState_entries (G : N → N → N → N → M KV (N * N * option error))
    (c n si : N) : preserves entries (readRaftState G c n si).
Proof.
  unfold readRaftState.
  apply preserves_bind; [apply getRange_entries|]. intros [[fi len] err].
  destruct err; [apply preserves_ret|].
  apply preserves_bind; [apply getState_entries|]. intros [st err].
  destruct err; apply preserves_ret.
Qed.

Lemma exec_entries (c : call) (r : db) : entries (exec c r) = entries r.
Proof.
  destruct c; unfold exec.
  - assert (H : preserves entries (name kvsName)) by (unfold name; keeps_entries).
    apply H.
  - assert (H : preserves entries (binaryFormat entriesBinaryFormat))
      by (unfold binaryFormat; keeps_entries).
    apply H.
  - unfold close. apply (preserves_onKV entries). reflexivity.
  - reflexivity.
  - assert (H : preserves entries listNodeInfo) by (unfold listNodeInfo; keeps_entries).
    apply H.
  - apply readRaftState_entries.
  - apply getRange_entries.
  - apply saveRaftState_entries.
  - apply importSnapshot_entries.
  - apply setMaxIndex_entries.
  - reflexivity.
  - apply saveSnapshot_entries.
  - reflexivity.
  - reflexivity.
  - apply saveState_entries.
  - unfold saveBootstrapInfo.
    apply (preserves_onKV entries). reflexivity.
  - assert (H : preserves entries (getBootstrapInfo clusterID nodeID))
      by (unfold getBootstrapInfo; keeps_entries).
    apply H.
  - apply saveSnapshots_entries.
  - assert (H : preserves entries (getSnapshot clusterID nodeID)).
    { unfold getSnapshot. apply preserves_bind; [apply listSnapshots_entries|].
      intros. keeps_entries. }
    apply H.
  - apply listSnapshots_entries.
  - apply getMaxIndex_entries.
  - apply getState_entries.
  - assert (H : preserves entries (removeEntriesTo clusterID nodeID index))
      by (unfold removeEntriesTo; keeps_entries).
    apply H.
  - apply removeNodeData_entries.
  - reflexivity.
  - assert (H : preserves entries (compact clusterID nodeID index))
      by (unfold compact; keeps_entries).
    apply H.
  - apply saveEntries_entries.
  - apply iterateEntries_entries.
Qed.

Lemma lifetime_entries (calls : list call) (r : db) :
  entries (foldl (fun r c => exec c r) r calls) = entries r.
Proof.
  revert r. induction calls as [|c calls IH]; intros r; simpl; [reflexivity|].
  rewrite IH. apply exec_entries.
Qed.

(** C7 (as amended): [openRDB] installs the plain entry manager whatever the
    store it opens holds, fresh or populated: the instance works on the
    records found, none of which was read to open it.  After any sequence of
    calls of the methods of [db] on the instance the entry manager is still
    that one. *)
Theorem openRDB_always_plain (disk : KV) (r : db) :
  openRDB disk = (Some r, None) →
  entries r = newPlainEntries
  ∧ data (kvs r) = data disk
  ∧ reads (kvs r) = reads disk
  ∧ ∀ calls : list call,
      entries (foldl (fun r c => exec c r) r calls) = newPlainEntries.
Proof.
  intros Hopen. unfold openRDB, openPebbleDB in Hopen.
  assert (Hr : entries r = newPlainEntries ∧ kvs r = served disk).
  { destruct (next_fault disk); inversion Hopen. split; reflexivity. }
  destruct Hr as [Hr Hkv].
  split; [exact Hr|]. rewrite Hkv. split; [reflexivity|]. split; [reflexivity|].
  intros calls. rewrite lifetime_entries. exact Hr.
Qed.

Lemma openRDB_always_plain_witness :
  let batch := VEntryBatch [Entry.mk 1 5 []; Entry.mk 1 6 []] in
  let content : gmap Key Value :=
    <[EntryKey 1 1 5 := batch]> (<[StateKey 1 1 := VState (State.mk 1 1 4)]>
      (<[MaxIndexKey 1 1 := VMaxIndex 6]> ∅)) in
  let disk := mkKV content [None; Some 5] 2 [] in
  let r := mkDb Cache.empty (mkKV content [Some 5] 2 []) newPlainEntries in
  holds_batched_content disk
  ∧ entries r = newPlainEntries
  ∧ data (kvs r) = content
  ∧ reads (kvs r) = 2%nat
  ∧ ∀ calls : list call,
      entries (foldl (fun r c => exec c r) r calls) = newPlainEntries.
Proof.
  split.
  - exists 1, 1, 5, [Entry.mk 1 5 []; Entry.mk 1 6 []]. apply lookup_insert_eq.
  - exact (openRDB_always_plain
             (mkKV (<[EntryKey 1 1 5 := VEntryBatch [Entry.mk 1 5 []; Entry.mk 1 6 []]]>
                      (<[StateKey 1 1 := VState (State.mk 1 1 4)]>
                         (<[MaxIndexKey 1 1 := VMaxIndex 6]> ∅)))
                [None; Some 5] 2 [])
             (mkDb Cache.empty
                (mkKV (<[EntryKey 1 1 5 := VEntryBatch [Entry.mk 1 5 []; Entry.mk 1 6 []]]>
                         (<[StateKey 1 1 := VState (State.mk 1 1 4)]>
                            (<[MaxIndexKey 1 1 := VMaxIndex 6]> ∅)))
                   [Some 5] 2 [])
                newPlainEntries) eq_refl).
Defined.

(** C7 (counterexample): a store that holds a record in the batched entry
    format, which [hasEntryRecord] does locate, is opened with the plain
    entry manager all the same. *)
Lemma openRDB_plain_on_batched_content :
  let disk := mkKV {[EntryKey 1 1 5 := VEntryBatch [Entry.mk 1 5 []; Entry.mk 1 6 []]]}
                [] 0 [] in
  holds_batched_content disk
  ∧ returned (hasEntryRecord disk) = Some (true, None)
  ∧ ∃ r, openRDB disk = (Some r, None) ∧ entries r = newPlainEntries.
Proof.
  split; [|split].
  - exists 1, 1, 5, [Entry.mk 1 5 []; Entry.mk 1 6 []]. reflexivity.
  - vm_compute. reflexivity.
  - eexists. split; reflexivity.
Qed.

(** ** The update protocol: what reaches the store *)

Ltac keeps_persisted :=
  repeat first
    [ preserves_step
    | apply preserves_onKV; intros;
      first [ rewrite IterateValue_final | rewrite GetValue_final ]; reflexivity ].

Lemma listSnapshots_persisted (c n i : N) : preserves persisted (listSnapshots c n i).
Proof. unfold listSnapshots. keeps_persisted. Qed.

Lemma saveSnapshot_persisted (wb : pebbleWriteBatch) (ud : Update.t) :
  preserves persisted (saveSnapshot wb ud).
Proof.
  unfold saveSnapshot. destruct (IsEmptySnapshot _); [apply preserves_ret|].
  apply preserves_bind; [apply listSnapshots_persisted|]. intros. keeps_persisted.
Qed.

Lemma setMaxIndex_persisted (wb : pebbleWriteBatch) (ud : Update.t) (mi : N)
    (ctx : IContext) : preserves persisted (setMaxIndex wb ud mi ctx).
Proof. unfold setMaxIndex. keeps_persisted. Qed.

Lemma saveState_persisted (c n : N) (st : State.t) (wb : pebbleWriteBatch)
    (ctx : IContext) : preserves persisted (saveState c n st wb ctx).
Proof. unfold saveState. keeps_persisted. Qed.

Lemma saveEntries_persisted (updates : list Update.t) (wb : pebbleWriteBatch)
    (ctx : IContext) : preserves persisted (saveEntries updates wb ctx).
Proof.
  revert wb. induction updates as [|ud updates IH]; intros wb; simpl.
  - apply preserves_ret.
  - destruct (0 <? length _)%nat; [|apply IH].
    apply preserves_bind; [apply preserves_receiver|]. intros r.
    destruct (record _ _ _ _ _ _ _) as [wb' mi].
    apply preserves_bind; [|intros; apply IH].
    destruct (0 <? mi); [apply setMaxIndex_persisted|apply preserves_ret].
Qed.

Lemma saveRaftState_body_persisted (ud : Update.t) (wb : pebbleWriteBatch)
    (ctx : IContext) : preserves persisted (saveRaftState_body ud wb ctx).
Proof.
  unfold saveRaftState_body.
  apply preserves_bind; [apply saveState_persisted|]. intros wb'.
  destruct (IsEmptySnapshot _); [apply preserves_ret|].
  apply preserves_bind; [keeps_persisted|]. intros acc.
  destruct (negb acc); [apply preserves_ret|].
  apply preserves_bind; [keeps_persisted|]. intros _.
  apply preserves_bind; [apply saveSnapshot_persisted|]. intros [wb'' err].
  destruct err; [apply preserves_ret|].
  apply preserves_bind; [apply setMaxIndex_persisted|]. intros. apply preserves_ret.
Qed.

Lemma saveRaftState_loop_persisted (updates : list Update.t) (wb : pebbleWriteBatch)
    (ctx : IContext) : preserves persisted (saveRaftState_loop updates wb ctx).
Proof.
  revert wb. induction updates as [|ud updates IH]; intros wb; simpl.
  - apply preserves_ret.
  - apply preserves_bind; [apply saveRaftState_body_persisted|].
    intros [wb' [|]]; [apply preserves_ret|apply IH].
Qed.

Lemma persisted_inv (r r' : db) :
  persisted r' = persisted r →
  data (kvs r') = data (kvs r) ∧ commits (kvs r') = commits (kvs r).
Proof. unfold persisted. intros H. inversion H. split; reflexivity. Qed.

(** C1: [saveRaftState] touches the store through one commit at most, made
    at the end and only for a batch that is not empty.  A call that panics,
    or that returns with an empty batch, has committed nothing and left the
    store as it was (the latter returns nil); a call that commits either
    applies the whole batch or, when the engine refuses the commit, nothing
    of it. *)
Theorem saveRaftState_commits_whole_batch_or_nothing (updates : list Update.t)
    (ctx : IContext) (r : db) :
  match saveRaftState updates ctx r with
  | Panicked _ r' =>
      data (kvs r') = data (kvs r) ∧ commits (kvs r') = commits (kvs r)
  | Done (err, wb) r' =>
      (err = None
       ∧ data (kvs r') = data (kvs r)
       ∧ commits (kvs r') = commits (kvs r))
      ∨ ((0 < Count wb)%nat
         ∧ commits (kvs r') = wb :: commits (kvs r)
         ∧ ((err = None ∧ data (kvs r') = apply_batch wb (data (kvs r)))
            ∨ ((∃ code, err = Some (StorageIO code))
               ∧ data (kvs r') = data (kvs r))))
  end
  ∧ ∀ err wb r',
      saveRaftState updates ctx r = Done (err, wb) r' →
      Count wb = 0%nat →
      err = None ∧ data (kvs r') = data (kvs r) ∧ commits (kvs r') = commits (kvs r).
Proof.
  assert (Hmain :
    match saveRaftState updates ctx r with
    | Panicked _ r' =>
        data (kvs r') = data (kvs r) ∧ commits (kvs r') = commits (kvs r)
    | Done (err, wb) r' =>
        (err = None
         ∧ data (kvs r') = data (kvs r)
         ∧ commits (kvs r') = commits (kvs r))
        ∨ ((0 < Count wb)%nat
           ∧ commits (kvs r') = wb :: commits (kvs r)
           ∧ ((err = None ∧ data (kvs r') = apply_batch wb (data (kvs r)))
              ∨ ((∃ code, err = Some (StorageIO code))
                 ∧ data (kvs r') = data (kvs r))))
    end).
  { unfold saveRaftState. rewrite run_bind.
    pose proof (saveRaftState_loop_persisted updates (getWriteBatch ctx) ctx r) as Hl.
    destruct (saveRaftState_loop updates (getWriteBatch ctx) ctx r)
      as [[wb ret] r1|p r1]; simpl in Hl; apply persisted_inv in Hl;
      [|exact Hl].
    destruct Hl as [Hd Hc].
    destruct ret; [left; simpl; auto|].
    rewrite run_bind.
    pose proof (saveEntries_persisted updates wb ctx r1) as He.
    destruct (saveEntries updates wb ctx r1) as [wb2 r2|p r2]; simpl in He;
      apply persisted_inv in He; destruct He as [Hd2 Hc2];
      [|split; congruence].
    destruct (0 <? Count wb2)%nat eqn:Hcount.
    - apply Nat.ltb_lt in Hcount.
      rewrite run_bind. unfold onKV, CommitWriteBatch.
      destruct (next_fault (kvs r2)) as [code|]; simpl; right.
      + split; [exact Hcount|]. split; [congruence|].
        right. split; [eexists; reflexivity|congruence].
      + split; [exact Hcount|]. split; [congruence|].
        left. split; [reflexivity|congruence].
    - left. simpl. split; [reflexivity|]. split; congruence. }
  split; [exact Hmain|].
  intros err wb r' Hrun Hzero. rewrite Hrun in Hmain.
  destruct Hmain as [H|[Hpos _]]; [exact H|]. rewrite Hzero in Hpos. lia.
Qed.

Lemma saveRaftState_commits_whole_batch_or_nothing_witness :
  let r := mkDb Cache.empty (mkKV ∅ [] 0 []) newPlainEntries in
  let ud := Update.mk 1 1 (State.mk 2 1 3) [Entry.mk 2 4 []] Snapshot.empty in
  let ctx := Some (mkContext None) in
  match saveRaftState [ud] ctx r with
  | Panicked _ r' =>
      data (kvs r') = data (kvs r) ∧ commits (kvs r') = commits (kvs r)
  | Done (err, wb) r' =>
      (err = None
       ∧ data (kvs r') = data (kvs r)
       ∧ commits (kvs r') = commits (kvs r))
      ∨ ((0 < Count wb)%nat
         ∧ commits (kvs r') = wb :: commits (kvs r)
         ∧ ((err = None ∧ data (kvs r') = apply_batch wb (data (kvs r)))
            ∨ ((∃ code, err = Some (StorageIO code))
               ∧ data (kvs r') = data (kvs r))))
  end
  ∧ ∀ err wb r',
      saveRaftState [ud] ctx r = Done (err, wb) r' →
      Count wb = 0%nat →
      err = None ∧ data (kvs r') = data (kvs r) ∧ commits (kvs r') = commits (kvs r).
Proof.
  exact (saveRaftState_commits_whole_batch_or_nothing
           [Update.mk 1 1 (State.mk 2 1 3) [Entry.mk 2 4 []] Snapshot.empty]
           (Some (mkContext None))
           (mkDb Cache.empty (mkKV ∅ [] 0 []) newPlainEntries)).
Defined.

(** A run that stages a state, an entry and the max index commits them in
    one batch. *)
Example saveRaftState_commits_once :
  let r := mkDb Cache.empty (mkKV ∅ [] 0 []) newPlainEntries in
  let ud := Update.mk 1 1 (State.mk 2 1 3) [Entry.mk 2 4 []] Snapshot.empty in
  let wb := [WbPut (StateKey 1 1) (VState (State.mk 2 1 3));
             WbPut (EntryKey 1 1 4) (VEntry (Entry.mk 2 4 []));
             WbPut (MaxIndexKey 1 1) (VMaxIndex 4)] in
  returned (saveRaftState [ud] (Some (mkContext None)) r) = Some (None, wb)
  ∧ commits (kvs (final (saveRaftState [ud] (Some (mkContext None)) r))) = [wb]
  ∧ returned (saveRaftState [] (Some (mkContext None)) r) = Some (None, [])
  ∧ commits (kvs (final (saveRaftState [] (Some (mkContext None)) r))) = [].
Proof. vm_compute. repeat split. Qed.

(** ** The snapshot step of the update protocol *)

(** C2 (the code at the failing input): the range scan of [listSnapshots]
    fails with an I/O error, [saveSnapshot] reports it, and both
    [saveRaftState] and [saveSnapshots] return nil; nothing is committed,
    while the cache already counts snapshot 3 as saved. *)
Lemma snapshot_error_is_swallowed :
  let r := mkDb Cache.empty (mkKV ∅ [Some 5] 0 []) newPlainEntries in
  let ud := Update.mk 1 1 (State.mk 2 1 3) [] (Snapshot.mk 3 2 1 1) in
  let ctx := Some (mkContext None) in
  returned (saveSnapshot [] ud r) = Some ([], Some (StorageIO 5))
  ∧ returned (saveRaftState [ud] ctx r)
    = Some (None, [WbPut (StateKey 1 1) (VState (State.mk 2 1 3))])
  ∧ commits (kvs (final (saveRaftState [ud] ctx r))) = []
  ∧ data (kvs (final (saveRaftState [ud] ctx r))) = ∅
  ∧ Cache.lastSnapshotIndex (cs (final (saveRaftState [ud] ctx r))) !! (1, 1) = Some 3
  ∧ returned (saveSnapshots [ud] r) = Some None
  ∧ commits (kvs (final (saveSnapshots [ud] r))) = [].
Proof. vm_compute. repeat split. Qed.

(** [importSnapshot], the third caller of [saveSnapshot], hands the same
    error back: here the listing of its own is served and the one inside
    [saveSnapshot] fails. *)
Example importSnapshot_returns_snapshot_error :
  let r := mkDb Cache.empty (mkKV ∅ [None; Some 5] 0 []) newPlainEntries in
  returned (importSnapshot (Snapshot.mk 3 2 1 1) 1 r) = Some (Some (StorageIO 5))
  ∧ commits (kvs (final (importSnapshot (Snapshot.mk 3 2 1 1) 1 r))) = [].
Proof. vm_compute. split; reflexivity. Qed.

Section Avoids.
Context {S : Type} (P : panic → Prop).

Lemma avoids_ret {A} (a : A) : avoids P (mret a : M S A).
Proof. intros s p s' H. discriminate H. Qed.

Lemma avoids_raise {A} (p : panic) : ¬ P p → avoids P (raise p : M S A).
Proof. intros Hp s p' s' H. inversion H. subst. exact Hp. Qed.

Lemma avoids_state {A} (g : S → A * S) : avoids P (state g).
Proof. intros s p s' H. unfold state in H. destruct (g s). discriminate H. Qed.

Lemma avoids_bind {A B} (m : M S A) (k : A → M S B) :
  avoids P m → (∀ a, avoids P (k a)) → avoids P (m ≫= k).
Proof.
  intros Hm Hk s p s' H. rewrite run_bind in H.
  destruct (m s) as [a s1|p1 s1] eqn:Hms.
  - exact (Hk a s1 p s' H).
  - inversion H. subst. exact (Hm s p s' Hms).
Qed.
End Avoids.

Lemma avoids_visit {L} (P : panic → Prop)
    (op : Key → Value → M L (bool * option error)) (items : list (Key * Value)) :
  (∀ k v, avoids P (op k v)) → avoids P (visit op items).
Proof.
  intros Hop. induction items as [|[k v] items IH]; simpl.
  - apply avoids_ret.
  - apply avoids_bind; [apply Hop|]. intros [cont [e|]]; [apply avoids_ret|].
    destruct cont; [exact IH|apply avoids_ret].
Qed.

Lemma avoids_IterateValue {L} (P : panic → Prop) (fk lk : Key) (inc : bool)
    (op : Key → Value → M L (bool * option error)) (l : L) :
  (∀ k v, avoids P (op k v)) → avoids P (IterateValue fk lk inc op l).
Proof.
  intros Hop kv p kv' H. unfold IterateValue in H.
  destruct (next_fault kv); [discriminate H|].
  destruct (visit op _ l) as [err l'|p1 l'] eqn:Hv; inversion H. subst.
  exact (avoids_visit P op _ Hop l p l' Hv).
Qed.

Lemma avoids_onKV {A} (P : panic → Prop) (m : M KV A) :
  avoids P m → avoids P (onKV m).
Proof.
  intros Hm r p r' H. unfold onKV in H.
  destruct (m (kvs r)) as [a kv|p1 kv] eqn:Hmk; inversion H. subst.
  exact (Hm _ _ _ Hmk).
Qed.

Lemma avoids_CommitWriteBatch (P : panic → Prop) (wb : pebbleWriteBatch) :
  avoids P (CommitWriteBatch wb).
Proof.
  intros kv p kv' H. unfold CommitWriteBatch in H.
  destruct (next_fault kv); discriminate H.
Qed.

Lemma not_MaxIndexNotHandled_Unmarshal : ¬ is_MaxIndexNotHandled UnmarshalFailed.
Proof. intros (a & b & H). discriminate H. Qed.

Lemma not_MaxIndexNotHandled_NilContext : ¬ is_MaxIndexNotHandled NilContext.
Proof. intros (a & b & H). discriminate H. Qed.

Lemma listSnapshots_avoids (c n i : N) :
  avoids is_MaxIndexNotHandled (listSnapshots c n i).
Proof.
  unfold listSnapshots. apply avoids_bind.
  - apply avoids_onKV, avoids_IterateValue. intros k v.
    apply avoids_bind; [|intros; apply avoids_state].
    destruct v; simpl;
      first [apply avoids_ret
            |apply avoids_raise, not_MaxIndexNotHandled_Unmarshal].
  - intros [ss [e|]]; apply avoids_ret.
Qed.

Lemma saveSnapshot_avoids (wb : pebbleWriteBatch) (ud : Update.t) :
  avoids is_MaxIndexNotHandled (saveSnapshot wb ud).
Proof.
  unfold saveSnapshot. destruct (IsEmptySnapshot _); [apply avoids_ret|].
  apply avoids_bind; [apply listSnapshots_avoids|].
  intros [ss [e|]]; apply avoids_ret.
Qed.

Lemma setMaxIndex_avoids (P : panic → Prop) (wb : pebbleWriteBatch) (ud : Update.t)
    (mi : N) (ctx : IContext) : avoids P (setMaxIndex wb ud mi ctx).
Proof.
  unfold setMaxIndex. apply avoids_bind; [apply avoids_state|].
  intros. apply avoids_ret.
Qed.

Lemma saveState_avoids (c n : N) (st : State.t) (wb : pebbleWriteBatch)
    (ctx : IContext) : avoids is_MaxIndexNotHandled (saveState c n st wb ctx).
Proof.
  unfold saveState. destruct (IsEmptyState st); [apply avoids_ret|].
  apply avoids_bind; [apply avoids_state|]. intros changed.
  destruct (negb changed); [apply avoids_ret|].
  destruct ctx; [apply avoids_ret|].
  apply avoids_raise, not_MaxIndexNotHandled_NilContext.
Qed.

Lemma saveEntries_avoids (P : panic → Prop) (updates : list Update.t)
    (wb : pebbleWriteBatch) (ctx : IContext) : avoids P (saveEntries updates wb ctx).
Proof.
  revert wb. induction updates as [|ud updates IH]; intros wb; simpl.
  - apply avoids_ret.
  - destruct (0 <? length _)%nat; [|apply IH].
    apply avoids_bind; [apply avoids_state|]. intros r.
    destruct (record _ _ _ _ _ _ _) as [wb' mi].
    apply avoids_bind; [|intros; apply IH].
    destruct (0 <? mi); [apply setMaxIndex_avoids|apply avoids_ret].
Qed.

Lemma saveRaftState_body_avoids (ud : Update.t) (wb : pebbleWriteBatch)
    (ctx : IContext) :
  entries_reach_snapshot ud →
  avoids is_MaxIndexNotHandled (saveRaftState_body ud wb ctx).
Proof.
  intros Hreach. unfold saveRaftState_body.
  apply avoids_bind; [apply saveState_avoids|]. intros wb'.
  destruct (IsEmptySnapshot _); [apply avoids_ret|].
  apply avoids_bind; [apply avoids_state|]. intros acc.
  destruct (negb acc); [apply avoids_ret|].
  apply avoids_bind.
  - destruct (last (Update.EntriesToSave ud)) as [e|] eqn:Hlast; [|apply avoids_ret].
    specialize (Hreach e Hlast).
    destruct (Entry.Index e <? _) eqn:Hlt; [|apply avoids_ret].
    apply N.ltb_lt in Hlt. exfalso. lia.
  - intros _. apply avoids_bind; [apply saveSnapshot_avoids|].
    intros [wb'' [e|]]; [apply avoids_ret|].
    apply avoids_bind; [apply setMaxIndex_avoids|]. intros. apply avoids_ret.
Qed.

Lemma saveRaftState_avoids (updates : list Update.t) (ctx : IContext) :
  Forall entries_reach_snapshot updates →
  avoids is_MaxIndexNotHandled (saveRaftState updates ctx).
Proof.
  intros Hall. unfold saveRaftState. apply avoids_bind.
  - generalize (getWriteBatch ctx) as wb.
    induction Hall as [|ud updates Hud Hall IH]; intros wb; simpl.
    + apply avoids_ret.
    + apply avoids_bind; [apply saveRaftState_body_avoids, Hud|].
      intros [wb' [|]]; [apply avoids_ret|apply IH].
  - intros [wb [|]]; [apply avoids_ret|].
    apply avoids_bind; [apply saveEntries_avoids|]. intros wb'.
    destruct (0 <? Count wb')%nat; [|apply avoids_ret].
    apply avoids_bind; [apply avoids_onKV, avoids_CommitWriteBatch|].
    intros. apply avoids_ret.
Qed.

Lemma saveState_outcome (c n : N) (st : State.t) (wb : pebbleWriteBatch)
    (ctx : IContext) (r : db) :
  (∃ wb' r', saveState c n st wb ctx r = Done wb' r'
             ∧ kvs r' = kvs r
             ∧ Cache.lastSnapshotIndex (cs r') = Cache.lastSnapshotIndex (cs r))
  ∨ (ctx = None
     ∧ ∃ r', saveState c n st wb ctx r = Panicked NilContext r' ∧ kvs r' = kvs r).
Proof.
  unfold saveState. destruct (IsEmptyState st).
  { left. exists wb, r. repeat split. }
  rewrite run_bind. unfold onCache, state. simpl.
  unfold Cache.setState.
  destruct (decide (Cache.lastState (cs r) !! (c, n) = Some st)); simpl.
  { left. eexists _, _. repeat split. }
  destruct ctx as [ctx|].
  - left. eexists _, _. repeat split.
  - right. split; [reflexivity|]. eexists. split; reflexivity.
Qed.

Lemma saveRaftState_loop_app (before updates : list Update.t)
    (wb : pebbleWriteBatch) (ctx : IContext) (r : db) :
  saveRaftState_loop (before ++ updates) wb ctx r
  = match saveRaftState_loop before wb ctx r with
    | Done (wb1, false) r1 => saveRaftState_loop updates wb1 ctx r1
    | Done (wb1, true) r1 => Done (wb1, true) r1
    | Panicked p r1 => Panicked p r1
    end.
Proof.
  revert wb r. induction before as [|ud before IH]; intros wb r; simpl.
  - reflexivity.
  - rewrite !run_bind.
    destruct (saveRaftState_body ud wb ctx r) as [[wb' [|]] r'|p r']; [reflexivity| |reflexivity].
    apply IH.
Qed.

(** The turn of an update whose accepted snapshot lies above its last
    entry. *)
Lemma saveRaftState_body_fatal (ud : Update.t) (wb : pebbleWriteBatch)
    (ctx : IContext) (r : db) (e : Entry.t) :
  IsEmptySnapshot (Update.Snapshot ud) = false →
  (Cache.trySaveSnapshot (cs r) (Update.ClusterID ud) (Update.NodeID ud)
     (Snapshot.Index (Update.Snapshot ud))).1 = true →
  last (Update.EntriesToSave ud) = Some e →
  Entry.Index e < Snapshot.Index (Update.Snapshot ud) →
  ∃ p r',
    saveRaftState_body ud wb ctx r = Panicked p r'
    ∧ (p = MaxIndexNotHandled (Snapshot.Index (Update.Snapshot ud)) (Entry.Index e)
       ∨ (ctx = None ∧ p = NilContext))
    ∧ kvs r' = kvs r.
Proof.
  intros Hne Hacc Hlast Hbelow.
  unfold saveRaftState_body. rewrite run_bind.
  destruct (saveState_outcome (Update.ClusterID ud) (Update.NodeID ud)
              (Update.State ud) wb ctx r)
    as [(wb' & r1 & Hrun & Hkv & Hsnap)|(Hnil & r1 & Hrun & Hkv)];
    rewrite Hrun.
  - rewrite Hne. rewrite run_bind. unfold onCache, state. simpl.
    unfold Cache.trySaveSnapshot in *. rewrite Hsnap.
    destruct (default 0 _ <? _); [|discriminate Hacc]. simpl.
    rewrite run_bind. rewrite Hlast.
    apply N.ltb_lt in Hbelow. rewrite Hbelow. simpl.
    eexists _, _. split; [reflexivity|]. split; [left; reflexivity|].
    simpl. exact Hkv.
  - eexists _, _. split; [reflexivity|].
    split; [right; split; [exact Hnil|reflexivity]|exact Hkv].
Qed.

(** The turn of an update raises the "max index not handled" panic only for
    a snapshot above the last entry of that update. *)
Lemma saveRaftState_body_blame (ud : Update.t) (wb : pebbleWriteBatch)
    (ctx : IContext) (r r' : db) (a b : N) :
  saveRaftState_body ud wb ctx r = Panicked (MaxIndexNotHandled a b) r' →
  entries_below_snapshot ud a b.
Proof.
  unfold saveRaftState_body. rewrite run_bind.
  destruct (saveState_outcome (Update.ClusterID ud) (Update.NodeID ud)
              (Update.State ud) wb ctx r)
    as [(wb' & r1 & Hrun & _)|(_ & r1 & Hrun & _)];
    rewrite Hrun; [|intros H; discriminate H].
  destruct (IsEmptySnapshot (Update.Snapshot ud)) eqn:Hne; [intros H; discriminate H|].
  rewrite run_bind. unfold onCache at 1, state at 1.
  destruct (Cache.trySaveSnapshot _ _ _ _) as [[|] c']; cbn [negb];
    [|intros H; discriminate H].
  rewrite run_bind.
  destruct (last (Update.EntriesToSave ud)) as [e|] eqn:Hlast.
  - destruct (Entry.Index e <? Snapshot.Index (Update.Snapshot ud)) eqn:Hlt.
    + intros H. inversion H. subst.
      split; [exact Hne|]. split; [reflexivity|].
      split; [exists e; split; [exact Hlast|reflexivity]|].
      apply N.ltb_lt. exact Hlt.
    + rewrite run_ret. intros H. exfalso.
      assert (Hav : avoids is_MaxIndexNotHandled
                (saveSnapshot wb' ud ≫= fun '(wb, err) =>
                   match err with
                   | Some _ => mret (wb, true)
                   | None =>
                       wb ← setMaxIndex wb ud (Snapshot.Index (Update.Snapshot ud)) ctx;
                       mret (wb, false)
                   end)).
      { apply avoids_bind; [apply saveSnapshot_avoids|].
        intros [wb'' [err|]]; [apply avoids_ret|].
        apply avoids_bind; [apply setMaxIndex_avoids|]. intros. apply avoids_ret. }
      apply (Hav _ _ _ H). eexists _, _. reflexivity.
  - rewrite run_ret. intros H. exfalso.
    assert (Hav : avoids is_MaxIndexNotHandled
              (saveSnapshot wb' ud ≫= fun '(wb, err) =>
                 match err with
                 | Some _ => mret (wb, true)
                 | None =>
                     wb ← setMaxIndex wb ud (Snapshot.Index (Update.Snapshot ud)) ctx;
                     mret (wb, false)
                 end)).
    { apply avoids_bind; [apply saveSnapshot_avoids|].
      intros [wb'' [err|]]; [apply avoids_ret|].
      apply avoids_bind; [apply setMaxIndex_avoids|]. intros. apply avoids_ret. }
    apply (Hav _ _ _ H). eexists _, _. reflexivity.
Qed.

Lemma saveRaftState_loop_blame (updates : list Update.t) (wb : pebbleWriteBatch)
    (ctx : IContext) (r r' : db) (a b : N) :
  saveRaftState_loop updates wb ctx r = Panicked (MaxIndexNotHandled a b) r' →
  ∃ ud, ud ∈ updates ∧ entries_below_snapshot ud a b.
Proof.
  revert wb r. induction updates as [|ud updates IH]; intros wb r; simpl.
  - intros H. discriminate H.
  - rewrite run_bind.
    destruct (saveRaftState_body ud wb ctx r) as [[wb' [|]] r1|p r1] eqn:Hbody.
    + intros H. discriminate H.
    + intros H. destruct (IH _ _ H) as (ud' & Hin & Hud').
      exists ud'. split; [right; exact Hin|exact Hud'].
    + intros H. inversion H. subst.
      exists ud. split; [left|].
      exact (saveRaftState_body_blame ud wb ctx r r' a b Hbody).
Qed.

Lemma saveRaftState_blame (updates : list Update.t) (ctx : IContext) (r r' : db)
    (a b : N) :
  saveRaftState updates ctx r = Panicked (MaxIndexNotHandled a b) r' →
  ∃ ud, ud ∈ updates ∧ entries_below_snapshot ud a b.
Proof.
  unfold saveRaftState. rewrite run_bind.
  destruct (saveRaftState_loop updates (getWriteBatch ctx) ctx r)
    as [[wb [|]] r1|p r1] eqn:Hloop.
  - intros H. discriminate H.
  - intros H. exfalso.
    assert (Hav : avoids is_MaxIndexNotHandled
              (wb ← saveEntries updates wb ctx;
               if (0 <? Count wb)%nat
               then err ← onKV (CommitWriteBatch wb); mret (err, wb)
               else mret (None, wb))).
    { apply avoids_bind; [apply saveEntries_avoids|]. intros wb'.
      destruct (0 <? Count wb')%nat; [|apply avoids_ret].
      apply avoids_bind; [apply avoids_onKV, avoids_CommitWriteBatch|].
      intros. apply avoids_ret. }
    apply (Hav _ _ _ H). eexists _, _. reflexivity.
  - intros H. inversion H. subst.
    exact (saveRaftState_loop_blame _ _ _ _ _ _ _ Hloop).
Qed.

(** C3: whatever the position of an update in the list, when the loop of
    [saveRaftState] reaches it, the cache accepts its non-empty snapshot and
    its last entry lies below the snapshot index, the call panics at that
    update, with the store untouched and nothing committed; the panic is the
    "max index not handled" one (with a nil context the nil dereference of
    [saveState] can come first).  Conversely a call raises that panic only
    for an update of the list whose last entry lies below its snapshot index:
    an update whose last entry is at or above it never does, and when every
    update is such, no call panics that way. *)
Theorem snapshot_above_entries_is_fatal (before : list Update.t) (ud : Update.t)
    (rest : list Update.t) (ctx : IContext) (r : db) :
  (∀ wb1 r1 e,
     saveRaftState_loop before (getWriteBatch ctx) ctx r = Done (wb1, false) r1 →
     IsEmptySnapshot (Update.Snapshot ud) = false →
     (Cache.trySaveSnapshot (cs r1) (Update.ClusterID ud) (Update.NodeID ud)
        (Snapshot.Index (Update.Snapshot ud))).1 = true →
     last (Update.EntriesToSave ud) = Some e →
     Entry.Index e < Snapshot.Index (Update.Snapshot ud) →
     ∃ p r',
       saveRaftState (before ++ ud :: rest) ctx r = Panicked p r'
       ∧ (p = MaxIndexNotHandled (Snapshot.Index (Update.Snapshot ud)) (Entry.Index e)
          ∨ (ctx = None ∧ p = NilContext))
       ∧ data (kvs r') = data (kvs r)
       ∧ commits (kvs r') = commits (kvs r))
  ∧ (∀ a b r',
       saveRaftState (before ++ ud :: rest) ctx r = Panicked (MaxIndexNotHandled a b) r' →
       ∃ ud', ud' ∈ before ++ ud :: rest ∧ entries_below_snapshot ud' a b)
  ∧ (Forall entries_reach_snapshot (before ++ ud :: rest) →
     ∀ p r', saveRaftState (before ++ ud :: rest) ctx r = Panicked p r' →
             ¬ is_MaxIndexNotHandled p).
Proof.
  split; [|split].
  - intros wb1 r1 e Hreach Hne Hacc Hlast Hbelow.
    pose proof (saveRaftState_loop_persisted before (getWriteBatch ctx) ctx r) as Hkeep.
    rewrite Hreach in Hkeep. simpl in Hkeep. apply persisted_inv in Hkeep.
    destruct Hkeep as [Hd Hc].
    destruct (saveRaftState_body_fatal ud wb1 ctx r1 e Hne Hacc Hlast Hbelow)
      as (p & r' & Hrun & Hp & Hkv).
    exists p, r'. split.
    + unfold saveRaftState. rewrite run_bind, saveRaftState_loop_app, Hreach.
      simpl saveRaftState_loop. rewrite run_bind, Hrun. reflexivity.
    + split; [exact Hp|]. rewrite Hkv. split; [exact Hd|exact Hc].
  - intros a b r' Hrun. exact (saveRaftState_blame _ ctx r r' a b Hrun).
  - intros Hall p r' Hrun.
    exact (saveRaftState_avoids (before ++ ud :: rest) ctx Hall r p r' Hrun).
Qed.

Lemma snapshot_above_entries_is_fatal_witness :
  let first := Update.mk 1 1 (State.mk 2 1 3) [Entry.mk 2 9 []; Entry.mk 2 10 []]
                 (Snapshot.mk 9 2 1 1) in
  let second := Update.mk 2 1 (State.mk 2 1 3) [] Snapshot.empty in
  let ud := Update.mk 3 1 (State.mk 2 1 3) [Entry.mk 2 4 []; Entry.mk 2 5 []]
              (Snapshot.mk 9 2 3 1) in
  let ctx := Some (mkContext None) in
  let r := mkDb Cache.empty (mkKV ∅ [] 0 []) newPlainEntries in
  (∃ p r',
     saveRaftState ([first; second] ++ ud :: [first]) ctx r = Panicked p r'
     ∧ (p = MaxIndexNotHandled 9 5 ∨ (ctx = None ∧ p = NilContext))
     ∧ data (kvs r') = ∅
     ∧ commits (kvs r') = [])
  ∧ (∀ p r', saveRaftState ([first; second] ++ first :: [second]) ctx r = Panicked p r' →
             ¬ is_MaxIndexNotHandled p).
Proof.
  split.
  - refine (proj1 (snapshot_above_entries_is_fatal
             [Update.mk 1 1 (State.mk 2 1 3) [Entry.mk 2 9 []; Entry.mk 2 10 []]
                (Snapshot.mk 9 2 1 1);
              Update.mk 2 1 (State.mk 2 1 3) [] Snapshot.empty]
             (Update.mk 3 1 (State.mk 2 1 3) [Entry.mk 2 4 []; Entry.mk 2 5 []]
                (Snapshot.mk 9 2 3 1))
             [Update.mk 1 1 (State.mk 2 1 3) [Entry.mk 2 9 []; Entry.mk 2 10 []]
                (Snapshot.mk 9 2 1 1)]
             (Some (mkContext None))
             (mkDb Cache.empty (mkKV ∅ [] 0 []) newPlainEntries))
           _ _ (Entry.mk 2 5 []) _ _ _ _ _); reflexivity.
  - apply (proj2 (proj2 (snapshot_above_entries_is_fatal
             [Update.mk 1 1 (State.mk 2 1 3) [Entry.mk 2 9 []; Entry.mk 2 10 []]
                (Snapshot.mk 9 2 1 1);
              Update.mk 2 1 (State.mk 2 1 3) [] Snapshot.empty]
             (Update.mk 1 1 (State.mk 2 1 3) [Entry.mk 2 9 []; Entry.mk 2 10 []]
                (Snapshot.mk 9 2 1 1))
             [Update.mk 2 1 (State.mk 2 1 3) [] Snapshot.empty]
             (Some (mkContext None))
             (mkDb Cache.empty (mkKV ∅ [] 0 []) newPlainEntries)))).
    repeat constructor; intros e He; simpl in He; inversion He; simpl;
      intros Hgt; discriminate Hgt.
Defined.

(** ** Key ranges *)

Lemma elem_of_range_items (m : gmap Key Value) (fk lk : Key) (inc : bool)
    (k : Key) (v : Value) :
  (k, v) ∈ range_items m fk lk inc ↔ m !! k = Some v ∧ in_range fk lk inc k = true.
Proof.
  unfold range_items. rewrite merge_sort_Permutation.
  rewrite elem_of_map_to_list. rewrite map_lookup_filter_Some. reflexivity.
Qed.

Lemma range_items_nil (m : gmap Key Value) (fk lk : Key) (inc : bool) :
  (∀ k v, m !! k = Some v → in_range fk lk inc k = false) →
  range_items m fk lk inc = [].
Proof.
  intros Hout. unfold range_items.
  assert (Hempty : filter (fun kv : Key * Value => in_range fk lk inc kv.1 = true) m = ∅).
  { apply map_empty. intros k. apply map_lookup_filter_None. right.
    intros v Hv. simpl. rewrite (Hout k v Hv). discriminate. }
  rewrite Hempty, map_to_list_empty. reflexivity.
Qed.

Ltac compare_cases :=
  unfold in_range, key_leb, key_ltb, key_compare, lex; simpl;
  repeat match goal with
         | |- context [?a ?= ?b] => destruct (N.compare_spec a b); simpl
         end.

Lemma in_range_snapshot (c n hi : N) (k : Key) :
  in_range (SnapshotKey c n 0) (SnapshotKey c n hi) true k = true
  ↔ ∃ i, k = SnapshotKey c n i ∧ i ≤ hi.
Proof.
  split.
  - destruct k as [c' n' i|c' n'|c' n'|c' n' i|c' n'];
      try (compare_cases; intros; discriminate).
    intros Hrange. exists i.
    revert Hrange. compare_cases; intros Hrange; try discriminate Hrange; subst;
      first [split; [reflexivity|lia] | exfalso; lia].
  - intros (i & -> & Hi).
    compare_cases; try (destruct i; reflexivity); exfalso; lia.
Qed.

Lemma in_range_entry (c n lo hi : N) (inc : bool) (k : Key) :
  in_range (EntryKey c n lo) (EntryKey c n hi) inc k = true
  ↔ ∃ i, k = EntryKey c n i ∧ lo ≤ i ∧ (if inc then i ≤ hi else i < hi).
Proof.
  split.
  - destruct k as [c' n' i|c' n'|c' n'|c' n' i|c' n'];
      try (destruct inc; compare_cases; intros; discriminate).
    intros Hrange. exists i.
    revert Hrange. destruct inc; compare_cases; intros Hrange;
      try discriminate Hrange; subst;
      first [split; [reflexivity|lia] | exfalso; lia].
  - intros (i & -> & Hlo & Hhi).
    destruct inc; compare_cases; try (destruct i; reflexivity); exfalso; lia.
Qed.

(** ** Listing the snapshots of a replica *)

Lemma visit_snapshots (items : list (Key * Value)) (acc : list Snapshot.t) :
  (∀ k v, (k, v) ∈ items → ∃ ss, v = VSnapshot ss) →
  visit (fun (key : Key) (data : Value) =>
           ss ← MustUnmarshalSnapshot data;
           state (fun snapshots : list Snapshot.t => ((true, None), snapshots ++ [ss])))
    items acc
  = Done None (acc ++ omap as_snapshot items).
Proof.
  revert acc. induction items as [|[k v] items IH]; intros acc Hall; simpl.
  - rewrite app_nil_r. reflexivity.
  - destruct (Hall k v) as [ss ->]; [left|].
    rewrite !run_bind. simpl. rewrite IH.
    + unfold as_snapshot at 2. simpl. rewrite <- app_assoc. reflexivity.
    + intros k' v' Hin. apply (Hall k' v'). right. exact Hin.
Qed.

Lemma listSnapshots_served (c n : N) (r : db) :
  fault_at (kvs r) 0 = None →
  snapshot_records_wf (data (kvs r)) c n →
  ∃ snaps,
    listSnapshots c n MaxUint64 r
    = Done (snaps, None) (mkDb (cs r) (after_read (kvs r)) (entries r))
    ∧ ∀ ss, ss ∈ snaps
            ↔ data (kvs r) !! SnapshotKey c n (Snapshot.Index ss) = Some (VSnapshot ss).
Proof.
  intros Hok Hwf.
  pose (items := range_items (data (kvs r)) (SnapshotKey c n 0)
                   (SnapshotKey c n MaxUint64) true).
  assert (Hitems : ∀ k v, (k, v) ∈ items →
            ∃ ss, k = SnapshotKey c n (Snapshot.Index ss) ∧ v = VSnapshot ss
                  ∧ data (kvs r) !! k = Some v).
  { intros k v Hin. apply elem_of_range_items in Hin as [Hlook Hrange].
    apply in_range_snapshot in Hrange as (i & -> & Hi).
    destruct (Hwf i v Hlook) as (_ & ss & -> & <-). eauto. }
  exists (omap as_snapshot items). split.
  - unfold listSnapshots. rewrite run_bind. unfold onKV, IterateValue.
    rewrite next_fault_at, Hok. fold items.
    rewrite visit_snapshots.
    + reflexivity.
    + intros k v Hin. destruct (Hitems k v Hin) as (ss & _ & -> & _). eauto.
  - intros ss. rewrite list_elem_of_omap. split.
    + intros ([k v] & Hin & Hdec).
      destruct (Hitems k v Hin) as (ss' & -> & -> & Hlook).
      unfold as_snapshot in Hdec. simpl in Hdec. inversion Hdec. subst. exact Hlook.
    + intros Hlook. exists (SnapshotKey c n (Snapshot.Index ss), VSnapshot ss).
      split; [|reflexivity].
      apply elem_of_range_items. split; [exact Hlook|].
      apply in_range_snapshot. eexists. split; [reflexivity|].
      destruct (Hwf _ _ Hlook) as [Hle _]. exact Hle.
Qed.

(** ** Write batches *)

Lemma apply_batch_app (wb1 wb2 : pebbleWriteBatch) (m : gmap Key Value) :
  apply_batch (wb1 ++ wb2) m = apply_batch wb2 (apply_batch wb1 m).
Proof. unfold apply_batch. apply foldl_app. Qed.

Lemma apply_batch_untouched (wb : pebbleWriteBatch) (m : gmap Key Value) (k : Key) :
  Forall (fun op => op_key op ≠ k) wb → apply_batch wb m !! k = m !! k.
Proof.
  revert m. induction wb as [|op wb IH]; intros m Hall; [reflexivity|].
  inversion Hall as [|? ? Hop Hrest]; subst.
  change (apply_batch (op :: wb) m) with (apply_batch wb (apply_op m op)).
  rewrite IH by exact Hrest.
  destruct op as [k' v|k']; simpl in *.
  - apply lookup_insert_ne. exact Hop.
  - apply lookup_delete_ne. exact Hop.
Qed.

Lemma apply_deletes_lookup (ks : list Key) (m : gmap Key Value) (k : Key) :
  k ∈ ks ∨ m !! k = None → apply_batch (WbDelete <$> ks) m !! k = None.
Proof.
  revert m. induction ks as [|k' ks IH]; intros m Hk.
  - destruct Hk as [Hin|Hnone]; [inversion Hin|exact Hnone].
  - change (apply_batch (WbDelete <$> k' :: ks) m)
      with (apply_batch (WbDelete <$> ks) (delete k' m)).
    apply IH. destruct (decide (k = k')) as [->|Hne].
    + right. apply lookup_delete_eq.
    + destruct Hk as [Hin|Hnone].
      * left. inversion Hin; subst; [contradiction|assumption].
      * right. rewrite lookup_delete_ne by congruence. exact Hnone.
Qed.

Lemma apply_deletes_other (ks : list Key) (m : gmap Key Value) (k : Key) :
  k ∉ ks → apply_batch (WbDelete <$> ks) m !! k = m !! k.
Proof.
  intros Hnot. apply apply_batch_untouched. apply Forall_fmap, Forall_forall.
  intros k' Hin Heq. simpl in Heq. subst. contradiction.
Qed.

Lemma stage_deletes_if {A} (cond : A → bool) (key : A → Key) (l : list A)
    (wb : pebbleWriteBatch) :
  foldl (fun wb a => if cond a then Delete wb (key a) else wb) wb l
  = wb ++ (WbDelete <$> (key <$> filter (fun a => cond a = true) l)).
Proof.
  revert wb. induction l as [|a l IH]; intros wb; simpl.
  - rewrite app_nil_r. reflexivity.
  - rewrite IH. rewrite filter_cons. destruct (cond a) eqn:Hc.
    + rewrite decide_True by reflexivity. unfold Delete. simpl.
      rewrite <- app_assoc. reflexivity.
    + rewrite decide_False by discriminate. reflexivity.
Qed.

Lemma stage_deletes {A} (key : A → Key) (l : list A) (wb : pebbleWriteBatch) :
  foldl (fun wb a => Delete wb (key a)) wb l = wb ++ (WbDelete <$> (key <$> l)).
Proof.
  revert wb. induction l as [|a l IH]; intros wb; simpl.
  - rewrite app_nil_r. reflexivity.
  - rewrite IH. unfold Delete. rewrite <- app_assoc. reflexivity.
Qed.

(** ** Snapshot retention *)




(** Saving the snapshots 3 and then 7 of a replica in two calls on an empty
    store leaves the record of snapshot 7 alone. *)
Example snapshots_3_then_7 :
  let r := mkDb Cache.empty (mkKV ∅ [] 0 []) newPlainEntries in
  let ud i := Update.mk 1 1 State.empty [] (Snapshot.mk i 2 1 1) in
  let r3 := final (saveSnapshots [ud 3] r) in
  let r7 := final (saveSnapshots [ud 7] r3) in
  data (kvs r3) = {[SnapshotKey 1 1 3 := VSnapshot (Snapshot.mk 3 2 1 1)]}
  ∧ data (kvs r7) = {[SnapshotKey 1 1 7 := VSnapshot (Snapshot.mk 7 2 1 1)]}
  ∧ commits (kvs r7)
    = [[WbDelete (SnapshotKey 1 1 3);
        WbPut (SnapshotKey 1 1 7) (VSnapshot (Snapshot.mk 7 2 1 1))];
       [WbPut (SnapshotKey 1 1 3) (VSnapshot (Snapshot.mk 3 2 1 1))]].
Proof. vm_compute. repeat split. Qed.

(** ** Removing the data of a replica *)

Lemma fault_at_next (kv kv' : KV) (i : nat) :
  faults kv' = tail (faults kv) → fault_at kv' i = fault_at kv (S i).
Proof.
  intros H. unfold fault_at. rewrite H. destruct (faults kv); reflexivity.
Qed.

Lemma listSnapshots_failed (c n i code : N) (r : db) :
  fault_at (kvs r) 0 = Some code →
  listSnapshots c n i r
  = Done ([], Some (StorageIO code)) (mkDb (cs r) (after_read (kvs r)) (entries r)).
Proof.
  intros Hf. unfold listSnapshots. rewrite run_bind. unfold onKV.
  rewrite IterateValue_failed with (code := code)
    by (rewrite next_fault_at; exact Hf).
  reflexivity.
Qed.

Lemma saveRemoveNodeData_keys (snapshots : list Snapshot.t) (c n : N) :
  saveRemoveNodeData [] snapshots c n = WbDelete <$> removed_keys snapshots c n.
Proof.
  unfold saveRemoveNodeData, removed_keys.
  rewrite (stage_deletes (fun ss => SnapshotKey c n (Snapshot.Index ss))).
  reflexivity.
Qed.

(** The three engine calls of [removeNodeData], when the first two are
    served: the listing, the commit of the deletes and the ranged delete. *)
Lemma removeNodeData_run (c n : N) (r : db) :
  entries r = newPlainEntries →
  snapshot_records_wf (data (kvs r)) c n →
  fault_at (kvs r) 0 = None →
  fault_at (kvs r) 1 = None →
  ∃ snaps,
    (∀ ss, ss ∈ snaps
           ↔ data (kvs r) !! SnapshotKey c n (Snapshot.Index ss) = Some (VSnapshot ss))
    ∧ removeNodeData c n r
      = let wb := WbDelete <$> removed_keys snaps c n in
        let data1 := apply_batch wb (data (kvs r)) in
        let faults3 := tail (tail (tail (faults (kvs r)))) in
        let cs' := Cache.setMaxIndex (cs r) c n 0 in
        match fault_at (kvs r) 2 with
        | Some code =>
            Done (Some (StorageIO code))
              (mkDb cs' (mkKV data1 faults3 (S (reads (kvs r))) (wb :: commits (kvs r)))
                 (entries r))
        | None =>
            Done None
              (mkDb cs'
                 (mkKV (filter (fun kv => in_range (EntryKey c n 0)
                                            (EntryKey c n MaxUint64) true kv.1 = false)
                          data1)
                    faults3 (S (reads (kvs r))) (wb :: commits (kvs r)))
                 (entries r))
        end.
Proof.
  intros Hplain Hwf H0 H1.
  destruct (listSnapshots_served c n r H0 Hwf) as (snaps & Hrun & Hsnaps).
  exists snaps. split; [exact Hsnaps|].
  unfold removeNodeData. rewrite run_bind, Hrun.
  change (getWriteBatch None) with (@nil wbOp).
  rewrite saveRemoveNodeData_keys.
  rewrite run_bind. unfold onKV at 1. unfold CommitWriteBatch. cbn [kvs cs entries].
  rewrite next_fault_at.
  rewrite (fault_at_next (kvs r) (after_read (kvs r)) 0 eq_refl), H1.
  rewrite run_bind. unfold onCache, state. cbn [kvs cs entries].
  unfold removeEntriesTo. rewrite run_bind. unfold receiver, state.
  cbn [kvs cs entries]. rewrite Hplain. cbn [rangedOp newPlainEntries].
  unfold Plain.rangedOp, onKV, BulkRemoveEntries. cbn [kvs cs entries].
  rewrite next_fault_at.
  match goal with
  | |- context [fault_at ?kv 0] =>
      rewrite (fault_at_next (after_read (kvs r)) kv 0 eq_refl)
  end.
  rewrite (fault_at_next (kvs r) (after_read (kvs r)) 1 eq_refl).
  destruct (fault_at (kvs r) 2); reflexivity.
Qed.

Lemma removed_keys_lookup (snaps : list Snapshot.t) (c n : N) (r : db) (k : Key) :
  snapshot_records_wf (data (kvs r)) c n →
  (∀ ss, ss ∈ snaps
         ↔ data (kvs r) !! SnapshotKey c n (Snapshot.Index ss) = Some (VSnapshot ss)) →
  k = StateKey c n ∨ k = BootstrapKey c n ∨ k = MaxIndexKey c n
  ∨ is_snapshot_key_of c n k →
  apply_batch (WbDelete <$> removed_keys snaps c n) (data (kvs r)) !! k = None.
Proof.
  intros Hwf Hsnaps Hk. apply apply_deletes_lookup. unfold removed_keys.
  destruct Hk as [->|[->|[->|[i ->]]]].
  - left. left.
  - left. right. left.
  - left. right. right. left.
  - destruct (data (kvs r) !! SnapshotKey c n i) as [v|] eqn:Hlook; [|right; reflexivity].
    left. do 3 right.
    destruct (Hwf i v Hlook) as (_ & ss & -> & <-).
    apply (list_elem_of_fmap_2 (fun ss => SnapshotKey c n (Snapshot.Index ss))).
    apply Hsnaps. exact Hlook.
Qed.

Lemma removed_keys_entry (snaps : list Snapshot.t) (c n c' n' i : N)
    (m : gmap Key Value) :
  apply_batch (WbDelete <$> removed_keys snaps c n) m !! EntryKey c' n' i
  = m !! EntryKey c' n' i.
Proof.
  apply apply_deletes_other. unfold removed_keys. intros Hin.
  repeat (apply elem_of_cons in Hin as [Hin|Hin]; [discriminate Hin|]).
  apply list_elem_of_fmap in Hin as (ss & Heq & _). discriminate Heq.
Qed.

(** C10: when the snapshots are listed and the batch of deletes is committed
    but the ranged delete of the entries fails, [removeNodeData] returns that
    error after one commit, the batch of the deletes of the state, bootstrap,
    max-index and listed snapshot records: those records of the replica are
    gone, its cached max index is 0, and every entry record is still in the
    store. *)
Theorem removeNodeData_fails_half_way (r : db) (c n code : N) :
  entries r = newPlainEntries →
  snapshot_records_wf (data (kvs r)) c n →
  fault_at (kvs r) 0 = None →
  fault_at (kvs r) 1 = None →
  fault_at (kvs r) 2 = Some code →
  ∃ snaps wb r',
    removeNodeData c n r = Done (Some (StorageIO code)) r'
    ∧ wb = WbDelete <$> removed_keys snaps c n
    ∧ commits (kvs r') = wb :: commits (kvs r)
    ∧ data (kvs r') = apply_batch wb (data (kvs r))
    ∧ data (kvs r') !! StateKey c n = None
    ∧ data (kvs r') !! BootstrapKey c n = None
    ∧ data (kvs r') !! MaxIndexKey c n = None
    ∧ (∀ i, data (kvs r') !! SnapshotKey c n i = None)
    ∧ Cache.getMaxIndex (cs r') c n = Some 0
    ∧ (∀ c' n' i, data (kvs r') !! EntryKey c' n' i = data (kvs r) !! EntryKey c' n' i).
Proof.
  intros Hplain Hwf H0 H1 H2.
  destruct (removeNodeData_run c n r Hplain Hwf H0 H1) as (snaps & Hsnaps & Hrun).
  rewrite H2 in Hrun. simpl in Hrun.
  exists snaps. eexists _, _. split; [exact Hrun|]. cbn [kvs cs data commits].
  split; [reflexivity|]. split; [reflexivity|]. split; [reflexivity|].
  split; [apply removed_keys_lookup; auto|].
  split; [apply removed_keys_lookup; auto|].
  split; [apply removed_keys_lookup; auto|].
  split.
  { intros i. apply removed_keys_lookup; auto. do 3 right. exists i. reflexivity. }
  split.
  { unfold Cache.getMaxIndex, Cache.setMaxIndex. simpl. apply lookup_insert_eq. }
  intros c' n' i. apply removed_keys_entry.
Qed.

Lemma removeNodeData_fails_half_way_witness :
  let store : gmap Key Value :=
    <[StateKey 1 1 := VState (State.mk 2 1 2)]>
      (<[BootstrapKey 1 1 := VBootstrap (Bootstrap.mk false 1)]>
         (<[MaxIndexKey 1 1 := VMaxIndex 2]>
            (<[SnapshotKey 1 1 1 := VSnapshot (Snapshot.mk 1 1 1 1)]>
               (<[EntryKey 1 1 1 := VEntry (Entry.mk 1 1 [])]>
                  (<[EntryKey 1 1 2 := VEntry (Entry.mk 2 2 [])]> ∅))))) in
  let r := mkDb Cache.empty (mkKV store [None; None; Some 9] 0 []) newPlainEntries in
  ∃ snaps wb r',
    removeNodeData 1 1 r = Done (Some (StorageIO 9)) r'
    ∧ wb = WbDelete <$> removed_keys snaps 1 1
    ∧ commits (kvs r') = wb :: commits (kvs r)
    ∧ data (kvs r') = apply_batch wb (data (kvs r))
    ∧ data (kvs r') !! StateKey 1 1 = None
    ∧ data (kvs r') !! BootstrapKey 1 1 = None
    ∧ data (kvs r') !! MaxIndexKey 1 1 = None
    ∧ (∀ i, data (kvs r') !! SnapshotKey 1 1 i = None)
    ∧ Cache.getMaxIndex (cs r') 1 1 = Some 0
    ∧ (∀ c' n' i, data (kvs r') !! EntryKey c' n' i = data (kvs r) !! EntryKey c' n' i).
Proof.
  intros store r.
  refine (removeNodeData_fails_half_way r 1 1 9 eq_refl _ eq_refl eq_refl eq_refl).
  intros i v Hlook. simpl in Hlook. unfold store in Hlook.
  repeat (rewrite lookup_insert in Hlook;
          destruct (decide _) as [Hk|_] in Hlook; [try discriminate Hk|]).
  - inversion Hk. inversion Hlook. subst. split.
    + intros Hgt. discriminate Hgt.
    + exists (Snapshot.mk 1 1 1 1). split; reflexivity.
  - rewrite lookup_empty in Hlook. discriminate Hlook.
Defined.

(** ** Reading entries *)

Lemma getMaxIndex_hit (c n v : N) (r : db) :
  Cache.getMaxIndex (cs r) c n = Some v → getMaxIndex c n r = Done (v, None) r.
Proof.
  intros Hhit. unfold getMaxIndex. rewrite run_bind. unfold receiver, state.
  rewrite Hhit. reflexivity.
Qed.

Lemma getMaxIndex_miss (c n : N) (r : db) :
  Cache.getMaxIndex (cs r) c n = None →
  fault_at (kvs r) 0 = None →
  getMaxIndex c n r
  = match data (kvs r) !! MaxIndexKey c n with
    | None => Done (0, Some ErrNoSavedLog) (mkDb (cs r) (after_read (kvs r)) (entries r))
    | Some (VMaxIndex v) => Done (v, None) (mkDb (cs r) (after_read (kvs r)) (entries r))
    | Some _ => Panicked UnmarshalFailed (mkDb (cs r) (after_read (kvs r)) (entries r))
    end.
Proof.
  intros Hmiss Hok. unfold getMaxIndex. rewrite run_bind. unfold receiver, state.
  rewrite Hmiss. rewrite run_bind. unfold onKV.
  rewrite GetValue_served by (rewrite next_fault_at; exact Hok).
  destruct (data (kvs r) !! MaxIndexKey c n) as [[]|]; reflexivity.
Qed.

Lemma plain_iterate_empty (ents : list Entry.t) (maxIndex size c n low high maxSize : N)
    (kv : KV) :
  fault_at kv 0 = None →
  (∀ i, low ≤ i → i < N.min high (maxIndex + 1) → data kv !! EntryKey c n i = None) →
  Plain.iterate ents maxIndex size c n low high maxSize kv
  = Done (ents, size, None) (after_read kv).
Proof.
  intros Hok Hnone. unfold Plain.iterate. rewrite run_bind. unfold IterateValue.
  rewrite next_fault_at, Hok. rewrite range_items_nil; [reflexivity|].
  intros k v Hlook.
  destruct (in_range _ _ false k) eqn:Hrange; [|reflexivity].
  apply in_range_entry in Hrange as (i & -> & Hlo & Hhi).
  rewrite (Hnone i Hlo Hhi) in Hlook. discriminate Hlook.
Qed.

Lemma iterateEntries_plain_empty (ents : list Entry.t) (size c n low high maxSize : N)
    (mi : N) (r r1 : db) :
  entries r = newPlainEntries →
  getMaxIndex c n r = Done (mi, None) r1 →
  entries r1 = entries r →
  fault_at (kvs r1) 0 = None →
  (∀ i, low ≤ i → i < N.min high (mi + 1) → data (kvs r1) !! EntryKey c n i = None) →
  iterateEntries ents size c n low high maxSize r
  = Done (ents, size, None) (mkDb (cs r1) (after_read (kvs r1)) (entries r1)).
Proof.
  intros Hplain Hmax Hent Hok Hnone. unfold iterateEntries.
  rewrite run_bind, Hmax. rewrite decide_False by discriminate.
  rewrite run_bind. unfold receiver, state. rewrite run_bind.
  rewrite Hent, Hplain. cbn [iterate newPlainEntries]. unfold onKV.
  rewrite plain_iterate_empty by assumption.
  rewrite <- Hplain, <- Hent. reflexivity.
Qed.

(** C9: [iterateEntries] returns the slice and the size it was given, with a
    nil error, when the max-index lookup reports that no log was saved, and,
    as long as the store serves its reads, when the range is empty or holds
    no entry record any more. *)
Theorem iterateEntries_nothing_to_return (r : db) (ents : list Entry.t)
    (size c n low high maxSize : N) :
  (∀ mi r1,
     getMaxIndex c n r = Done (mi, Some ErrNoSavedLog) r1 →
     iterateEntries ents size c n low high maxSize r = Done (ents, size, None) r1)
  ∧ (entries r = newPlainEntries →
     fault_at (kvs r) 0 = None →
     fault_at (kvs r) 1 = None →
     (∀ v, data (kvs r) !! MaxIndexKey c n = Some v → ∃ i, v = VMaxIndex i) →
     high ≤ low ∨ (∀ i, low ≤ i → i < high → data (kvs r) !! EntryKey c n i = None) →
     ∃ r', iterateEntries ents size c n low high maxSize r = Done (ents, size, None) r'
           ∧ data (kvs r') = data (kvs r)).
Proof.
  split.
  - intros mi r1 Hmax. unfold iterateEntries. rewrite run_bind, Hmax.
    rewrite decide_True by reflexivity. reflexivity.
  - intros Hplain H0 H1 Hwf Hrange.
    assert (Hnone : ∀ mi i, low ≤ i → i < N.min high (mi + 1) →
                            data (kvs r) !! EntryKey c n i = None).
    { intros mi i Hlo Hhi. destruct Hrange as [Hempty|Hgone]; [lia|].
      apply Hgone; lia. }
    destruct (Cache.getMaxIndex (cs r) c n) as [v|] eqn:Hcache.
    + eexists. split.
      * apply (iterateEntries_plain_empty _ _ _ _ _ _ _ v r r Hplain
                 (getMaxIndex_hit c n v r Hcache) eq_refl H0 (Hnone v)).
      * reflexivity.
    + pose proof (getMaxIndex_miss c n r Hcache H0) as Hmiss.
      destruct (data (kvs r) !! MaxIndexKey c n) as [v|] eqn:Hstored.
      * destruct (Hwf v eq_refl) as [mi ->].
        eexists. split.
        -- apply (iterateEntries_plain_empty _ _ _ _ _ _ _ mi r _ Hplain Hmiss);
             [reflexivity| |apply Hnone].
           cbn [kvs]. rewrite (fault_at_next (kvs r) (after_read (kvs r)) 0 eq_refl).
           exact H1.
        -- reflexivity.
      * eexists. split.
        -- unfold iterateEntries. rewrite run_bind, Hmiss.
           rewrite decide_True by reflexivity. reflexivity.
        -- reflexivity.
Qed.

Lemma iterateEntries_nothing_to_return_witness :
  let fresh := mkDb Cache.empty (mkKV ∅ [] 0 []) newPlainEntries in
  let store : gmap Key Value :=
    <[MaxIndexKey 1 1 := VMaxIndex 7]>
      (<[EntryKey 1 1 6 := VEntry (Entry.mk 1 6 [])]>
         (<[EntryKey 1 1 7 := VEntry (Entry.mk 1 7 [])]> ∅)) in
  let r := mkDb Cache.empty (mkKV store [] 0 []) newPlainEntries in
  iterateEntries [Entry.mk 1 0 []] 3 1 1 1 5 100 fresh
  = Done ([Entry.mk 1 0 []], 3, None)
      (mkDb Cache.empty (after_read (kvs fresh)) newPlainEntries)
  ∧ ∃ r', iterateEntries [Entry.mk 1 0 []] 3 1 1 1 5 100 r
          = Done ([Entry.mk 1 0 []], 3, None) r'
          ∧ data (kvs r') = data (kvs r).
Proof.
  intros fresh store r. split.
  - exact (proj1 (iterateEntries_nothing_to_return fresh [Entry.mk 1 0 []] 3 1 1 1 5 100)
             0 (mkDb Cache.empty (after_read (kvs fresh)) newPlainEntries) eq_refl).
  - refine (proj2 (iterateEntries_nothing_to_return r [Entry.mk 1 0 []] 3 1 1 1 5 100)
              eq_refl eq_refl eq_refl _ _).
    + intros v Hlook. simpl in Hlook. unfold store in Hlook.
      rewrite lookup_insert_eq in Hlook. inversion Hlook. exists 7. reflexivity.
    + right. intros i Hlo Hhi. simpl. unfold store.
      repeat (rewrite lookup_insert; destruct (decide _) as [Hk|_];
              [try discriminate Hk; inversion Hk; subst; exfalso; lia|]).
      apply lookup_empty.
Defined.

(** With the entries 1 to 5 stored, the range from 2 to 4 yields the entries
    2 and 3 after what the caller passed; a size budget below one entry
    still yields the first entry. *)
Example iterateEntries_range :
  let e i := Entry.mk 1 i [0; 0] in
  let store : gmap Key Value :=
    <[MaxIndexKey 1 1 := VMaxIndex 5]>
      (<[EntryKey 1 1 1 := VEntry (e 1)]>
         (<[EntryKey 1 1 2 := VEntry (e 2)]>
            (<[EntryKey 1 1 3 := VEntry (e 3)]>
               (<[EntryKey 1 1 4 := VEntry (e 4)]>
                  (<[EntryKey 1 1 5 := VEntry (e 5)]> ∅))))) in
  let r := mkDb Cache.empty (mkKV store [] 0 []) newPlainEntries in
  returned (iterateEntries [] 0 1 1 2 4 100 r) = Some ([e 2; e 3], 4, None)
  ∧ returned (iterateEntries [] 0 1 1 2 4 1 r) = Some ([e 2], 2, None)
  ∧ returned (iterateEntries [] 0 1 1 4 9 100 r) = Some ([e 4; e 5], 4, None).
Proof. vm_compute. repeat split. Qed.

(** ** Reads after a removal *)

Lemma removeNodeData_commit_failed (c n code : N) (r : db) :
  snapshot_records_wf (data (kvs r)) c n →
  fault_at (kvs r) 0 = None →
  fault_at (kvs r) 1 = Some code →
  returned (removeNodeData c n r) = Some (Some (StorageIO code)).
Proof.
  intros Hwf H0 H1.
  destruct (listSnapshots_served c n r H0 Hwf) as (snaps & Hrun & _).
  unfold removeNodeData. rewrite run_bind, Hrun.
  rewrite run_bind. unfold onKV at 1. unfold CommitWriteBatch. cbn [kvs cs entries].
  rewrite next_fault_at.
  rewrite (fault_at_next (kvs r) (after_read (kvs r)) 0 eq_refl), H1.
  reflexivity.
Qed.

(** What a successful [removeNodeData] leaves of the replica. *)
Lemma removeNodeData_succeeded (c n : N) (r r' : db) :
  entries r = newPlainEntries →
  snapshot_records_wf (data (kvs r)) c n →
  removeNodeData c n r = Done None r' →
  data (kvs r') !! StateKey c n = None
  ∧ data (kvs r') !! BootstrapKey c n = None
  ∧ data (kvs r') !! MaxIndexKey c n = None
  ∧ (∀ i, data (kvs r') !! SnapshotKey c n i = None)
  ∧ (∀ i, i ≤ MaxUint64 → data (kvs r') !! EntryKey c n i = None)
  ∧ Cache.getMaxIndex (cs r') c n = Some 0
  ∧ entries r' = newPlainEntries.
Proof.
  intros Hplain Hwf Hrun.
  destruct (fault_at (kvs r) 0) as [code|] eqn:H0.
  { unfold removeNodeData in Hrun.
    rewrite run_bind, (listSnapshots_failed c n MaxUint64 code r H0) in Hrun.
    discriminate Hrun. }
  destruct (fault_at (kvs r) 1) as [code|] eqn:H1.
  { pose proof (removeNodeData_commit_failed c n code r Hwf H0 H1) as Hfail.
    rewrite Hrun in Hfail. discriminate Hfail. }
  destruct (removeNodeData_run c n r Hplain Hwf H0 H1) as (snaps & Hsnaps & Hrun').
  rewrite Hrun in Hrun'.
  destruct (fault_at (kvs r) 2) as [code|]; [discriminate Hrun'|].
  simpl in Hrun'. inversion Hrun' as [Hr']. clear Hrun'. cbn [kvs cs data entries].
  assert (Hgone : ∀ k, k = StateKey c n ∨ k = BootstrapKey c n ∨ k = MaxIndexKey c n
                       ∨ is_snapshot_key_of c n k →
            filter (fun kv : Key * Value =>
                      in_range (EntryKey c n 0) (EntryKey c n MaxUint64) true kv.1 = false)
              (apply_batch (WbDelete <$> removed_keys snaps c n) (data (kvs r))) !! k
            = None).
  { intros k Hk. apply map_lookup_filter_None. left.
    apply removed_keys_lookup; assumption. }
  split; [apply Hgone; auto|].
  split; [apply Hgone; auto|].
  split; [apply Hgone; auto|].
  split; [intros i; apply Hgone; do 3 right; exists i; reflexivity|].
  split.
  - intros i Hi. apply map_lookup_filter_None. right. intros v _. simpl.
    assert (Hin : in_range (EntryKey c n 0) (EntryKey c n MaxUint64) true
                    (EntryKey c n i) = true).
    { apply in_range_entry. exists i. split; [reflexivity|]. split; [lia|exact Hi]. }
    rewrite Hin. discriminate.
  - split; [|exact Hplain].
    unfold Cache.getMaxIndex, Cache.setMaxIndex. simpl. apply lookup_insert_eq.
Qed.

(** C8 (as amended): once [removeNodeData] has succeeded for a replica, and
    for as long as the store and the cached max index stay as it left them,
    every read the store serves finds nothing: [getState] returns
    [ErrNoSavedLog] and [getBootstrapInfo] returns [ErrNoBootstrapInfo], both
    of the NotFound kind; [getSnapshot] returns the empty snapshot with a nil
    error; [iterateEntries] returns the slice and the size it was given with
    a nil error. *)
Theorem reads_after_removeNodeData (r r' : db) (c n : N) :
  entries r = newPlainEntries →
  snapshot_records_wf (data (kvs r)) c n →
  removeNodeData c n r = Done None r' →
  ∀ s : db,
    data (kvs s) = data (kvs r') →
    Cache.getMaxIndex (cs s) c n = Cache.getMaxIndex (cs r') c n →
    entries s = entries r' →
    fault_at (kvs s) 0 = None →
    (∃ e, returned (getState c n s) = Some (State.empty, Some e)
          ∧ e = ErrNoSavedLog ∧ is_NotFound e = true)
    ∧ (∃ bs e, returned (getBootstrapInfo c n s) = Some (bs, Some e)
               ∧ e = ErrNoBootstrapInfo ∧ is_NotFound e = true)
    ∧ returned (getSnapshot c n s) = Some (Snapshot.empty, None)
    ∧ ∀ ents size low high maxSize,
        returned (iterateEntries ents size c n low high maxSize s)
        = Some (ents, size, None).
Proof.
  intros Hplain Hwf Hrun s Hdata Hcache Hent Hok.
  destruct (removeNodeData_succeeded c n r r' Hplain Hwf Hrun)
    as (Hst & Hbs & Hmi & Hss & Hes & Hc & Hp).
  rewrite <- Hdata in Hst, Hbs, Hmi, Hss, Hes.
  rewrite <- Hcache in Hc. rewrite <- Hent in Hp.
  split; [|split; [|split]].
  - exists ErrNoSavedLog. split; [|split; reflexivity].
    unfold getState. rewrite run_bind. unfold onKV.
    rewrite GetValue_served by (rewrite next_fault_at; exact Hok).
    rewrite Hst. reflexivity.
  - exists (Bootstrap.mk false 0), ErrNoBootstrapInfo. split; [|split; reflexivity].
    unfold getBootstrapInfo. rewrite run_bind. unfold onKV.
    rewrite GetValue_served by (rewrite next_fault_at; exact Hok).
    rewrite Hbs. reflexivity.
  - assert (Hwf' : snapshot_records_wf (data (kvs s)) c n).
    { intros i v Hlook. rewrite Hss in Hlook. discriminate Hlook. }
    destruct (listSnapshots_served c n s Hok Hwf') as (snaps & Hlist & Hsnaps).
    assert (Hnil : snaps = []).
    { destruct snaps as [|ss snaps]; [reflexivity|].
      assert (Hin : ss ∈ ss :: snaps) by left.
      apply Hsnaps in Hin. rewrite Hss in Hin. discriminate Hin. }
    subst snaps. unfold getSnapshot. rewrite run_bind, Hlist. reflexivity.
  - intros ents size low high maxSize.
    rewrite (iterateEntries_plain_empty ents size c n low high maxSize 0 s s Hp
               (getMaxIndex_hit c n 0 s Hc) eq_refl Hok); [reflexivity|].
    intros i _ Hi. apply Hes. unfold MaxUint64. lia.
Qed.

Lemma reads_after_removeNodeData_witness :
  let store : gmap Key Value :=
    <[StateKey 1 1 := VState (State.mk 2 1 2)]>
      (<[BootstrapKey 1 1 := VBootstrap (Bootstrap.mk false 1)]>
         (<[MaxIndexKey 1 1 := VMaxIndex 2]>
            (<[SnapshotKey 1 1 1 := VSnapshot (Snapshot.mk 1 1 1 1)]>
               (<[EntryKey 1 1 1 := VEntry (Entry.mk 1 1 [])]>
                  (<[EntryKey 1 1 2 := VEntry (Entry.mk 2 2 [])]> ∅))))) in
  let r := mkDb Cache.empty (mkKV store [] 0 []) newPlainEntries in
  let s := final (removeNodeData 1 1 r) in
  (∃ e, returned (getState 1 1 s) = Some (State.empty, Some e)
        ∧ e = ErrNoSavedLog ∧ is_NotFound e = true)
  ∧ (∃ bs e, returned (getBootstrapInfo 1 1 s) = Some (bs, Some e)
             ∧ e = ErrNoBootstrapInfo ∧ is_NotFound e = true)
  ∧ returned (getSnapshot 1 1 s) = Some (Snapshot.empty, None)
  ∧ ∀ ents size low high maxSize,
      returned (iterateEntries ents size 1 1 low high maxSize s)
      = Some (ents, size, None).
Proof.
  intros store r s.
  assert (Hwf : snapshot_records_wf (data (kvs r)) 1 1).
  { intros i v Hlook. simpl in Hlook. unfold store in Hlook.
    repeat (rewrite lookup_insert in Hlook;
            destruct (decide _) as [Hk|_] in Hlook; [try discriminate Hk|]).
    - inversion Hk. inversion Hlook. subst. split.
      + intros Hgt. discriminate Hgt.
      + exists (Snapshot.mk 1 1 1 1). split; reflexivity.
    - rewrite lookup_empty in Hlook. discriminate Hlook. }
  assert (Hrun : removeNodeData 1 1 r = Done None s).
  { vm_compute. reflexivity. }
  exact (reads_after_removeNodeData r s 1 1 eq_refl Hwf Hrun s
           eq_refl eq_refl eq_refl eq_refl).
Defined.

(** C8 (counterexample): after a successful [removeNodeData] of replica
    (1, 1), [getSnapshot] returns the empty snapshot and a nil error, not an
    error of the NotFound kind. *)
Lemma getSnapshot_after_removal_is_not_an_error :
  let store : gmap Key Value :=
    <[StateKey 1 1 := VState (State.mk 2 1 2)]>
      (<[BootstrapKey 1 1 := VBootstrap (Bootstrap.mk false 1)]>
         (<[MaxIndexKey 1 1 := VMaxIndex 2]>
            (<[SnapshotKey 1 1 1 := VSnapshot (Snapshot.mk 1 1 1 1)]>
               (<[EntryKey 1 1 1 := VEntry (Entry.mk 1 1 [])]>
                  (<[EntryKey 1 1 2 := VEntry (Entry.mk 2 2 [])]> ∅))))) in
  let r := mkDb Cache.empty (mkKV store [] 0 []) newPlainEntries in
  let s := final (removeNodeData 1 1 r) in
  returned (removeNodeData 1 1 r) = Some None
  ∧ data (kvs s) = ∅
  ∧ returned (getSnapshot 1 1 s) = Some (Snapshot.empty, None)
  ∧ ¬ ∃ ss e, returned (getSnapshot 1 1 s) = Some (ss, Some e) ∧ is_NotFound e = true.
Proof.
  vm_compute. repeat split.
  intros (ss & e & Hret & _). discriminate Hret.
Qed.

(** ** Bootstrap records *)

Lemma CommitWriteBatch_served (wb : pebbleWriteBatch) (kv : KV) :
  fault_at kv 0 = None →
  CommitWriteBatch wb kv
  = Done None (mkKV (apply_batch wb (data kv)) (tail (faults kv)) (reads kv)
                 (wb :: commits kv)).
Proof.
  intros Hok. unfold CommitWriteBatch. rewrite next_fault_at, Hok. reflexivity.
Qed.

Lemma CommitWriteBatch_failed (wb : pebbleWriteBatch) (kv : KV) (code : N) :
  fault_at kv 0 = Some code →
  CommitWriteBatch wb kv
  = Done (Some (StorageIO code))
      (mkKV (data kv) (tail (faults kv)) (reads kv) (wb :: commits kv)).
Proof.
  intros Hf. unfold CommitWriteBatch. rewrite next_fault_at, Hf. reflexivity.
Qed.

(** X1: a bootstrap record saved by [saveBootstrapInfo] is what
    [getBootstrapInfo] then returns for the replica, when the engine serves
    the commit and the read; no other record of the store changes and the
    cache is left alone.  When the engine refuses the commit, the error is
    returned and the store is as before. *)
Theorem bootstrap_round_trip (r : db) (c n : N) (bs : Bootstrap.t) :
  (fault_at (kvs r) 0 = None →
   ∃ r1,
     saveBootstrapInfo c n bs r = Done None r1
     ∧ cs r1 = cs r
     ∧ (∀ k, k ≠ BootstrapKey c n → data (kvs r1) !! k = data (kvs r) !! k)
     ∧ (fault_at (kvs r) 1 = None →
        ∃ r2, getBootstrapInfo c n r1 = Done (bs, None) r2
              ∧ data (kvs r2) = data (kvs r1)))
  ∧ (∀ code, fault_at (kvs r) 0 = Some code →
       ∃ r1, saveBootstrapInfo c n bs r = Done (Some (StorageIO code)) r1
             ∧ data (kvs r1) = data (kvs r)).
Proof.
  split.
  - intros H0. unfold saveBootstrapInfo, onKV.
    rewrite CommitWriteBatch_served by exact H0.
    eexists. split; [reflexivity|]. cbn [cs kvs data].
    split; [reflexivity|]. split.
    + intros k Hk. unfold getWriteBatch, saveBootstrap, Put. simpl.
      apply lookup_insert_ne. congruence.
    + intros H1. unfold getBootstrapInfo. rewrite run_bind. unfold onKV.
      cbn [cs kvs entries].
      rewrite GetValue_served.
      * cbn [data]. unfold getWriteBatch, saveBootstrap, Put. simpl.
        rewrite lookup_insert_eq. eexists. split; reflexivity.
      * rewrite next_fault_at.
        match goal with
        | |- fault_at ?kv 0 = None => rewrite (fault_at_next (kvs r) kv 0 eq_refl)
        end.
        exact H1.
  - intros code Hf. unfold saveBootstrapInfo, onKV.
    rewrite (CommitWriteBatch_failed _ _ code Hf).
    eexists. split; reflexivity.
Qed.

Lemma bootstrap_round_trip_witness :
  let r := mkDb Cache.empty
             (mkKV {[StateKey 1 1 := VState (State.mk 1 1 1)]} [] 0 [])
             newPlainEntries in
  let bs := Bootstrap.mk true 1 in
  ∃ r1,
    saveBootstrapInfo 1 2 bs r = Done None r1
    ∧ cs r1 = cs r
    ∧ (∀ k, k ≠ BootstrapKey 1 2 → data (kvs r1) !! k = data (kvs r) !! k)
    ∧ (fault_at (kvs r) 1 = None →
       ∃ r2, getBootstrapInfo 1 2 r1 = Done (bs, None) r2
             ∧ data (kvs r2) = data (kvs r1)).
Proof.
  exact (proj1 (bootstrap_round_trip
                  (mkDb Cache.empty
                     (mkKV {[StateKey 1 1 := VState (State.mk 1 1 1)]} [] 0 [])
                     newPlainEntries) 1 2 (Bootstrap.mk true 1)) eq_refl).
Defined.


(** ** Whole partitions of the key space *)

Lemma in_range_all_bootstrap (k : Key) :
  key_in_uint64 k →
  (in_range (BootstrapKey 0 0) (BootstrapKey MaxUint64 MaxUint64) true k = true
   ↔ is_bootstrap_key k).
Proof.
  intros Hwf. split.
  - destruct k as [c n i|c n|c n|c n i|c n];
      try (compare_cases; intros; discriminate).
    intros _. exists c, n. reflexivity.
  - intros (c & n & ->). unfold key_in_uint64 in Hwf. simpl in Hwf.
    destruct Hwf as (Hc & Hn & _).
    compare_cases; try reflexivity; try (destruct c, n; reflexivity);
      exfalso; unfold MaxUint64 in *; lia.
Qed.

Lemma in_range_all_entry (k : Key) :
  key_in_uint64 k →
  (in_range (EntryKey 0 0 0) (EntryKey MaxUint64 MaxUint64 MaxUint64) true k = true
   ↔ is_entry_key k).
Proof.
  intros Hwf. split.
  - destruct k as [c n i|c n|c n|c n i|c n];
      try (compare_cases; intros; discriminate).
    intros _. exists c, n, i. reflexivity.
  - intros (c & n & i & ->). unfold key_in_uint64 in Hwf. simpl in Hwf.
    destruct Hwf as (Hc & Hn & Hi).
    compare_cases; try reflexivity; try (destruct c, n, i; reflexivity);
      exfalso; unfold MaxUint64 in *; lia.
Qed.

(** X2: when the engine serves the scan, [hasEntryRecord] reports true
    exactly when the store holds an entry record, of any replica and in any
    format, and it reads the store once; when the scan fails it reports false
    together with the error. *)
Theorem hasEntryRecord_locates_any_entry (kv : KV) :
  (fault_at kv 0 = None →
   store_keys_wf (data kv) →
   ∃ b, hasEntryRecord kv = Done (b, None) (after_read kv)
        ∧ (b = true ↔ ∃ k v, is_entry_key k ∧ data kv !! k = Some v))
  ∧ (∀ code, fault_at kv 0 = Some code →
       hasEntryRecord kv = Done (false, Some (StorageIO code)) (after_read kv)).
Proof.
  split.
  - intros Hok Hwf. unfold hasEntryRecord. rewrite run_bind. unfold IterateValue.
    rewrite next_fault_at, Hok.
    destruct (range_items (data kv) (EntryKey 0 0 0)
                (EntryKey MaxUint64 MaxUint64 MaxUint64) true)
      as [|[k v] items] eqn:Hitems.
    + exists false. split; [reflexivity|]. split; [discriminate|].
      intros (k & v & Hk & Hlook). exfalso.
      assert (Hin : (k, v) ∈ range_items (data kv) (EntryKey 0 0 0)
                      (EntryKey MaxUint64 MaxUint64 MaxUint64) true).
      { apply elem_of_range_items. split; [exact Hlook|].
        apply in_range_all_entry; [exact (Hwf k v Hlook)|exact Hk]. }
      rewrite Hitems in Hin. inversion Hin.
    + exists true. split; [reflexivity|]. split; [|reflexivity].
      intros _. exists k, v.
      assert (Hin : (k, v) ∈ range_items (data kv) (EntryKey 0 0 0)
                      (EntryKey MaxUint64 MaxUint64 MaxUint64) true)
        by (rewrite Hitems; left).
      apply elem_of_range_items in Hin as [Hlook Hrange].
      split; [|exact Hlook].
      apply in_range_all_entry in Hrange; [exact Hrange|exact (Hwf k v Hlook)].
  - intros code Hf. unfold hasEntryRecord. rewrite run_bind.
    rewrite IterateValue_failed with (code := code)
      by (rewrite next_fault_at; exact Hf).
    reflexivity.
Qed.

Lemma store_keys_wf_small (m : gmap Key Value) :
  (∀ k v, m !! k = Some v →
          let '(_, c, n, i) := key_fields k in c < 1000 ∧ n < 1000 ∧ i < 1000) →
  store_keys_wf m.
Proof.
  intros Hsmall k v Hlook. specialize (Hsmall k v Hlook).
  unfold key_in_uint64, MaxUint64. destruct (key_fields k) as [[[t c] n] i]. lia.
Qed.

Lemma hasEntryRecord_locates_any_entry_witness :
  let kv := mkKV {[EntryKey 1 1 5 := VEntry (Entry.mk 1 5 [])]} [] 0 [] in
  ∃ b, hasEntryRecord kv = Done (b, None) (after_read kv)
       ∧ (b = true ↔ ∃ k v, is_entry_key k ∧ data kv !! k = Some v).
Proof.
  refine (proj1 (hasEntryRecord_locates_any_entry
                   (mkKV {[EntryKey 1 1 5 := VEntry (Entry.mk 1 5 [])]} [] 0 []))
            eq_refl _).
  apply store_keys_wf_small. intros k v Hlook. simpl in Hlook.
  apply lookup_singleton_Some in Hlook as [<- _]. simpl. lia.
Defined.

Lemma visit_nodes (items : list (Key * Value)) (acc : list NodeInfo.t) :
  visit (fun (key : Key) (data : Value) =>
           let '(cid, nid) := parseNodeInfoKey key in
           state (fun ni : list NodeInfo.t => ((true, None), ni ++ [NodeInfo.mk cid nid])))
    items acc
  = Done None (acc ++ ((fun kv => node_of_key kv.1) <$> items)).
Proof.
  revert acc. induction items as [|[k v] items IH]; intros acc; simpl.
  - rewrite app_nil_r. reflexivity.
  - rewrite run_bind. unfold node_of_key at 1. simpl.
    destruct (parseNodeInfoKey k) as [cid nid]. simpl.
    rewrite IH, <- app_assoc. reflexivity.
Qed.

(** X3: when the engine serves the scan, [listNodeInfo] returns, without
    repetition, exactly the replicas that have a bootstrap record, and leaves
    the store and the cache as they are; when the scan fails it returns the
    error and an empty list. *)
Theorem listNodeInfo_lists_bootstrapped (r : db) :
  (fault_at (kvs r) 0 = None →
   store_keys_wf (data (kvs r)) →
   ∃ ni,
     listNodeInfo r = Done (ni, None) (mkDb (cs r) (after_read (kvs r)) (entries r))
     ∧ NoDup ni
     ∧ ∀ c n, NodeInfo.mk c n ∈ ni ↔ is_Some (data (kvs r) !! BootstrapKey c n))
  ∧ (∀ code, fault_at (kvs r) 0 = Some code →
       listNodeInfo r
       = Done ([], Some (StorageIO code))
           (mkDb (cs r) (after_read (kvs r)) (entries r))).
Proof.
  split.
  - intros Hok Hwf.
    pose (items := range_items (data (kvs r)) (BootstrapKey 0 0)
                     (BootstrapKey MaxUint64 MaxUint64) true).
    assert (Hitems : ∀ k v, (k, v) ∈ items
                            ↔ is_bootstrap_key k ∧ data (kvs r) !! k = Some v).
    { intros k v. unfold items. rewrite elem_of_range_items. split.
      - intros [Hlook Hrange]. split; [|exact Hlook].
        apply in_range_all_bootstrap in Hrange; [exact Hrange|exact (Hwf k v Hlook)].
      - intros [Hk Hlook]. split; [exact Hlook|].
        apply in_range_all_bootstrap; [exact (Hwf k v Hlook)|exact Hk]. }
    exists ((fun kv => node_of_key kv.1) <$> items). split; [|split].
    + unfold listNodeInfo. rewrite run_bind. unfold onKV, IterateValue.
      rewrite next_fault_at, Hok. fold items. rewrite visit_nodes. reflexivity.
    + apply NoDup_fmap_2_strong.
      * intros [k1 v1] [k2 v2] H1 H2 Heq. simpl in Heq.
        apply Hitems in H1 as [(c1 & n1 & ->) Hl1].
        apply Hitems in H2 as [(c2 & n2 & ->) Hl2].
        unfold node_of_key in Heq. simpl in Heq. inversion Heq. subst.
        rewrite Hl1 in Hl2. inversion Hl2. reflexivity.
      * unfold items, range_items. rewrite merge_sort_Permutation.
        apply NoDup_map_to_list.
    + intros c n. rewrite list_elem_of_fmap. split.
      * intros ([k v] & Heq & Hin). apply Hitems in Hin as [(c' & n' & ->) Hlook].
        unfold node_of_key in Heq. simpl in Heq. inversion Heq. subst.
        rewrite Hlook. eauto.
      * intros [v Hlook]. exists (BootstrapKey c n, v). split; [reflexivity|].
        apply Hitems. split; [|exact Hlook]. exists c, n. reflexivity.
  - intros code Hf. unfold listNodeInfo. rewrite run_bind. unfold onKV.
    rewrite IterateValue_failed with (code := code)
      by (rewrite next_fault_at; exact Hf).
    reflexivity.
Qed.

Lemma listNodeInfo_lists_bootstrapped_witness :
  let r := mkDb Cache.empty
             (mkKV {[BootstrapKey 1 2 := VBootstrap (Bootstrap.mk false 1)]} [] 0 [])
             newPlainEntries in
  ∃ ni,
    listNodeInfo r = Done (ni, None) (mkDb (cs r) (after_read (kvs r)) (entries r))
    ∧ NoDup ni
    ∧ ∀ c n, NodeInfo.mk c n ∈ ni ↔ is_Some (data (kvs r) !! BootstrapKey c n).
Proof.
  refine (proj1 (listNodeInfo_lists_bootstrapped
                   (mkDb Cache.empty
                      (mkKV {[BootstrapKey 1 2 := VBootstrap (Bootstrap.mk false 1)]}
                         [] 0 [])
                      newPlainEntries)) eq_refl _).
  apply store_keys_wf_small. intros k v Hlook. simpl in Hlook.
  apply lookup_singleton_Some in Hlook as [<- _]. simpl. lia.
Defined.


(** ** The order of a listing *)

Lemma key_compare_antisym (k1 k2 : Key) :
  key_compare k2 k1 = CompOpp (key_compare k1 k2).
Proof.
  unfold key_compare.
  destruct (key_fields k1) as [[[t1 c1] n1] i1], (key_fields k2) as [[[t2 c2] n2] i2].
  rewrite (N.compare_antisym t1 t2), (N.compare_antisym c1 c2),
    (N.compare_antisym n1 n2), (N.compare_antisym i1 i2).
  destruct (t1 ?= t2), (c1 ?= c2), (n1 ?= n2), (i1 ?= i2); reflexivity.
Qed.

Lemma item_le_total : Total item_le.
Proof.
  intros [k1 v1] [k2 v2]. unfold item_le, key_le, key_leb. simpl.
  rewrite (key_compare_antisym k1 k2).
  destruct (key_compare k1 k2); simpl; auto.
Qed.

Lemma key_le_snapshot (c n i j : N) :
  key_le (SnapshotKey c n i) (SnapshotKey c n j) → i ≤ j.
Proof.
  unfold key_le. compare_cases; intros Hle; try discriminate Hle; lia.
Qed.

Lemma snapshots_sorted (c n : N) (items : list (Key * Value)) :
  (∀ k v, (k, v) ∈ items →
          ∃ ss, k = SnapshotKey c n (Snapshot.Index ss) ∧ v = VSnapshot ss) →
  Sorted item_le items →
  Sorted (fun a b => Snapshot.Index a ≤ Snapshot.Index b) (omap as_snapshot items).
Proof.
  intros Hall Hsorted. induction Hsorted as [|[k v] items Hs IH Hhd]; simpl.
  - constructor.
  - destruct (Hall k v) as (ss & -> & ->); [left|].
    unfold as_snapshot at 1. simpl. constructor.
    + apply IH. intros k' v' Hin. apply Hall. right. exact Hin.
    + destruct Hhd as [|[k' v'] items' Hle]; simpl; [constructor|].
      destruct (Hall k' v') as (ss' & -> & ->); [right; left|].
      unfold as_snapshot at 1. simpl. constructor.
      exact (key_le_snapshot c n _ _ Hle).
Qed.

Lemma last_of_sorted {A} (R : relation A) (l : list A) (x : A) :
  Reflexive R → StronglySorted R l → last l = Some x → ∀ y, y ∈ l → R y x.
Proof.
  intros Hrefl Hs. induction Hs as [|a l Hs IH Hall]; intros Hlast y Hy.
  - inversion Hy.
  - destruct l as [|b l].
    + simpl in Hlast. inversion Hlast. subst.
      apply list_elem_of_singleton in Hy. subst. apply Hrefl.
    + rewrite last_cons_cons in Hlast.
      apply elem_of_cons in Hy as [->|Hy].
      * rewrite Forall_forall in Hall. apply Hall.
        apply last_Some_elem_of. exact Hlast.
      * apply IH; assumption.
Qed.

(** The listing of the snapshots of a replica, in ascending index order. *)
Lemma listSnapshots_sorted (c n : N) (r : db) :
  fault_at (kvs r) 0 = None →
  snapshot_records_wf (data (kvs r)) c n →
  ∃ snaps,
    listSnapshots c n MaxUint64 r
    = Done (snaps, None) (mkDb (cs r) (after_read (kvs r)) (entries r))
    ∧ (∀ ss, ss ∈ snaps
             ↔ data (kvs r) !! SnapshotKey c n (Snapshot.Index ss) = Some (VSnapshot ss))
    ∧ StronglySorted (fun a b => Snapshot.Index a ≤ Snapshot.Index b) snaps.
Proof.
  intros Hok Hwf.
  pose (items := range_items (data (kvs r)) (SnapshotKey c n 0)
                   (SnapshotKey c n MaxUint64) true).
  assert (Hitems : ∀ k v, (k, v) ∈ items →
            ∃ ss, k = SnapshotKey c n (Snapshot.Index ss) ∧ v = VSnapshot ss).
  { intros k v Hin. apply elem_of_range_items in Hin as [Hlook Hrange].
    apply in_range_snapshot in Hrange as (i & -> & Hi).
    destruct (Hwf i v Hlook) as (_ & ss & -> & <-). eauto. }
  destruct (listSnapshots_served c n r Hok Hwf) as (snaps & Hrun & Hsnaps).
  assert (Hsame : snaps = omap as_snapshot items).
  { unfold listSnapshots in Hrun. rewrite run_bind in Hrun.
    unfold onKV, IterateValue in Hrun. rewrite next_fault_at, Hok in Hrun.
    fold items in Hrun. rewrite visit_snapshots in Hrun.
    - simpl in Hrun. inversion Hrun. reflexivity.
    - intros k v Hin. destruct (Hitems k v Hin) as (ss & _ & -> ). eauto. }
  exists snaps. split; [exact Hrun|]. split; [exact Hsnaps|].
  rewrite Hsame.
  apply (@Sorted_StronglySorted _ (fun a b => Snapshot.Index a ≤ Snapshot.Index b)).
  - intros a b d Hab Hbd. lia.
  - apply (snapshots_sorted c n); [exact Hitems|].
    unfold items, range_items. apply (@Sorted_merge_sort _ item_le _ item_le_total).
Qed.

(** X4: when the engine serves the listing, [getSnapshot] returns the stored
    snapshot of the replica with the highest index and records that index in
    the cache, after which the cache accepts only snapshots above it; with no
    snapshot record it returns the empty snapshot, a nil error, and leaves
    the cache alone.  The store is not changed. *)
Theorem getSnapshot_returns_highest (r : db) (c n : N) :
  fault_at (kvs r) 0 = None →
  snapshot_records_wf (data (kvs r)) c n →
  ∃ ss r',
    getSnapshot c n r = Done (ss, None) r'
    ∧ data (kvs r') = data (kvs r)
    ∧ ((ss = Snapshot.empty ∧ cs r' = cs r
        ∧ ∀ i, data (kvs r) !! SnapshotKey c n i = None)
       ∨ (data (kvs r) !! SnapshotKey c n (Snapshot.Index ss) = Some (VSnapshot ss)
          ∧ (∀ i v, data (kvs r) !! SnapshotKey c n i = Some v → i ≤ Snapshot.Index ss)
          ∧ ∀ i, (Cache.trySaveSnapshot (cs r') c n i).1 = true
                 ↔ Snapshot.Index ss < i)).
Proof.
  intros Hok Hwf.
  destruct (listSnapshots_sorted c n r Hok Hwf) as (snaps & Hrun & Hsnaps & Hsorted).
  unfold getSnapshot. rewrite run_bind, Hrun.
  destruct (last snaps) as [ss|] eqn:Hlast.
  - exists ss. eexists. split; [reflexivity|]. split; [reflexivity|]. right.
    split; [|split].
    + apply Hsnaps. apply last_Some_elem_of. exact Hlast.
    + intros i v Hlook. destruct (Hwf i v Hlook) as (_ & s & -> & <-).
      apply (last_of_sorted (fun a b => Snapshot.Index a ≤ Snapshot.Index b) snaps ss);
        [intros a; lia|exact Hsorted|exact Hlast|].
      apply Hsnaps. exact Hlook.
    + intros i. simpl. unfold Cache.trySaveSnapshot, Cache.setSnapshotIndex. simpl.
      rewrite lookup_insert_eq. simpl.
      destruct (Snapshot.Index ss <? i) eqn:Hlt; simpl.
      * apply N.ltb_lt in Hlt. split; auto.
      * apply N.ltb_ge in Hlt. split; [discriminate|lia].
  - exists Snapshot.empty. eexists. split; [reflexivity|]. split; [reflexivity|]. left.
    split; [reflexivity|]. split; [reflexivity|].
    apply last_None in Hlast. subst snaps. intros i.
    destruct (data (kvs r) !! SnapshotKey c n i) as [v|] eqn:Hlook; [|reflexivity].
    destruct (Hwf i v Hlook) as (_ & s & -> & <-).
    apply Hsnaps in Hlook. inversion Hlook.
Qed.

Lemma getSnapshot_returns_highest_witness :
  let store : gmap Key Value :=
    <[SnapshotKey 1 1 3 := VSnapshot (Snapshot.mk 3 1 1 1)]>
      (<[SnapshotKey 1 1 7 := VSnapshot (Snapshot.mk 7 2 1 1)]> ∅) in
  let r := mkDb Cache.empty (mkKV store [] 0 []) newPlainEntries in
  ∃ ss r',
    getSnapshot 1 1 r = Done (ss, None) r'
    ∧ data (kvs r') = data (kvs r)
    ∧ ((ss = Snapshot.empty ∧ cs r' = cs r
        ∧ ∀ i, data (kvs r) !! SnapshotKey 1 1 i = None)
       ∨ (data (kvs r) !! SnapshotKey 1 1 (Snapshot.Index ss) = Some (VSnapshot ss)
          ∧ (∀ i v, data (kvs r) !! SnapshotKey 1 1 i = Some v → i ≤ Snapshot.Index ss)
          ∧ ∀ i, (Cache.trySaveSnapshot (cs r') 1 1 i).1 = true
                 ↔ Snapshot.Index ss < i)).
Proof.
  intros store r.
  refine (getSnapshot_returns_highest r 1 1 eq_refl _).
  intros i v Hlook. simpl in Hlook. unfold store in Hlook.
  repeat (rewrite lookup_insert in Hlook;
          destruct (decide _) as [Hk|_] in Hlook;
          [inversion Hk; inversion Hlook; subst; split;
           [intros Hgt; discriminate Hgt|eexists; split; reflexivity]|]).
  rewrite lookup_empty in Hlook. discriminate Hlook.
Defined.

(** ** Batches, once more *)

Lemma apply_batch_last_put (wb rest : pebbleWriteBatch) (k : Key) (v : Value)
    (m : gmap Key Value) :
  Forall (fun op => op_key op ≠ k) rest →
  apply_batch (wb ++ WbPut k v :: rest) m !! k = Some v.
Proof.
  intros Hrest. rewrite apply_batch_app.
  change (apply_batch (WbPut k v :: rest) (apply_batch wb m))
    with (apply_batch rest (<[k := v]> (apply_batch wb m))).
  rewrite apply_batch_untouched by exact Hrest. apply lookup_insert_eq.
Qed.

Lemma apply_batch_no_put (wb : pebbleWriteBatch) (k : Key) (m : gmap Key Value) :
  Forall (fun op => ∀ v, op ≠ WbPut k v) wb →
  WbDelete k ∈ wb ∨ m !! k = None →
  apply_batch wb m !! k = None.
Proof.
  revert m. induction wb as [|op wb IH]; intros m Hno Hk.
  - destruct Hk as [Hin|Hnone]; [inversion Hin|exact Hnone].
  - inversion Hno as [|? ? Hop Hrest]; subst.
    change (apply_batch (op :: wb) m) with (apply_batch wb (apply_op m op)).
    apply IH; [exact Hrest|].
    destruct op as [k' v'|k']; simpl.
    + assert (Hne : k' ≠ k) by (intros ->; exact (Hop v' eq_refl)).
      destruct Hk as [Hin|Hnone].
      * left. apply elem_of_cons in Hin as [Heq|Hin]; [discriminate Heq|exact Hin].
      * right. rewrite lookup_insert_ne by exact Hne. exact Hnone.
    + destruct (decide (k' = k)) as [->|Hne].
      * right. apply lookup_delete_eq.
      * destruct Hk as [Hin|Hnone].
        -- left. apply elem_of_cons in Hin as [Heq|Hin]; [congruence|exact Hin].
        -- right. rewrite lookup_delete_ne by exact Hne. exact Hnone.
Qed.

(** What [saveSnapshot] stages for a non-empty snapshot when the listing is
    served. *)
Lemma saveSnapshot_run (wb : pebbleWriteBatch) (ud : Update.t) (r : db) :
  IsEmptySnapshot (Update.Snapshot ud) = false →
  fault_at (kvs r) 0 = None →
  snapshot_records_wf (data (kvs r)) (Update.ClusterID ud) (Update.NodeID ud) →
  ∃ snaps,
    (∀ ss, ss ∈ snaps
           ↔ data (kvs r) !! SnapshotKey (Update.ClusterID ud) (Update.NodeID ud)
                               (Snapshot.Index ss) = Some (VSnapshot ss))
    ∧ saveSnapshot wb ud r
      = Done (wb
              ++ (WbDelete <$>
                    ((fun s => SnapshotKey (Update.ClusterID ud) (Update.NodeID ud)
                                 (Snapshot.Index s)) <$>
                       filter (fun s => (Snapshot.Index s
                                         <? Snapshot.Index (Update.Snapshot ud)) = true)
                         snaps))
              ++ [WbPut (SnapshotKey (Update.ClusterID ud) (Update.NodeID ud)
                           (Snapshot.Index (Update.Snapshot ud)))
                    (VSnapshot (Update.Snapshot ud))], None)
          (mkDb (cs r) (after_read (kvs r)) (entries r)).
Proof.
  intros Hne Hok Hwf.
  destruct (listSnapshots_served _ _ r Hok Hwf) as (snaps & Hrun & Hsnaps).
  exists snaps. split; [exact Hsnaps|].
  unfold saveSnapshot. rewrite Hne, run_bind, Hrun. simpl. rewrite run_ret.
  rewrite (stage_deletes_if
             (fun s => Snapshot.Index s <? Snapshot.Index (Update.Snapshot ud))
             (fun s => SnapshotKey (Update.ClusterID ud) (Update.NodeID ud)
                         (Snapshot.Index s))).
  unfold Put. rewrite <- app_assoc. reflexivity.
Qed.

(** ** Importing a snapshot *)

Lemma apply_batch_snoc_put (wb : pebbleWriteBatch) (k : Key) (v : Value)
    (m : gmap Key Value) :
  apply_batch (wb ++ [WbPut k v]) m = <[k := v]> (apply_batch wb m).
Proof. rewrite apply_batch_app. reflexivity. Qed.

Lemma snapshot_keys_only (c n : N) (snaps : list Snapshot.t) (k : Key) :
  ¬ is_snapshot_key_of c n k →
  k ∉ (fun s => SnapshotKey c n (Snapshot.Index s)) <$> snaps.
Proof.
  intros Hk Hin. apply list_elem_of_fmap in Hin as (s & -> & _).
  apply Hk. eexists. reflexivity.
Qed.

(** X5: [importSnapshot] of a snapshot with a known state machine type and a
    non-zero index, when the engine serves its two listings and the commit,
    replaces the records of the replica in one batch: the state becomes the
    term and index of the snapshot, the bootstrap record a joining one of the
    snapshot's type, the max index the snapshot index, and the snapshot is the
    only snapshot record left.  Every other record of the store stays, and
    the cache is not updated. *)
Theorem importSnapshot_replaces_replica (r : db) (ss : Snapshot.t) (nodeID : N) :
  Snapshot.Type_ ss ≠ UnknownStateMachine →
  Snapshot.Index ss ≠ 0 →
  snapshot_records_wf (data (kvs r)) (Snapshot.ClusterId ss) nodeID →
  fault_at (kvs r) 0 = None →
  fault_at (kvs r) 1 = None →
  fault_at (kvs r) 2 = None →
  ∃ wb r',
    importSnapshot ss nodeID r = Done None r'
    ∧ cs r' = cs r
    ∧ commits (kvs r') = wb :: commits (kvs r)
    ∧ data (kvs r') !! StateKey (Snapshot.ClusterId ss) nodeID
      = Some (VState (State.mk (Snapshot.Term ss) 0 (Snapshot.Index ss)))
    ∧ data (kvs r') !! BootstrapKey (Snapshot.ClusterId ss) nodeID
      = Some (VBootstrap (Bootstrap.mk true (Snapshot.Type_ ss)))
    ∧ data (kvs r') !! MaxIndexKey (Snapshot.ClusterId ss) nodeID
      = Some (VMaxIndex (Snapshot.Index ss))
    ∧ (∀ i, data (kvs r') !! SnapshotKey (Snapshot.ClusterId ss) nodeID i
            = if decide (i = Snapshot.Index ss) then Some (VSnapshot ss) else None)
    ∧ (∀ k, k ≠ StateKey (Snapshot.ClusterId ss) nodeID →
            k ≠ BootstrapKey (Snapshot.ClusterId ss) nodeID →
            k ≠ MaxIndexKey (Snapshot.ClusterId ss) nodeID →
            ¬ is_snapshot_key_of (Snapshot.ClusterId ss) nodeID k →
            data (kvs r') !! k = data (kvs r) !! k).
Proof.
  intros Htype Hidx Hwf H0 H1 H2.
  set (c := Snapshot.ClusterId ss) in *.
  destruct (listSnapshots_served c nodeID r H0 Hwf) as (snaps & Hrun & Hsnaps).
  set (r1 := mkDb (cs r) (after_read (kvs r)) (entries r)) in *.
  set (ud := Update.mk c nodeID State.empty [] ss).
  assert (Hne : IsEmptySnapshot (Update.Snapshot ud) = false).
  { unfold IsEmptySnapshot. simpl. apply N.eqb_neq. exact Hidx. }
  assert (H1' : fault_at (kvs r1) 0 = None).
  { unfold r1. cbn [kvs].
    rewrite (fault_at_next (kvs r) (after_read (kvs r)) 0 eq_refl). exact H1. }
  pose (sel := filter (fun curss => Snapshot.Index ss ≤ Snapshot.Index curss) snaps).
  pose (wb3 := (WbDelete <$> removed_keys sel c nodeID)
               ++ [WbPut (BootstrapKey c nodeID)
                     (VBootstrap (Bootstrap.mk true (Snapshot.Type_ ss)))]
               ++ [WbPut (StateKey c nodeID)
                     (VState (State.mk (Snapshot.Term ss) 0 (Snapshot.Index ss)))]).
  destruct (saveSnapshot_run wb3 ud r1 Hne H1' Hwf) as (snaps2 & Hsnaps2 & Hsave).
  cbn [Update.ClusterID Update.NodeID Update.Snapshot ud] in Hsave, Hsnaps2.
  set (ks2 := (fun s => SnapshotKey c nodeID (Snapshot.Index s)) <$>
                filter (fun s => (Snapshot.Index s <? Snapshot.Index ss) = true) snaps2)
    in *.
  set (W := (wb3 ++ (WbDelete <$> ks2) ++ [WbPut (SnapshotKey c nodeID (Snapshot.Index ss))
                                           (VSnapshot ss)])
            ++ [WbPut (MaxIndexKey c nodeID) (VMaxIndex (Snapshot.Index ss))]).
  assert (Hfinal : importSnapshot ss nodeID r
            = Done None
                (mkDb (cs r)
                   (mkKV (apply_batch W (data (kvs r)))
                      (tail (tail (tail (faults (kvs r))))) (S (S (reads (kvs r))))
                      (W :: commits (kvs r)))
                   (entries r))).
  { unfold importSnapshot. apply N.eqb_neq in Htype. rewrite Htype.
    fold c. rewrite run_bind, Hrun.
    change (getWriteBatch None) with (@nil wbOp).
    rewrite saveRemoveNodeData_keys. fold sel.
    unfold saveBootstrap, saveStateAllocs, Put. rewrite <- app_assoc.
    fold wb3. fold ud. rewrite run_bind, Hsave.
    unfold saveMaxIndex, Put. fold W. unfold onKV.
    rewrite CommitWriteBatch_served; [reflexivity|].
    cbn [kvs r1].
    match goal with
    | |- fault_at ?kv 0 = None =>
        rewrite (fault_at_next (after_read (kvs r)) kv 0 eq_refl)
    end.
    rewrite (fault_at_next (kvs r) (after_read (kvs r)) 1 eq_refl). exact H2. }
  assert (Hdata : apply_batch W (data (kvs r))
            = <[MaxIndexKey c nodeID := VMaxIndex (Snapshot.Index ss)]>
                (<[SnapshotKey c nodeID (Snapshot.Index ss) := VSnapshot ss]>
                   (apply_batch (WbDelete <$> ks2)
                      (<[StateKey c nodeID
                         := VState (State.mk (Snapshot.Term ss) 0 (Snapshot.Index ss))]>
                         (<[BootstrapKey c nodeID
                            := VBootstrap (Bootstrap.mk true (Snapshot.Type_ ss))]>
                            (apply_batch (WbDelete <$> removed_keys sel c nodeID)
                               (data (kvs r)))))))).
  { unfold W, wb3. rewrite apply_batch_snoc_put.
    rewrite (app_assoc _ (WbDelete <$> ks2)). rewrite apply_batch_snoc_put.
    rewrite apply_batch_app. rewrite (app_assoc _ [_] [_]).
    rewrite !apply_batch_snoc_put. reflexivity. }
  assert (Hks2 : ∀ k, ¬ is_snapshot_key_of c nodeID k → k ∉ ks2).
  { intros k Hk. apply snapshot_keys_only. exact Hk. }
  assert (Hks1 : ∀ k, k ≠ StateKey c nodeID → k ≠ BootstrapKey c nodeID →
                      k ≠ MaxIndexKey c nodeID → ¬ is_snapshot_key_of c nodeID k →
                      k ∉ removed_keys sel c nodeID).
  { intros k Hs Hb Hm Hk Hin. unfold removed_keys in Hin.
    repeat (apply elem_of_cons in Hin as [Hin|Hin]; [congruence|]).
    exact (snapshot_keys_only c nodeID sel k Hk Hin). }
  assert (Hnosnap : ∀ k, (∃ c' n', k = StateKey c' n' ∨ k = BootstrapKey c' n'
                                   ∨ k = MaxIndexKey c' n') →
                         ¬ is_snapshot_key_of c nodeID k).
  { intros k (c' & n' & [ -> | [ -> | -> ] ]) (i & Heq); discriminate Heq. }
  eexists W, _. split; [exact Hfinal|]. cbn [cs kvs data commits].
  split; [reflexivity|]. split; [reflexivity|]. rewrite Hdata.
  split; [|split; [|split; [|split]]].
  - rewrite lookup_insert_ne by discriminate.
    rewrite lookup_insert_ne by discriminate.
    rewrite apply_deletes_other by (apply Hks2, Hnosnap; eauto).
    apply lookup_insert_eq.
  - rewrite lookup_insert_ne by discriminate.
    rewrite lookup_insert_ne by discriminate.
    rewrite apply_deletes_other by (apply Hks2, Hnosnap; eauto 6).
    rewrite lookup_insert_ne by discriminate.
    apply lookup_insert_eq.
  - apply lookup_insert_eq.
  - intros i. rewrite lookup_insert_ne by discriminate.
    destruct (decide (i = Snapshot.Index ss)) as [->|Hi].
    + apply lookup_insert_eq.
    + rewrite lookup_insert_ne by congruence.
      apply apply_deletes_lookup.
      destruct (data (kvs r) !! SnapshotKey c nodeID i) as [v|] eqn:Hlook.
      * destruct (Hwf i v Hlook) as (_ & s & -> & <-).
        destruct (decide (Snapshot.Index s < Snapshot.Index ss)) as [Hlt|Hge].
        -- left. unfold ks2.
           apply (list_elem_of_fmap_2 (fun s => SnapshotKey c nodeID (Snapshot.Index s))).
           apply list_elem_of_filter. split; [apply N.ltb_lt; exact Hlt|].
           apply Hsnaps2. exact Hlook.
        -- right. rewrite lookup_insert_ne by discriminate.
           rewrite lookup_insert_ne by discriminate.
           apply apply_deletes_lookup. left. unfold removed_keys. do 3 right.
           apply (list_elem_of_fmap_2 (fun s => SnapshotKey c nodeID (Snapshot.Index s))).
           apply list_elem_of_filter. split; [lia|].
           apply Hsnaps. exact Hlook.
      * right. rewrite lookup_insert_ne by discriminate.
        rewrite lookup_insert_ne by discriminate.
        apply apply_deletes_lookup. right. exact Hlook.
  - intros k Hs Hb Hm Hk.
    rewrite lookup_insert_ne by congruence.
    rewrite lookup_insert_ne by (intros <-; apply Hk; eexists; reflexivity).
    rewrite apply_deletes_other by (apply Hks2; exact Hk).
    rewrite lookup_insert_ne by congruence.
    rewrite lookup_insert_ne by congruence.
    apply apply_deletes_other. apply Hks1; assumption.
Qed.

Lemma importSnapshot_replaces_replica_witness :
  let store : gmap Key Value :=
    <[StateKey 1 1 := VState (State.mk 1 1 2)]>
      (<[SnapshotKey 1 1 3 := VSnapshot (Snapshot.mk 3 1 1 1)]>
         (<[SnapshotKey 1 1 9 := VSnapshot (Snapshot.mk 9 2 1 1)]>
            (<[EntryKey 1 1 4 := VEntry (Entry.mk 1 4 [])]> ∅))) in
  let r := mkDb Cache.empty (mkKV store [] 0 []) newPlainEntries in
  let ss := Snapshot.mk 5 2 1 1 in
  ∃ wb r',
    importSnapshot ss 1 r = Done None r'
    ∧ cs r' = cs r
    ∧ commits (kvs r') = wb :: commits (kvs r)
    ∧ data (kvs r') !! StateKey 1 1 = Some (VState (State.mk 2 0 5))
    ∧ data (kvs r') !! BootstrapKey 1 1 = Some (VBootstrap (Bootstrap.mk true 1))
    ∧ data (kvs r') !! MaxIndexKey 1 1 = Some (VMaxIndex 5)
    ∧ (∀ i, data (kvs r') !! SnapshotKey 1 1 i
            = if decide (i = 5) then Some (VSnapshot ss) else None)
    ∧ (∀ k, k ≠ StateKey 1 1 → k ≠ BootstrapKey 1 1 → k ≠ MaxIndexKey 1 1 →
            ¬ is_snapshot_key_of 1 1 k →
            data (kvs r') !! k = data (kvs r) !! k).
Proof.
  intros store r ss.
  refine (importSnapshot_replaces_replica r ss 1 _ _ _ eq_refl eq_refl eq_refl).
  - intros Heq. discriminate Heq.
  - intros Heq. discriminate Heq.
  - intros i v Hlook. simpl in Hlook. unfold store in Hlook.
    repeat (rewrite lookup_insert in Hlook;
            destruct (decide _) as [Hk|_] in Hlook;
            [first [discriminate Hk
                   |inversion Hk; inversion Hlook; subst; split;
                    [intros Hgt; discriminate Hgt|eexists; split; reflexivity]]|]).
    rewrite lookup_empty in Hlook. discriminate Hlook.
Defined.

(** ** Removal and the other replicas *)

Lemma entry_range_of_replica (c n : N) (k : Key) :
  parseNodeInfoKey k ≠ (c, n) →
  in_range (EntryKey c n 0) (EntryKey c n MaxUint64) true k = false.
Proof.
  intros Hother.
  destruct (in_range _ _ true k) eqn:Hrange; [|reflexivity].
  apply in_range_entry in Hrange as (i & -> & _). contradiction Hother. reflexivity.
Qed.

Lemma removed_keys_of_replica (snaps : list Snapshot.t) (c n : N) (k : Key) :
  parseNodeInfoKey k ≠ (c, n) → k ∉ removed_keys snaps c n.
Proof.
  intros Hother Hin. unfold removed_keys in Hin.
  repeat (apply elem_of_cons in Hin as [->|Hin]; [contradiction Hother; reflexivity|]).
  apply list_elem_of_fmap in Hin as (s & -> & _). contradiction Hother. reflexivity.
Qed.

(** X6: whatever the engine does, and however the call ends, [removeNodeData]
    leaves every record of every other replica in the store as it was. *)
Theorem removeNodeData_spares_other_replicas (r : db) (c n : N) (k : Key) :
  entries r = newPlainEntries →
  parseNodeInfoKey k ≠ (c, n) →
  data (kvs (final (removeNodeData c n r))) !! k = data (kvs r) !! k.
Proof.
  intros Hplain Hother. unfold removeNodeData. rewrite run_bind.
  pose proof (listSnapshots_persisted c n MaxUint64 r) as Hp.
  pose proof (listSnapshots_entries c n MaxUint64 r) as He.
  destruct (listSnapshots c n MaxUint64 r) as [[snaps err] r1|p r1];
    simpl in Hp, He; apply persisted_inv in Hp as [Hd _].
  2: { simpl. rewrite Hd. reflexivity. }
  destruct err as [e|]; [simpl; rewrite Hd; reflexivity|].
  change (getWriteBatch None) with (@nil wbOp). rewrite saveRemoveNodeData_keys.
  rewrite run_bind. unfold onKV at 1, CommitWriteBatch.
  destruct (next_fault (kvs r1)) as [code|]; [simpl; rewrite Hd; reflexivity|].
  rewrite run_bind. unfold onCache, state. cbn [kvs cs entries].
  unfold removeEntriesTo. rewrite run_bind. unfold receiver, state.
  cbn [kvs cs entries]. rewrite He, Hplain. cbn [rangedOp newPlainEntries].
  unfold Plain.rangedOp, onKV, BulkRemoveEntries. cbn [kvs cs entries].
  assert (Hbatch : apply_batch (WbDelete <$> removed_keys snaps c n) (data (kvs r1)) !! k
                   = data (kvs r) !! k).
  { rewrite apply_deletes_other by (apply removed_keys_of_replica; exact Hother).
    rewrite Hd. reflexivity. }
  match goal with
  | |- context [next_fault ?kv] => destruct (next_fault kv) as [code|]
  end; cbn [final kvs data served].
  - exact Hbatch.
  - rewrite <- Hbatch.
    destruct (apply_batch (WbDelete <$> removed_keys snaps c n) (data (kvs r1)) !! k)
      as [v|] eqn:Hlook.
    + apply map_lookup_filter_Some. split; [exact Hlook|]. simpl.
      apply entry_range_of_replica. exact Hother.
    + apply map_lookup_filter_None. left. exact Hlook.
Qed.

Lemma removeNodeData_spares_other_replicas_witness :
  let store : gmap Key Value :=
    <[StateKey 1 1 := VState (State.mk 1 1 2)]>
      (<[EntryKey 1 1 4 := VEntry (Entry.mk 1 4 [])]>
         (<[EntryKey 1 2 4 := VEntry (Entry.mk 1 4 [])]> ∅)) in
  let r := mkDb Cache.empty (mkKV store [] 0 []) newPlainEntries in
  data (kvs (final (removeNodeData 1 1 r))) !! EntryKey 1 2 4
  = data (kvs r) !! EntryKey 1 2 4.
Proof.
  intros store r.
  refine (removeNodeData_spares_other_replicas r 1 1 (EntryKey 1 2 4) eq_refl _).
  intros Heq. discriminate Heq.
Defined.

(** ** Snapshots the cache turns down *)

Lemma trySaveSnapshot_rejected (c : Cache.t) (clusterID nodeID index : N) :
  (Cache.trySaveSnapshot c clusterID nodeID index).1 = false →
  Cache.trySaveSnapshot c clusterID nodeID index = (false, c).
Proof.
  unfold Cache.trySaveSnapshot. destruct (_ <? _); [discriminate|reflexivity].
Qed.

Lemma saveSnapshots_loop_nothing (updates : list Update.t) (wb : pebbleWriteBatch)
    (toSave : bool) (r : db) :
  Forall (nothing_to_snapshot (cs r)) updates →
  saveSnapshots_loop updates wb toSave r = Done (wb, toSave, false) r.
Proof.
  intros Hall. induction Hall as [|ud updates Hud Hall IH]; simpl; [reflexivity|].
  destruct (IsEmptySnapshot (Update.Snapshot ud)) eqn:Hempty; [exact IH|].
  destruct Hud as [Hud|Hud]; [congruence|].
  rewrite run_bind. unfold onCache, state.
  rewrite (trySaveSnapshot_rejected _ _ _ _ Hud). simpl.
  destruct r. exact IH.
Qed.

Lemma saveSnapshots_nothing (updates : list Update.t) (r : db) :
  Forall (nothing_to_snapshot (cs r)) updates →
  saveSnapshots updates r = Done None r.
Proof.
  intros Hall. unfold saveSnapshots. rewrite run_bind.
  rewrite saveSnapshots_loop_nothing by exact Hall. reflexivity.
Qed.

(** X7: when every update carries an empty snapshot or one the cache turns
    down (its index is not above the last snapshot index of the replica),
    [saveSnapshots] returns nil without a single engine call: the cache and
    the store, its read count and commit log included, are as before. *)
Theorem saveSnapshots_skips_stale (updates : list Update.t) (r : db) :
  Forall (nothing_to_snapshot (cs r)) updates →
  saveSnapshots updates r = Done None r.
Proof. exact (saveSnapshots_nothing updates r). Qed.

Lemma saveSnapshots_skips_stale_witness :
  let r := mkDb (Cache.mk ∅ ∅ {[(1, 1) := 7]}) (mkKV ∅ [Some 3] 0 []) newPlainEntries in
  saveSnapshots [Update.mk 1 1 State.empty [] (Snapshot.mk 7 2 1 1);
                 Update.mk 1 1 State.empty [] (Snapshot.mk 5 2 1 1);
                 Update.mk 2 1 State.empty [] Snapshot.empty] r
  = Done None r.
Proof.
  intros r. apply (saveSnapshots_skips_stale _ r).
  apply Forall_cons. split; [right; reflexivity|].
  apply Forall_cons. split; [right; reflexivity|].
  apply Forall_cons. split; [left; reflexivity|].
  apply Forall_nil_2.
Defined.

(** ** A state on its own *)

Lemma saveState_run (c n : N) (st : State.t) (wb : pebbleWriteBatch) (ctx : Context)
    (r : db) :
  IsEmptyState st = false →
  Cache.lastState (cs r) !! (c, n) ≠ Some st →
  saveState c n st wb (Some ctx) r
  = Done (Put wb (StateKey c n) (VState st))
      (mkDb (Cache.mk (Cache.lastMaxIndex (cs r))
               (<[(c, n) := st]> (Cache.lastState (cs r)))
               (Cache.lastSnapshotIndex (cs r)))
         (kvs r) (entries r)).
Proof.
  intros Hne Hdiff. unfold saveState. rewrite Hne, run_bind.
  unfold onCache, state, Cache.setState. rewrite decide_False by exact Hdiff.
  reflexivity.
Qed.

Lemma saveState_unchanged (c n : N) (st : State.t) (wb : pebbleWriteBatch)
    (ctx : IContext) (r : db) :
  Cache.lastState (cs r) !! (c, n) = Some st →
  saveState c n st wb ctx r = Done wb r.
Proof.
  intros Hsame. unfold saveState. destruct (IsEmptyState st); [reflexivity|].
  rewrite run_bind. unfold onCache, state, Cache.setState.
  rewrite decide_True by exact Hsame. destruct r. reflexivity.
Qed.

(** The run of [saveRaftState] on one update that carries a state only, up
    to the commit. *)
Lemma saveRaftState_state_only (ud : Update.t) (ctx : IContext) (r r1 : db)
    (wb : pebbleWriteBatch) :
  state_only ud →
  saveState (Update.ClusterID ud) (Update.NodeID ud) (Update.State ud)
    (getWriteBatch ctx) ctx r = Done wb r1 →
  saveRaftState [ud] ctx r
  = if (0 <? Count wb)%nat
    then (err ← onKV (CommitWriteBatch wb); mret (err, wb)) r1
    else Done (None, wb) r1.
Proof.
  intros [Hents Hsnap] Hstate. unfold saveRaftState. rewrite run_bind.
  simpl saveRaftState_loop. rewrite run_bind. unfold saveRaftState_body.
  rewrite run_bind, Hstate, Hsnap. simpl.
  rewrite Hents. simpl. rewrite run_bind. simpl.
  destruct (0 <? Count wb)%nat; reflexivity.
Qed.

(** X8: the cache is updated before the commit.  When the engine refuses the
    commit of an update that carries a new state only, [saveRaftState]
    returns the error with the store unchanged, but the cache already holds
    the state: the same update submitted again, with a fresh batch, stages
    nothing, commits nothing and returns nil, so the state is not
    persisted. *)
Theorem saveRaftState_retry_after_failed_commit (r : db) (ud : Update.t)
    (ctx : Context) (code : N) :
  state_only ud →
  IsEmptyState (Update.State ud) = false →
  Cache.lastState (cs r) !! (Update.ClusterID ud, Update.NodeID ud)
    ≠ Some (Update.State ud) →
  fault_at (kvs r) 0 = Some code →
  ∃ wb r1,
    saveRaftState [ud] (Some ctx) r = Done (Some (StorageIO code), wb) r1
    ∧ data (kvs r1) = data (kvs r)
    ∧ ∀ ctx', getWriteBatch ctx' = [] →
              saveRaftState [ud] ctx' r1 = Done (None, []) r1.
Proof.
  intros Honly Hne Hdiff Hf.
  pose proof (saveState_run (Update.ClusterID ud) (Update.NodeID ud) (Update.State ud)
                (getWriteBatch (Some ctx)) ctx r Hne Hdiff) as Hstate.
  eexists _, _. split; [|split].
  - rewrite (saveRaftState_state_only ud (Some ctx) r _ _ Honly Hstate).
    assert (Hpos : (0 <? Count (Put (getWriteBatch (Some ctx))
                                  (StateKey (Update.ClusterID ud) (Update.NodeID ud))
                                  (VState (Update.State ud))))%nat = true).
    { apply Nat.ltb_lt. unfold Put, Count. rewrite length_app. simpl. lia. }
    rewrite Hpos. rewrite run_bind. unfold onKV. cbn [kvs cs entries].
    rewrite (CommitWriteBatch_failed _ _ code Hf). reflexivity.
  - reflexivity.
  - intros ctx' Hfresh.
    match goal with
    | |- saveRaftState _ _ ?r1 = _ =>
        assert (Hagain : saveState (Update.ClusterID ud) (Update.NodeID ud)
                           (Update.State ud) (getWriteBatch ctx') ctx' r1
                         = Done [] r1)
    end.
    { rewrite Hfresh. apply saveState_unchanged. simpl. apply lookup_insert_eq. }
    rewrite (saveRaftState_state_only ud ctx' _ _ _ Honly Hagain). reflexivity.
Qed.

Lemma saveRaftState_retry_after_failed_commit_witness :
  let r := mkDb Cache.empty (mkKV ∅ [Some 5] 0 []) newPlainEntries in
  let ud := Update.mk 1 1 (State.mk 2 1 3) [] Snapshot.empty in
  ∃ wb r1,
    saveRaftState [ud] (Some (mkContext None)) r = Done (Some (StorageIO 5), wb) r1
    ∧ data (kvs r1) = data (kvs r)
    ∧ ∀ ctx', getWriteBatch ctx' = [] →
              saveRaftState [ud] ctx' r1 = Done (None, []) r1.
Proof.
  intros r ud.
  refine (saveRaftState_retry_after_failed_commit r ud (mkContext None) 5
            (conj eq_refl eq_refl) eq_refl _ eq_refl).
  intros Heq. discriminate Heq.
Defined.

(** X9: an update that carries a new state only, committed by
    [saveRaftState] in a batch that held nothing else, is what [getState]
    returns for the replica afterwards, when the engine serves the commit and
    the read. *)
Theorem saveRaftState_state_round_trip (r : db) (ud : Update.t) (ctx : Context) :
  state_only ud →
  IsEmptyState (Update.State ud) = false →
  Cache.lastState (cs r) !! (Update.ClusterID ud, Update.NodeID ud)
    ≠ Some (Update.State ud) →
  getWriteBatch (Some ctx) = [] →
  fault_at (kvs r) 0 = None →
  fault_at (kvs r) 1 = None →
  ∃ r1 r2,
    saveRaftState [ud] (Some ctx) r
    = Done (None, [WbPut (StateKey (Update.ClusterID ud) (Update.NodeID ud))
                     (VState (Update.State ud))]) r1
    ∧ getState (Update.ClusterID ud) (Update.NodeID ud) r1
      = Done (Update.State ud, None) r2
    ∧ ∀ k, k ≠ StateKey (Update.ClusterID ud) (Update.NodeID ud) →
           data (kvs r1) !! k = data (kvs r) !! k.
Proof.
  intros Honly Hne Hdiff Hfresh H0 H1.
  pose proof (saveState_run (Update.ClusterID ud) (Update.NodeID ud) (Update.State ud)
                (getWriteBatch (Some ctx)) ctx r Hne Hdiff) as Hstate.
  pose proof (saveRaftState_state_only ud (Some ctx) r _ _ Honly Hstate) as Hrun.
  rewrite Hfresh in Hrun.
  eexists _, _. split; [|split].
  - rewrite Hrun. simpl. rewrite run_bind. unfold onKV. cbn [kvs cs entries].
    rewrite (CommitWriteBatch_served _ _ H0). reflexivity.
  - unfold getState. rewrite run_bind. unfold onKV. cbn [kvs cs entries].
    rewrite GetValue_served.
    + cbn [data]. unfold Put. simpl. rewrite lookup_insert_eq. reflexivity.
    + rewrite next_fault_at.
      match goal with
      | |- fault_at ?kv 0 = None => rewrite (fault_at_next (kvs r) kv 0 eq_refl)
      end.
      exact H1.
  - intros k Hk. cbn [kvs data]. unfold Put. simpl.
    apply lookup_insert_ne. congruence.
Qed.

Lemma saveRaftState_state_round_trip_witness :
  let r := mkDb Cache.empty (mkKV ∅ [] 0 []) newPlainEntries in
  let ud := Update.mk 1 1 (State.mk 2 1 3) [] Snapshot.empty in
  ∃ r1 r2,
    saveRaftState [ud] (Some (mkContext None)) r
    = Done (None, [WbPut (StateKey 1 1) (VState (State.mk 2 1 3))]) r1
    ∧ getState 1 1 r1 = Done (State.mk 2 1 3, None) r2
    ∧ ∀ k, k ≠ StateKey 1 1 → data (kvs r1) !! k = data (kvs r) !! k.
Proof.
  intros r ud.
  refine (saveRaftState_state_round_trip r ud (mkContext None)
            (conj eq_refl eq_refl) eq_refl _ eq_refl eq_refl eq_refl).
  intros Heq. discriminate Heq.
Defined.


(** ** Reading the state of a replica *)

(** X10: [readRaftState] answers without the entry manager in two cases,
    whatever the manager's [getRange] is.  For a replica with nothing cached
    or stored it returns [ErrNoSavedLog] (the range lookup itself succeeds
    with the snapshot index and no entry); for a replica whose cached max
    index equals the snapshot index it returns the stored state with that
    index as first index and an entry count of 0. *)
Theorem readRaftState_without_entries
    (G : N → N → N → N → M KV (N * N * option error)) (r : db) (c n si : N) :
  (Cache.getMaxIndex (cs r) c n = None →
   data (kvs r) !! MaxIndexKey c n = None →
   data (kvs r) !! StateKey c n = None →
   fault_at (kvs r) 0 = None →
   fault_at (kvs r) 1 = None →
   returned (getRange G c n si r) = Some (si, 0, None)
   ∧ returned (readRaftState G c n si r) = Some (RaftState.empty, Some ErrNoSavedLog))
  ∧ (∀ st,
       Cache.getMaxIndex (cs r) c n = Some si →
       data (kvs r) !! StateKey c n = Some (VState st) →
       fault_at (kvs r) 0 = None →
       returned (readRaftState G c n si r) = Some (RaftState.mk st si 0, None)).
Proof.
  split.
  - intros Hmiss Hmax Hstate H0 H1.
    pose proof (getMaxIndex_miss c n r Hmiss H0) as Hrun. rewrite Hmax in Hrun.
    assert (Hrange : getRange G c n si r
              = Done (si, 0, None) (mkDb (cs r) (after_read (kvs r)) (entries r))).
    { unfold getRange. rewrite run_bind, Hrun.
      rewrite decide_True by reflexivity. reflexivity. }
    split; [rewrite Hrange; reflexivity|].
    unfold readRaftState. rewrite run_bind, Hrange. simpl.
    rewrite run_bind. unfold getState. rewrite run_bind. unfold onKV.
    cbn [kvs cs entries]. rewrite GetValue_served.
    + cbn [data after_read]. rewrite Hstate. reflexivity.
    + rewrite next_fault_at.
      rewrite (fault_at_next (kvs r) (after_read (kvs r)) 0 eq_refl). exact H1.
  - intros st Hhit Hstate H0.
    unfold readRaftState. rewrite run_bind. unfold getRange.
    rewrite run_bind, (getMaxIndex_hit c n si r Hhit).
    rewrite decide_False by discriminate. rewrite N.eqb_refl. simpl.
    rewrite run_bind. unfold getState. rewrite run_bind. unfold onKV.
    rewrite GetValue_served by (rewrite next_fault_at; exact H0).
    rewrite Hstate. reflexivity.
Qed.

Lemma readRaftState_without_entries_witness :
  let G : N → N → N → N → M KV (N * N * option error) :=
    fun _ _ _ _ => mret (0, 0, Some (StorageIO 1)) in
  let fresh := mkDb Cache.empty (mkKV ∅ [] 0 []) newPlainEntries in
  let r := mkDb (Cache.mk {[(1, 1) := 5]} ∅ ∅)
             (mkKV {[StateKey 1 1 := VState (State.mk 2 1 5)]} [] 0 [])
             newPlainEntries in
  (returned (getRange G 1 1 5 fresh) = Some (5, 0, None)
   ∧ returned (readRaftState G 1 1 5 fresh) = Some (RaftState.empty, Some ErrNoSavedLog))
  ∧ returned (readRaftState G 1 1 5 r) = Some (RaftState.mk (State.mk 2 1 5) 5 0, None).
Proof.
  intros G fresh r. split.
  - exact (proj1 (readRaftState_without_entries G fresh 1 1 5)
             eq_refl eq_refl eq_refl eq_refl eq_refl).
  - exact (proj2 (readRaftState_without_entries G r 1 1 5)
             (State.mk 2 1 5) eq_refl eq_refl eq_refl).
Defined.

(** ** Memory estimate of a configuration *)

(** X11: as long as the product of the write buffer size, the number of write
    buffers and the number of shards fits in 64 bits, [MemorySizeMB] is that
    product in MBytes, rounded down.  The four presets stay within this and
    give the sizes their comments promise: 256, 1024, 4096 and 8192 MBytes
    (the default being the large one). *)
Theorem MemorySizeMB_is_the_product (cfg : LogDBConfig.t) :
  (LogDBConfig.KVWriteBufferSize cfg * LogDBConfig.KVMaxWriteBufferNumber cfg
     * LogDBConfig.Shards cfg < 2 ^ 64 →
   MemorySizeMB cfg
   = LogDBConfig.KVWriteBufferSize cfg * LogDBConfig.KVMaxWriteBufferNumber cfg
       * LogDBConfig.Shards cfg / 2 ^ 20)
  ∧ MemorySizeMB GetTinyMemLogDBConfig = 256
  ∧ MemorySizeMB GetSmallMemLogDBConfig = 1024
  ∧ MemorySizeMB GetMediumMemLogDBConfig = 4096
  ∧ MemorySizeMB GetLargeMemLogDBConfig = 8192
  ∧ MemorySizeMB GetDefaultLogDBConfig = 8192.
Proof.
  split; [|repeat split; vm_compute; reflexivity].
  intros Hfit. unfold MemorySizeMB, mul64.
  set (w := LogDBConfig.KVWriteBufferSize cfg) in *.
  set (b := LogDBConfig.KVMaxWriteBufferNumber cfg) in *.
  set (s := LogDBConfig.Shards cfg) in *.
  destruct (N.eq_dec s 0) as [->|Hs].
  - rewrite !N.mul_0_r. reflexivity.
  - assert (Hwb : w * b < 2 ^ 64) by nia.
    rewrite (N.mod_small (w * b)) by exact Hwb.
    rewrite (N.mod_small (w * b * s)) by exact Hfit.
    reflexivity.
Qed.

Lemma MemorySizeMB_is_the_product_witness :
  MemorySizeMB (LogDBConfig.withKVWriteBufferSize getDefaultLogDBConfig (3 * 1024 * 1024))
  = 3 * 1024 * 1024 * 4 * 16 / 2 ^ 20.
Proof.
  refine (proj1 (MemorySizeMB_is_the_product
                   (LogDBConfig.withKVWriteBufferSize getDefaultLogDBConfig
                      (3 * 1024 * 1024))) _); vm_compute; reflexivity.
Defined.

(** ** Directories of the shards *)

Lemma NewLogDB_loop (k : N) (d : string) (ls : list string) (req : bool) (l0 : string) :
  head ls = Some l0 ∨ req = false →
  N.iter k
    (fun '(dirs, lldirs) =>
       (dirs ++ option_list (head dirs),
        if req then lldirs ++ option_list (head lldirs) else lldirs))
    ([d], ls)
  = (d :: replicate (N.to_nat k) d,
     if req then ls ++ replicate (N.to_nat k) l0 else ls).
Proof.
  intros Hhead. induction k as [|k IH] using N.peano_ind.
  - simpl. destruct req; [rewrite app_nil_r|]; reflexivity.
  - rewrite N.iter_succ, IH, N2Nat.inj_succ.
    rewrite (replicate_S_end _ d), (replicate_S_end _ l0).
    simpl. f_equal.
    destruct req; [|reflexivity].
    destruct Hhead as [Hhead|Hreq]; [|discriminate Hreq].
    destruct ls as [|l ls]; [discriminate Hhead|]. simpl in *.
    inversion Hhead. subst. rewrite <- app_assoc. reflexivity.
Qed.

(** X12: when [checkDirs] lets the directories through and there is at least
    one shard, [NewLogDB] hands on exactly one regular directory per shard
    and either no low-latency directory or one per regular directory, all of
    them taken from the directories it was given; with a single regular
    directory, every shard gets that one. *)
Theorem NewLogDB_one_directory_per_shard (shards : N) (dirs lldirs dirs' lldirs'
    : list string) :
  1 ≤ shards →
  NewLogDB shards dirs lldirs = inr (dirs', lldirs') →
  N.of_nat (length dirs') = shards
  ∧ (lldirs' = [] ∨ length lldirs' = length dirs')
  ∧ (∀ d, d ∈ dirs' → d ∈ dirs)
  ∧ (∀ d, d ∈ lldirs' → d ∈ lldirs)
  ∧ (∀ d, dirs = [d] → dirs' = replicate (N.to_nat shards) d).
Proof.
  intros Hshards Hrun. unfold NewLogDB in Hrun.
  destruct (checkDirs shards dirs lldirs) as [p|] eqn:Hcheck; [discriminate Hrun|].
  unfold checkDirs in Hcheck.
  destruct (length dirs =? 1)%nat eqn:Hone.
  - apply Nat.eqb_eq in Hone.
    destruct dirs as [|d [|d2 dirs]]; try discriminate Hone. clear Hone.
    assert (Hk : N.to_nat shards = S (N.to_nat (shards - 1))) by lia.
    destruct lldirs as [|l0 [|l1 lldirs]]; simpl in Hcheck; try discriminate Hcheck.
    + assert (Heq : (d :: replicate (N.to_nat (shards - 1)) d, @nil string)
                      = (dirs', lldirs')).
      { rewrite <- (NewLogDB_loop (shards - 1) d [] false d (or_intror eq_refl)).
        injection Hrun as Hrun. exact Hrun. }
      inversion Heq. subst. clear Hrun Heq.
      split; [simpl; rewrite length_replicate; lia|].
      split; [left; reflexivity|].
      split.
      { intros d' Hin. apply elem_of_cons in Hin as [->|Hin]; [left|].
        apply elem_of_replicate in Hin as [-> _]. left. }
      split; [intros d' Hin; inversion Hin|].
      intros d' Heq. inversion Heq. subst. rewrite Hk. reflexivity.
    + assert (Heq : (d :: replicate (N.to_nat (shards - 1)) d,
                       [l0] ++ replicate (N.to_nat (shards - 1)) l0)
                      = (dirs', lldirs')).
      { rewrite <- (NewLogDB_loop (shards - 1) d [l0] true l0 (or_introl eq_refl)).
        injection Hrun as Hrun. exact Hrun. }
      inversion Heq. subst. clear Hrun Heq.
      split; [simpl; rewrite length_replicate; lia|].
      split; [right; simpl; rewrite !length_replicate; reflexivity|].
      split.
      { intros d' Hin. apply elem_of_cons in Hin as [->|Hin]; [left|].
        apply elem_of_replicate in Hin as [-> _]. left. }
      split.
      { intros d' Hin. apply elem_of_cons in Hin as [->|Hin]; [left|].
        apply elem_of_replicate in Hin as [-> _]. left. }
      intros d' Heq. inversion Heq. subst. rewrite Hk. reflexivity.
  - inversion Hrun. subst. clear Hrun.
    destruct (1 <? length dirs')%nat eqn:Hmany; [|discriminate Hcheck].
    destruct (N.of_nat (length dirs') =? shards) eqn:Hcount;
      simpl in Hcheck; [|discriminate Hcheck].
    apply N.eqb_eq in Hcount. split; [exact Hcount|].
    split.
    { destruct (0 <? length lldirs')%nat eqn:Hll.
      - destruct (length dirs' =? length lldirs')%nat eqn:Hsame;
          simpl in Hcheck; [|discriminate Hcheck].
        apply Nat.eqb_eq in Hsame. right. symmetry. exact Hsame.
      - left. apply Nat.ltb_ge in Hll. destruct lldirs'; [reflexivity|simpl in Hll; lia]. }
    split; [auto|]. split; [auto|].
    intros d Heq. subst. discriminate Hone.
Qed.

Lemma NewLogDB_one_directory_per_shard_witness :
  N.of_nat (length (replicate 4 "/data"%string)) = 4
  ∧ (replicate 4 "/wal"%string = [] ∨
     length (replicate 4 "/wal"%string) = length (replicate 4 "/data"%string))
  ∧ (∀ d, d ∈ replicate 4 "/data"%string → d ∈ ["/data"%string])
  ∧ (∀ d, d ∈ replicate 4 "/wal"%string → d ∈ ["/wal"%string])
  ∧ (∀ d, ["/data"%string] = [d] → replicate 4 "/data"%string = replicate (N.to_nat 4) d).
Proof.
  refine (NewLogDB_one_directory_per_shard 4 ["/data"%string] ["/wal"%string]
            (replicate 4 "/data"%string) (replicate 4 "/wal"%string) _ eq_refl).
  intros Hgt. discriminate Hgt.
Defined.

(** Without a shard the single directory is handed on alone, and without a
    regular directory the call panics. *)
Example NewLogDB_edges :
  NewLogDB 0 ["/data"%string] [] = inr (["/data"%string], [])
  ∧ NewLogDB 4 [] ["/wal"%string] = inl NoRegularDir
  ∧ NewLogDB 4 ["/a"%string; "/b"%string] [] = inl (RegularDirsMismatch 2 4)
  ∧ NewLogDB 4 ["/a"%string] ["/x"%string; "/y"%string] = inl (OnlyOneRegularDir 2).
Proof. repeat split. Qed.
(** ** A snapshot on its own *)

(** X13: an update that carries only a snapshot the cache accepts, above
    every snapshot record stored for the replica, is committed by
    [saveRaftState] in one batch when the engine serves the listing and the
    commit; afterwards [getSnapshot] returns that snapshot, the stored max
    index is its index, and [getMaxIndex] answers with that index from the
    cache, without reading the store. *)
Theorem saveRaftState_snapshot_round_trip (r : db) (ud : Update.t) (ctx : IContext) :
  IsEmptyState (Update.State ud) = true →
  Update.EntriesToSave ud = [] →
  IsEmptySnapshot (Update.Snapshot ud) = false →
  Snapshot.Index (Update.Snapshot ud) ≤ MaxUint64 →
  (Cache.trySaveSnapshot (cs r) (Update.ClusterID ud) (Update.NodeID ud)
     (Snapshot.Index (Update.Snapshot ud))).1 = true →
  getWriteBatch ctx = [] →
  snapshot_records_wf (data (kvs r)) (Update.ClusterID ud) (Update.NodeID ud) →
  (∀ i v, data (kvs r) !! SnapshotKey (Update.ClusterID ud) (Update.NodeID ud) i = Some v →
          i < Snapshot.Index (Update.Snapshot ud)) →
  fault_at (kvs r) 0 = None →
  fault_at (kvs r) 1 = None →
  fault_at (kvs r) 2 = None →
  ∃ wb r1 r2,
    saveRaftState [ud] ctx r = Done (None, wb) r1
    ∧ commits (kvs r1) = wb :: commits (kvs r)
    ∧ getSnapshot (Update.ClusterID ud) (Update.NodeID ud) r1
      = Done (Update.Snapshot ud, None) r2
    ∧ getMaxIndex (Update.ClusterID ud) (Update.NodeID ud) r1
      = Done (Snapshot.Index (Update.Snapshot ud), None) r1
    ∧ data (kvs r1) !! MaxIndexKey (Update.ClusterID ud) (Update.NodeID ud)
      = Some (VMaxIndex (Snapshot.Index (Update.Snapshot ud))).
Proof.
  intros Hst Hents Hne Hmax Hacc Hfresh Hwf Habove H0 H1 H2.
  set (c := Update.ClusterID ud) in *. set (n := Update.NodeID ud) in *.
  set (ss := Update.Snapshot ud) in *.
  assert (Htry : Cache.trySaveSnapshot (cs r) c n (Snapshot.Index ss)
                 = (true, Cache.mk (Cache.lastMaxIndex (cs r)) (Cache.lastState (cs r))
                            (<[(c, n) := Snapshot.Index ss]>
                               (Cache.lastSnapshotIndex (cs r))))).
  { unfold Cache.trySaveSnapshot in *. destruct (_ <? _); [reflexivity|discriminate Hacc]. }
  set (cs1 := Cache.mk (Cache.lastMaxIndex (cs r)) (Cache.lastState (cs r))
                (<[(c, n) := Snapshot.Index ss]> (Cache.lastSnapshotIndex (cs r)))) in *.
  set (ra := mkDb cs1 (kvs r) (entries r)).
  destruct (saveSnapshot_run [] ud ra Hne H0 Hwf) as (snaps & Hsnaps & Hsave).
  fold c n ss in Hsave, Hsnaps. cbn [kvs ra cs entries] in Hsave, Hsnaps.
  set (ks := (fun s => SnapshotKey c n (Snapshot.Index s)) <$>
               filter (fun s => (Snapshot.Index s <? Snapshot.Index ss) = true) snaps)
    in *.
  set (W := (([] ++ (WbDelete <$> ks)
              ++ [WbPut (SnapshotKey c n (Snapshot.Index ss)) (VSnapshot ss)])
             ++ [WbPut (MaxIndexKey c n) (VMaxIndex (Snapshot.Index ss))])).
  set (cs2 := Cache.setMaxIndex cs1 c n (Snapshot.Index ss)).
  set (r1 := mkDb cs2
               (mkKV (apply_batch W (data (kvs r))) (tail (tail (faults (kvs r))))
                  (S (reads (kvs r))) (W :: commits (kvs r)))
               (entries r)).
  assert (Hcount : (0 <? Count W)%nat = true).
  { apply Nat.ltb_lt. unfold W, Count. rewrite length_app. simpl. lia. }
  assert (Hrun : saveRaftState [ud] ctx r = Done (None, W) r1).
  { unfold saveRaftState. rewrite Hfresh, run_bind. simpl saveRaftState_loop.
    rewrite run_bind. unfold saveRaftState_body. rewrite run_bind.
    fold c n ss. unfold saveState. rewrite Hst. rewrite run_ret. rewrite Hne.
    rewrite run_bind. unfold onCache at 1, state at 1. rewrite Htry.
    change (negb true) with false. cbv iota.
    rewrite run_bind. rewrite Hents. cbn [last]. rewrite ?run_ret.
    rewrite run_bind. fold ra. rewrite Hsave. cbv beta iota.
    rewrite run_bind. unfold setMaxIndex. rewrite run_bind.
    unfold onCache, state. cbn [kvs cs entries]. rewrite ?run_ret. cbv beta iota.
    rewrite ?run_ret. cbv beta iota.
    rewrite run_bind. cbn [saveEntries]. rewrite Hents. cbn [length].
    change (0 <? 0)%nat with false. cbv iota. rewrite ?run_ret.
    unfold saveMaxIndex, Put. fold c n ks W. rewrite Hcount.
    rewrite run_bind. unfold onKV. cbn [kvs cs entries].
    rewrite CommitWriteBatch_served; [reflexivity|].
    rewrite (fault_at_next (kvs r) (after_read (kvs r)) 0 eq_refl). exact H1. }
  assert (Hlook : ∀ i, apply_batch W (data (kvs r)) !! SnapshotKey c n i
                       = if decide (i = Snapshot.Index ss) then Some (VSnapshot ss)
                         else None).
  { intros i. unfold W. rewrite apply_batch_snoc_put.
    rewrite lookup_insert_ne by discriminate.
    rewrite app_nil_l, apply_batch_snoc_put.
    destruct (decide (i = Snapshot.Index ss)) as [->|Hi].
    - apply lookup_insert_eq.
    - rewrite lookup_insert_ne by congruence.
      apply apply_deletes_lookup.
      destruct (data (kvs r) !! SnapshotKey c n i) as [v|] eqn:Hl; [|right; reflexivity].
      left. destruct (Hwf i v Hl) as (_ & s & -> & <-). unfold ks.
      apply (list_elem_of_fmap_2 (fun s => SnapshotKey c n (Snapshot.Index s))).
      apply list_elem_of_filter. split.
      + apply N.ltb_lt. exact (Habove _ _ Hl).
      + apply Hsnaps. exact Hl. }
  assert (Hwf1 : snapshot_records_wf (data (kvs r1)) c n).
  { intros i v Hl. cbn [kvs r1 data] in Hl. rewrite Hlook in Hl.
    destruct (decide (i = Snapshot.Index ss)) as [->|]; [|discriminate Hl].
    inversion Hl. subst. split; [exact Hmax|eauto]. }
  assert (H2' : fault_at (kvs r1) 0 = None).
  { cbn [kvs r1].
    match goal with
    | |- fault_at ?kv 0 = None =>
        rewrite (fault_at_next (after_read (kvs r)) kv 0 eq_refl)
    end.
    rewrite (fault_at_next (kvs r) (after_read (kvs r)) 1 eq_refl). exact H2. }
  destruct (listSnapshots_served c n r1 H2' Hwf1) as (snaps1 & Hlist & Hsnaps1).
  assert (Hin : ss ∈ snaps1).
  { apply Hsnaps1. cbn [kvs r1 data]. rewrite Hlook.
    rewrite decide_True by reflexivity. reflexivity. }
  assert (Hlast : last snaps1 = Some ss).
  { destruct (last snaps1) as [s|] eqn:Hs.
    - apply last_Some_elem_of in Hs. apply Hsnaps1 in Hs.
      cbn [kvs r1 data] in Hs. rewrite Hlook in Hs.
      destruct (decide _); [|discriminate Hs]. inversion Hs. reflexivity.
    - apply last_None in Hs. subst snaps1. inversion Hin. }
  exists W, r1. eexists. split; [exact Hrun|]. split; [reflexivity|].
  split; [|split].
  - unfold getSnapshot. rewrite run_bind, Hlist, Hlast.
    rewrite run_bind. reflexivity.
  - apply getMaxIndex_hit. cbn [cs r1]. unfold cs2, Cache.getMaxIndex, Cache.setMaxIndex.
    simpl. apply lookup_insert_eq.
  - cbn [kvs r1 data]. unfold W. rewrite apply_batch_snoc_put. apply lookup_insert_eq.
Qed.

Lemma saveRaftState_snapshot_round_trip_witness :
  let store : gmap Key Value :=
    <[SnapshotKey 1 1 3 := VSnapshot (Snapshot.mk 3 1 1 1)]> ∅ in
  let r := mkDb Cache.empty (mkKV store [] 0 []) newPlainEntries in
  let ss := Snapshot.mk 7 2 1 1 in
  let ud := Update.mk 1 1 State.empty [] ss in
  ∃ wb r1 r2,
    saveRaftState [ud] None r = Done (None, wb) r1
    ∧ commits (kvs r1) = wb :: commits (kvs r)
    ∧ getSnapshot 1 1 r1 = Done (ss, None) r2
    ∧ getMaxIndex 1 1 r1 = Done (7, None) r1
    ∧ data (kvs r1) !! MaxIndexKey 1 1 = Some (VMaxIndex 7).
Proof.
  intros store r ss ud.
  refine (saveRaftState_snapshot_round_trip r ud None eq_refl eq_refl eq_refl _
            eq_refl eq_refl _ _ eq_refl eq_refl eq_refl).
  - intros Hgt. discriminate Hgt.
  - intros i v Hlook. simpl in Hlook. unfold store in Hlook.
    rewrite lookup_insert in Hlook.
    destruct (decide _) as [Hk|_] in Hlook;
      [|rewrite lookup_empty in Hlook; discriminate Hlook].
    inversion Hk. inversion Hlook. subst. split.
    + intros Hgt. discriminate Hgt.
    + eexists. split; reflexivity.
  - intros i v Hlook. simpl in Hlook. unfold store in Hlook.
    rewrite lookup_insert in Hlook.
    destruct (decide _) as [Hk|_] in Hlook;
      [|rewrite lookup_empty in Hlook; discriminate Hlook].
    inversion Hk. reflexivity.
Defined.

(** ** What a removal leaves in the cache *)

Lemma removeNodeData_cache (c n : N) :
  preserves (fun r => (Cache.lastState (cs r), Cache.lastSnapshotIndex (cs r)))
    (removeNodeData c n).
Proof.
  unfold removeNodeData, listSnapshots, removeEntriesTo.
  repeat first
    [ preserves_step
    | apply preserves_onKV; intros; reflexivity
    | apply preserves_state; intros; reflexivity ].
Qed.

(** X14: [removeNodeData] resets the cached max index only.  However the
    call ends, the cached state and the cached snapshot index of every
    replica, the removed one included, are as before; so after a removal that
    succeeded, a snapshot of the removed replica that is not above the index
    the cache remembers is still turned down, and [saveSnapshots] saves
    nothing of it. *)
Theorem removeNodeData_keeps_cached_state (r : db) (c n : N) :
  Cache.lastState (cs (final (removeNodeData c n r))) = Cache.lastState (cs r)
  ∧ Cache.lastSnapshotIndex (cs (final (removeNodeData c n r)))
    = Cache.lastSnapshotIndex (cs r)
  ∧ ∀ ud r',
      removeNodeData c n r = Done None r' →
      Update.ClusterID ud = c →
      Update.NodeID ud = n →
      Snapshot.Index (Update.Snapshot ud)
        ≤ default 0 (Cache.lastSnapshotIndex (cs r) !! (c, n)) →
      saveSnapshots [ud] r' = Done None r'.
Proof.
  pose proof (removeNodeData_cache c n r) as Hcache. simpl in Hcache.
  pose proof (f_equal fst Hcache) as Hstate. pose proof (f_equal snd Hcache) as Hsnap.
  simpl in Hstate, Hsnap. clear Hcache.
  split; [exact Hstate|]. split; [exact Hsnap|].
  intros ud r' Hrun Hc Hn Hle. rewrite Hrun in Hsnap. simpl in Hsnap.
  apply saveSnapshots_nothing.
  apply Forall_cons. split; [|apply Forall_nil_2].
  right. unfold Cache.trySaveSnapshot. rewrite Hc, Hn, Hsnap.
  destruct (_ <? _) eqn:Hlt; [|reflexivity].
  apply N.ltb_lt in Hlt. exfalso. lia.
Qed.

Lemma removeNodeData_keeps_cached_state_witness :
  let r := mkDb (Cache.mk {[(1, 1) := 9]} ∅ {[(1, 1) := 7]})
             (mkKV {[SnapshotKey 1 1 7 := VSnapshot (Snapshot.mk 7 2 1 1)]} [] 0 [])
             newPlainEntries in
  let r' := final (removeNodeData 1 1 r) in
  let ud := Update.mk 1 1 State.empty [] (Snapshot.mk 7 2 1 1) in
  data (kvs r') = ∅ ∧ saveSnapshots [ud] r' = Done None r'.
Proof.
  intros r r' ud. split; [vm_compute; reflexivity|].
  refine (proj2 (proj2 (removeNodeData_keeps_cached_state r 1 1)) ud r' _
            eq_refl eq_refl _).
  - vm_compute. reflexivity.
  - intros Hgt. discriminate Hgt.
Defined.

(** ** Failures of the max-index lookup *)

(** X15: when the cache has no max index for the replica and the engine
    fails the read of the max-index record, [iterateEntries] drops the slice
    and the size it was given and returns the I/O error wrapped with the name
    of the replica, so it is neither nil nor [ErrNoSavedLog]; [getRange]
    returns the same error bare, and neither consults the entry manager. *)
Theorem max_index_failure_is_returned
    (G : N → N → N → N → M KV (N * N * option error)) (r : db)
    (ents : list Entry.t) (size c n low high maxSize si code : N) :
  Cache.getMaxIndex (cs r) c n = None →
  fault_at (kvs r) 0 = Some code →
  iterateEntries ents size c n low high maxSize r
  = Done ([], 0, Some (Wrapped (StorageIO code) (FailedToGetMaxIndex (dn c n))))
      (mkDb (cs r) (after_read (kvs r)) (entries r))
  ∧ getRange G c n si r
    = Done (0, 0, Some (StorageIO code))
        (mkDb (cs r) (after_read (kvs r)) (entries r)).
Proof.
  intros Hmiss Hf.
  assert (Hrun : getMaxIndex c n r
            = Done (0, Some (StorageIO code))
                (mkDb (cs r) (after_read (kvs r)) (entries r))).
  { unfold getMaxIndex. rewrite run_bind. unfold receiver, state.
    rewrite Hmiss. rewrite run_bind. unfold onKV, GetValue.
    rewrite next_fault_at, Hf. reflexivity. }
  split.
  - unfold iterateEntries. rewrite run_bind, Hrun.
    rewrite decide_False by discriminate. reflexivity.
  - unfold getRange. rewrite run_bind, Hrun.
    rewrite decide_False by discriminate. reflexivity.
Qed.

Lemma max_index_failure_is_returned_witness :
  let G : N → N → N → N → M KV (N * N * option error) :=
    fun _ _ _ _ => mret (0, 0, None) in
  let r := mkDb Cache.empty (mkKV ∅ [Some 4] 0 []) newPlainEntries in
  iterateEntries [Entry.mk 1 1 []] 9 1 1 2 5 100 r
  = Done ([], 0, Some (Wrapped (StorageIO 4) (FailedToGetMaxIndex (dn 1 1))))
      (mkDb (cs r) (after_read (kvs r)) (entries r))
  ∧ getRange G 1 1 3 r
    = Done (0, 0, Some (StorageIO 4)) (mkDb (cs r) (after_read (kvs r)) (entries r)).
Proof.
  intros G r.
  exact (max_index_failure_is_returned G r [Entry.mk 1 1 []] 9 1 1 2 5 100 3 4
           eq_refl eq_refl).
Defined.

